(** * MY-CLI: credential capture and video resolution

    A shallow embedding of the TypeScript sources of the command-line tool
    (utils/auth.ts, utils/http.ts, api/courses.ts, api/video.ts, index.ts)
    and the properties of its specification that were checked against it.

    JavaScript strings are sequences of UTF-16 code units; they are modelled
    as [list N].  The runtime's own services (regular expressions,
    [JSON.parse], [JSON.stringify], [String.prototype.trim], ...) are
    modelled by executable definitions that follow ECMA-262. *)

From Stdlib Require Import List String Ascii NArith ZArith Bool Lia.
Import ListNotations.

Set Implicit Arguments.
Set Warnings "-register-all".

(* ------------------------------------------------------------------ *)
(** * JavaScript strings *)

Module JS.

Definition jsstring := list N.

(** Decoding of a source literal (UTF-8 bytes of this file) into code
    units.  Only the basic multilingual plane occurs in the sources. *)
Fixpoint utf8_units (bs : list N) : jsstring :=
  match bs with
  | [] => []
  | b :: r =>
    if (b <? 128)%N then b :: utf8_units r
    else if (b <? 224)%N then
      match r with
      | c :: r' => ((b - 192) * 64 + (c - 128))%N :: utf8_units r'
      | [] => [b]
      end
    else
      match r with
      | c :: d :: r' =>
        ((b - 224) * 4096 + (c - 128) * 64 + (d - 128))%N :: utf8_units r'
      | _ => [b]
      end
  end.

Definition lit (s : string) : jsstring :=
  utf8_units (map N_of_ascii (list_ascii_of_string s)).

Definition eqb (a b : jsstring) : bool :=
  if list_eq_dec N.eq_dec a b then true else false.

(** ECMA-262 WhiteSpace and LineTerminator code points: the class [\s] of
    regular expressions and the characters removed by [trim]. *)
Definition isWhiteSpace (c : N) : bool :=
  ((9 <=? c) && (c <=? 13) || (c =? 32) || (c =? 160) || (c =? 5760)
   || (8192 <=? c) && (c <=? 8202) || (c =? 8232) || (c =? 8233)
   || (c =? 8239) || (c =? 8287) || (c =? 12288) || (c =? 65279))%N.

Fixpoint trimStart (s : jsstring) : jsstring :=
  match s with
  | c :: r => if isWhiteSpace c then trimStart r else s
  | [] => []
  end.

Definition trimEnd (s : jsstring) : jsstring := rev (trimStart (rev s)).

Definition trim (s : jsstring) : jsstring := trimEnd (trimStart s).

(** [s.startsWith(p)] *)
Fixpoint startsWith (s p : jsstring) {struct p} : bool :=
  match p, s with
  | [], _ => true
  | _ :: _, [] => false
  | x :: p', y :: s' => (x =? y)%N && startsWith s' p'
  end.

(** [s.endsWith(p)] *)
Definition endsWith (s p : jsstring) : bool := startsWith (rev s) (rev p).

(** [s.includes(p)] *)
Fixpoint includes (s p : jsstring) : bool :=
  startsWith s p ||
  match s with
  | [] => false
  | _ :: s' => includes s' p
  end.

(** Truthiness of a string: [!s] is true exactly for the empty string. *)
Definition truthy (s : jsstring) : bool :=
  match s with [] => false | _ => true end.

(** [String.prototype.toLowerCase] on the ASCII range; the case tables of
    the other planes belong to the runtime and are taken as a parameter
    where a function needs them. *)
Definition asciiLowerUnit (c : N) : N :=
  if ((65 <=? c) && (c <=? 90))%N then (c + 32)%N else c.

Definition asciiToLowerCase (s : jsstring) : jsstring := map asciiLowerUnit s.

Definition asciiUpperUnit (c : N) : N :=
  if ((97 <=? c) && (c <=? 122))%N then (c - 32)%N else c.

Definition asciiToUpperCase (s : jsstring) : jsstring := map asciiUpperUnit s.

(** Digits of a natural number, as [String(n)] prints an integer. *)
Definition digitUnit (d : N) : N := (48 + d)%N.

Fixpoint digitsFuel (fuel : nat) (n : N) (acc : jsstring) : jsstring :=
  match fuel with
  | O => acc
  | S f =>
    let acc' := digitUnit (n mod 10) :: acc in
    if (n / 10 =? 0)%N then acc' else digitsFuel f (n / 10) acc'
  end.

Definition ofN (n : N) : jsstring := digitsFuel (S (N.to_nat (N.log2 n))) n [].

Definition ofZ (z : Z) : jsstring :=
  match z with
  | Z0 => [48%N]
  | Zpos p => ofN (Npos p)
  | Zneg p => 45%N :: ofN (Npos p)
  end.

(** [s.padStart(n, fill)] for a one-unit [fill]. *)
Definition padStart (s : jsstring) (n : nat) (fill : N) : jsstring :=
  repeat fill (n - List.length s) ++ s.

End JS.

Import JS.

(* ------------------------------------------------------------------ *)
(** * index.ts: the video type shown for a resolved address *)

(** [const videoType = videoUrl.includes(".m3u8") ? "m3u8" : "mp4";] *)
Definition videoType (videoUrl : jsstring) : jsstring :=
  if includes videoUrl (lit ".m3u8") then lit "m3u8" else lit "mp4".

(* ------------------------------------------------------------------ *)
(** * types/index.ts *)

Record AuthInfo := {
  authorization : jsstring;
  cookie : jsstring
}.

Record Course := {
  id : jsstring;
  title : jsstring;
  realname : jsstring;
  course_begin : jsstring;
  course_over : jsstring;
  room_name : jsstring;
  sub_id : jsstring;
  sub_title : jsstring;
  sub_status : jsstring;
  course_student_type : jsstring;
  lecturer_name : jsstring
}.

(* ------------------------------------------------------------------ *)
(** * index.ts: filterCourses *)

Section FilterCourses.

(** [String.prototype.toLowerCase] of the runtime. *)
Variable toLowerCase : jsstring -> jsstring.

Definition courseMatches (term : jsstring) (course : Course) : bool :=
  includes (toLowerCase (title course)) term
  || includes (toLowerCase (lecturer_name course)) term
  || includes (toLowerCase (room_name course)) term.

Definition filterCourses (courses : list Course) (searchTerm : jsstring)
  : list Course :=
  if negb (truthy searchTerm) then courses
  else
    let term := trim (toLowerCase searchTerm) in
    filter (courseMatches term) courses.

(** The reading of the specification: a field contains the search term as
    a case-insensitive substring. *)
Definition containsIgnoringCase (field term : jsstring) : bool :=
  includes (toLowerCase field) (toLowerCase term).

Definition courseContains (term : jsstring) (course : Course) : bool :=
  containsIgnoringCase (title course) term
  || containsIgnoringCase (lecturer_name course) term
  || containsIgnoringCase (room_name course) term.

End FilterCourses.

(* ------------------------------------------------------------------ *)
(** * utils/http.ts: formatDate and the request of httpGet *)

(** A [Date] seen through the three getters [formatDate] calls.  The
    getters of an invalid date return NaN. *)
Inductive Date :=
| LocalDate (fullYear : Z) (month : N) (date : N)
| InvalidDate.

(** [String(x).padStart(2, "0")] for the number a getter returned. *)
Definition pad2 (n : N) : jsstring := padStart (ofN n) 2 48%N.

Definition formatDate (d : Date) : jsstring :=
  match d with
  | LocalDate year m day =>
    ofZ year ++ lit "-" ++ pad2 (m + 1) ++ lit "-" ++ pad2 day
  | InvalidDate => lit "NaN-NaN-NaN"
  end.

Record Request := {
  req_method : jsstring;
  req_url : jsstring;
  req_headers : list (jsstring * jsstring)
}.

Definition userAgent : jsstring :=
  lit "Mozilla/5.0 (X11; Linux x86_64) AppleWebKit/537.36 (KHTML, like Gecko) Chrome/141.0.0.0 Safari/537.36".

(** The request [httpGet] hands to [fetch]. *)
Definition httpGet_request (url : jsstring) (authInfo : option AuthInfo)
  : Request :=
  let headers :=
    [ (lit "accept", lit "application/json, text/plain, */*");
      (lit "accept-language", lit "zh-CN,zh;q=0.9");
      (lit "cache-control", lit "no-cache");
      (lit "pragma", lit "no-cache");
      (lit "user-agent", userAgent) ] in
  let headers :=
    match authInfo with
    | Some a =>
      headers ++ [ (lit "authorization", authorization a);
                   (lit "cookie", cookie a) ]
    | None => headers
    end in
  {| req_method := lit "GET"; req_url := url; req_headers := headers |}.

(* ------------------------------------------------------------------ *)
(** * api/courses.ts: getCourses *)

(** The numbers [getCourses] receives as [buildingId]: [parseInt] in
    index.ts yields an integer or NaN.  [Int z] stands for the double
    that equals [z]: every integer up to 2^53 in magnitude is one, and
    the properties proved about numbers bound them so. *)
Inductive number :=
| Int (z : Z)
| NaN.

Definition number_truthy (n : number) : bool :=
  match n with
  | Int z => negb (z =? 0)%Z
  | NaN => false
  end.

(** [String(n)], as a template literal prints a number: an integer
    below 10^21 in magnitude is printed with all its digits. *)
Definition number_toString (n : number) : jsstring :=
  match n with
  | Int z => ofZ z
  | NaN => lit "NaN"
  end.

Definition coursesUrlPrefix : jsstring :=
  lit "https://onlineroomse.pku.edu.cn/courseapi/v2/course-live/search-live-course-list?need_time_quantum=1&unique_course=1&with_sub_duration=1&search_time=".

Definition coursesUrlSuffix : jsstring :=
  lit "&tenant=226&course_student_type=&sub_live_status=&with_sub_data=1".

Definition getCourses_url (d : Date) (buildingId : option number) : jsstring :=
  let dateStr := formatDate d in
  let url := coursesUrlPrefix ++ dateStr ++ coursesUrlSuffix in
  match buildingId with
  | Some b =>
    if number_truthy b then url ++ lit "&building_in=" ++ number_toString b
    else url
  | None => url
  end.

Definition getCourses (authInfo : AuthInfo) (d : Date)
  (buildingId : option number) : Request :=
  httpGet_request (getCourses_url d buildingId) (Some authInfo).

(* ------------------------------------------------------------------ *)
(** * The runtime's JSON object *)

Module JSON.

(** A number literal, kept exactly: (-1)^neg * mantissa * 10^exponent. *)
Record decimal := {
  neg : bool;
  mantissa : N;
  exponent : Z
}.

Inductive value :=
| JNull
| JBool (b : bool)
| JNumber (d : decimal)
| JString (s : jsstring)
| JArray (items : list value)
| JObject (members : list (jsstring * value)).

(** The double nearest to a literal is zero when the mantissa is zero or
    the magnitude is at most 2^-1075 (round to nearest, ties to even). *)
Definition roundsToZero (d : decimal) : bool :=
  (mantissa d =? 0)%N
  || match exponent d with
     | Zneg p => (Z.of_N (mantissa d) * 2 ^ 1075 <=? 10 ^ Zpos p)%Z
     | _ => false
     end.

(** [CreateDataProperty] on the object under construction: a repeated key
    overwrites the earlier value. *)
Fixpoint setMember (k : jsstring) (v : value)
    (ms : list (jsstring * value)) : list (jsstring * value) :=
  match ms with
  | [] => [(k, v)]
  | (k', v') :: r =>
    if JS.eqb k k' then (k, v) :: r else (k', v') :: setMember k v r
  end.

Fixpoint getMember (k : jsstring) (ms : list (jsstring * value))
  : option value :=
  match ms with
  | [] => None
  | (k', v) :: r => if JS.eqb k k' then Some v else getMember k r
  end.

(** JSON white space: tab, line feed, carriage return, space. *)
Definition isWS (c : N) : bool :=
  ((c =? 9) || (c =? 10) || (c =? 13) || (c =? 32))%N.

Fixpoint skipWS (s : jsstring) : jsstring :=
  match s with
  | c :: r => if isWS c then skipWS r else s
  | [] => []
  end.

Definition isDigit (c : N) : bool := ((48 <=? c) && (c <=? 57))%N.

Definition hexValue (c : N) : option N :=
  if isDigit c then Some (c - 48)%N
  else if ((97 <=? c) && (c <=? 102))%N then Some (c - 87)%N
  else if ((65 <=? c) && (c <=? 70))%N then Some (c - 55)%N
  else None.

Definition hex4Value (a b c d : N) : option N :=
  match hexValue a, hexValue b, hexValue c, hexValue d with
  | Some x, Some y, Some z, Some w =>
    Some (x * 4096 + y * 256 + z * 16 + w)%N
  | _, _, _, _ => None
  end.

(** The character an escape letter stands for. *)
Definition escapeValue (e : N) : option N :=
  if (e =? 34)%N then Some 34%N
  else if (e =? 92)%N then Some 92%N
  else if (e =? 47)%N then Some 47%N
  else if (e =? 98)%N then Some 8%N
  else if (e =? 102)%N then Some 12%N
  else if (e =? 110)%N then Some 10%N
  else if (e =? 114)%N then Some 13%N
  else if (e =? 116)%N then Some 9%N
  else None.

(** The characters of a string literal after its opening quote, up to and
    including the closing quote. *)
Fixpoint parseChars (s : jsstring) : option (jsstring * jsstring) :=
  let cons c r :=
    match parseChars r with
    | Some (t, rest) => Some (c :: t, rest)
    | None => None
    end in
  match s with
  | [] => None
  | c :: r =>
    if (c =? 34)%N then Some ([], r)
    else if (c =? 92)%N then
      match r with
      | [] => None
      | e :: r1 =>
        if (e =? 117)%N then
          match r1 with
          | h1 :: h2 :: h3 :: h4 :: r2 =>
            match hex4Value h1 h2 h3 h4 with
            | Some u => cons u r2
            | None => None
            end
          | _ => None
          end
        else
          match escapeValue e with
          | Some u => cons u r1
          | None => None
          end
      end
    else if (c <? 32)%N then None
    else cons c r
  end.

Fixpoint spanDigits (s : jsstring) : jsstring * jsstring :=
  match s with
  | c :: r =>
    if isDigit c then let (ds, rest) := spanDigits r in (c :: ds, rest)
    else ([], s)
  | [] => ([], [])
  end.

Definition digitsValue (ds : jsstring) : N :=
  fold_left (fun acc c => (acc * 10 + (c - 48))%N) ds 0%N.

(** A number literal: an optional minus sign, an integer part without a
    leading zero, an optional fraction, an optional exponent. *)
Definition parseNumber (s : jsstring) : option (value * jsstring) :=
  let (sign, s1) :=
    match s with
    | c :: r => if (c =? 45)%N then (true, r) else (false, s)
    | [] => (false, s)
    end in
  let intPart :=
    match s1 with
    | c :: r =>
      if (c =? 48)%N then Some ([48%N], r)
      else if isDigit c then Some (spanDigits s1)
      else None
    | [] => None
    end in
  match intPart with
  | None => None
  | Some (ip, s2) =>
    let fracPart :=
      match s2 with
      | c :: r =>
        if (c =? 46)%N then
          match spanDigits r with
          | ([], _) => None
          | (fd, rest) => Some (fd, rest)
          end
        else Some ([], s2)
      | [] => Some ([], s2)
      end in
    match fracPart with
    | None => None
    | Some (fp, s3) =>
      let expPart :=
        match s3 with
        | c :: r =>
          if ((c =? 101) || (c =? 69))%N then
            let (esign, r1) :=
              match r with
              | g :: r' =>
                if (g =? 45)%N then (true, r')
                else if (g =? 43)%N then (false, r')
                else (false, r)
              | [] => (false, r)
              end in
            match spanDigits r1 with
            | ([], _) => None
            | (ed, rest) =>
              let e := Z.of_N (digitsValue ed) in
              Some ((if esign then - e else e)%Z, rest)
            end
          else Some (0%Z, s3)
        | [] => Some (0%Z, s3)
        end in
      match expPart with
      | None => None
      | Some (e, s4) =>
        Some (JNumber {| neg := sign;
                         mantissa := digitsValue (ip ++ fp);
                         exponent := e - Z.of_nat (List.length fp) |},
              s4)
      end
    end
  end.

(** [s] without the prefix [p], when it starts with it. *)
Fixpoint stripPrefix (p s : jsstring) {struct p} : option jsstring :=
  match p, s with
  | [], _ => Some s
  | _ :: _, [] => None
  | x :: p', y :: s' => if (x =? y)%N then stripPrefix p' s' else None
  end.

(** What follows a value inside an array or an object. *)
Inductive separator := Comma | Close | Other.

Definition nextSeparator (close : N) (s : jsstring)
  : separator * jsstring :=
  match skipWS s with
  | c :: r =>
    if (c =? 44)%N then (Comma, r)
    else if (c =? close)%N then (Close, r)
    else (Other, r)
  | [] => (Other, [])
  end.

(** The recursive-descent parser.  One unit of [fuel] is spent on entering
    a value and one on each element or member, so twice the length of the
    text is never exhausted. *)
Fixpoint parseValue (fuel : nat) (s : jsstring) {struct fuel}
  : option (value * jsstring) :=
  match fuel with
  | O => None
  | S f =>
    match s with
    | [] => None
    | c :: r =>
      if (c =? 123)%N then
        match stripPrefix [125%N] (skipWS r) with
        | Some r' => Some (JObject [], r')
        | None => parseMembers f [] r
        end
      else if (c =? 91)%N then
        match stripPrefix [93%N] (skipWS r) with
        | Some r' => Some (JArray [], r')
        | None => parseElements f [] r
        end
      else if (c =? 34)%N then
        match parseChars r with
        | Some (t, rest) => Some (JString t, rest)
        | None => None
        end
      else
        match stripPrefix (lit "true") s with
        | Some r' => Some (JBool true, r')
        | None =>
          match stripPrefix (lit "false") s with
          | Some r' => Some (JBool false, r')
          | None =>
            match stripPrefix (lit "null") s with
            | Some r' => Some (JNull, r')
            | None => parseNumber s
            end
          end
        end
    end
  end

with parseElements (fuel : nat) (acc : list value) (s : jsstring)
    {struct fuel} : option (value * jsstring) :=
  match fuel with
  | O => None
  | S f =>
    match parseValue f (skipWS s) with
    | None => None
    | Some (v, r) =>
      match nextSeparator 93 r with
      | (Comma, r') => parseElements f (acc ++ [v]) r'
      | (Close, r') => Some (JArray (acc ++ [v]), r')
      | (Other, _) => None
      end
    end
  end

with parseMembers (fuel : nat) (acc : list (jsstring * value))
    (s : jsstring) {struct fuel} : option (value * jsstring) :=
  match fuel with
  | O => None
  | S f =>
    match stripPrefix [34%N] (skipWS s) with
    | None => None
    | Some r =>
      match parseChars r with
      | None => None
      | Some (k, r1) =>
        match stripPrefix [58%N] (skipWS r1) with
        | None => None
        | Some r2 =>
          match parseValue f (skipWS r2) with
          | None => None
          | Some (v, r3) =>
            match nextSeparator 125 r3 with
            | (Comma, r') => parseMembers f (setMember k v acc) r'
            | (Close, r') => Some (JObject (setMember k v acc), r')
            | (Other, _) => None
            end
          end
        end
      end
    end
  end.

(** [JSON.parse(text)]; [None] stands for the SyntaxError it throws. *)
Definition parse (text : jsstring) : option value :=
  match parseValue (2 * List.length text + 2) (skipWS text) with
  | Some (v, r) =>
    match skipWS r with
    | [] => Some v
    | _ => None
    end
  | None => None
  end.

(** ** JSON.stringify on strings *)

Definition hexDigit (n : N) : N :=
  if (n <? 10)%N then (48 + n)%N else (87 + n)%N.

(** The escape [\uXXXX] with lower-case digits. *)
Definition unicodeEscape (c : N) : jsstring :=
  [92; 117; hexDigit (c / 4096 mod 16); hexDigit (c / 256 mod 16);
   hexDigit (c / 16 mod 16); hexDigit (c mod 16)]%N.

Definition isLeadSurrogate (c : N) : bool :=
  ((55296 <=? c) && (c <=? 56319))%N.

Definition isTrailSurrogate (c : N) : bool :=
  ((56320 <=? c) && (c <=? 57343))%N.

(** The two-character escapes of QuoteJSONString. *)
Definition shortEscape (c : N) : option N :=
  if (c =? 8)%N then Some 98%N
  else if (c =? 9)%N then Some 116%N
  else if (c =? 10)%N then Some 110%N
  else if (c =? 12)%N then Some 102%N
  else if (c =? 13)%N then Some 114%N
  else if (c =? 34)%N then Some 34%N
  else if (c =? 92)%N then Some 92%N
  else None.

(** QuoteJSONString without the surrounding quotes: the code points of the
    string in turn, a surrogate pair kept, a lone surrogate escaped. *)
Fixpoint quoteChars (s : jsstring) : jsstring :=
  match s with
  | [] => []
  | c :: r =>
    match shortEscape c with
    | Some e => 92%N :: e :: quoteChars r
    | None =>
      if (c <? 32)%N then unicodeEscape c ++ quoteChars r
      else if isLeadSurrogate c then
        match r with
        | d :: r' =>
          if isTrailSurrogate d then c :: d :: quoteChars r'
          else unicodeEscape c ++ quoteChars r
        | [] => unicodeEscape c ++ quoteChars r
        end
      else if isTrailSurrogate c then unicodeEscape c ++ quoteChars r
      else c :: quoteChars r
    end
  end.

Definition quote (s : jsstring) : jsstring :=
  34%N :: quoteChars s ++ [34%N].

End JSON.

(* ------------------------------------------------------------------ *)
(** * Evaluation of JavaScript over JSON values *)

Module Eval.

Import JSON.

(** The completion of a statement list: a value or a thrown error, named
    by its constructor. *)
Inductive completion (A : Type) :=
| Normal (a : A)
| Throw (error : jsstring).

Arguments Normal {A} a.
Arguments Throw {A} error.

Definition bind {A B : Type} (c : completion A) (k : A -> completion B)
  : completion B :=
  match c with
  | Normal a => k a
  | Throw e => Throw e
  end.

(** [try { body } catch (error) { handler }] *)
Definition tryCatch {A : Type} (body : completion A)
    (handler : jsstring -> completion A) : completion A :=
  match body with
  | Normal a => Normal a
  | Throw e => handler e
  end.

Declare Scope js_scope.
Delimit Scope js_scope with js.
Notation "x <- c ;; k" := (bind c (fun x => k))
  (at level 61, c at next level, right associativity) : js_scope.

Definition TypeError : jsstring := lit "TypeError".
Definition SyntaxError : jsstring := lit "SyntaxError".

(** [JSON.parse(text)] as an expression. *)
Definition JSON_parse (text : jsstring) : completion value :=
  match parse text with
  | Some v => Normal v
  | None => Throw SyntaxError
  end.

Definition ofLength (s : nat) : value :=
  JNumber {| neg := false; mantissa := N.of_nat s; exponent := 0 |}.

(** [base.key] for a base that is [undefined] ([None]) or a JSON value,
    and a key that is not an array index nor the name of an inherited
    property: the keys of the sources are save_playback, contents,
    authorization, cookie and length. *)
Definition getProperty (base : option value) (key : jsstring)
  : completion (option value) :=
  match base with
  | None => Throw TypeError
  | Some JNull => Throw TypeError
  | Some (JObject ms) => Normal (getMember key ms)
  | Some (JString s) =>
    if JS.eqb key (lit "length") then Normal (Some (ofLength (List.length s)))
    else Normal None
  | Some (JArray items) =>
    if JS.eqb key (lit "length")
    then Normal (Some (ofLength (List.length items)))
    else Normal None
  | Some (JNumber _) => Normal None
  | Some (JBool _) => Normal None
  end.

(** ToBoolean *)
Definition toBoolean (v : option value) : bool :=
  match v with
  | None => false
  | Some JNull => false
  | Some (JBool b) => b
  | Some (JNumber d) => negb (roundsToZero d)
  | Some (JString s) => truthy s
  | Some (JArray _) => true
  | Some (JObject _) => true
  end.

(** [base.startsWith(prefix)]: only a string has the method. *)
Definition callStartsWith (base : option value) (prefix : jsstring)
  : completion bool :=
  match base with
  | Some (JString s) => Normal (startsWith s prefix)
  | _ => Throw TypeError
  end.

Definition isPositive (d : decimal) : bool :=
  negb (neg d) && negb (roundsToZero d).

(** Digits of a numeric string in a radix; [None] when a character is not
    a digit of the radix, otherwise whether some digit is not zero. *)
Fixpoint radixDigitsNonZero (radix : N) (s : jsstring) : option bool :=
  match s with
  | [] => Some false
  | c :: r =>
    match hexValue c with
    | Some v =>
      if (v <? radix)%N then
        match radixDigitsNonZero radix r with
        | Some b => Some (negb (v =? 0)%N || b)
        | None => None
        end
      else None
    | None => None
    end
  end.

(** The exponent part of a numeric string that ends with it. *)
Definition exponentPart (s : jsstring) : option Z :=
  match s with
  | [] => Some 0%Z
  | c :: r =>
    if ((c =? 101) || (c =? 69))%N then
      let (negative, r1) :=
        match r with
        | g :: r' =>
          if (g =? 45)%N then (true, r')
          else if (g =? 43)%N then (false, r')
          else (false, r)
        | [] => (false, r)
        end in
      match spanDigits r1 with
      | ([], _) => None
      | (ed, []) =>
        let e := Z.of_N (digitsValue ed) in
        Some (if negative then - e else e)%Z
      | (_, _ :: _) => None
      end
    else None
  end.

(** Whether an unsigned decimal literal of StringToNumber denotes a number
    other than zero (an ill-formed literal denotes NaN). *)
Definition decimalLiteralPositive (s : jsstring) : bool :=
  if JS.eqb s (lit "Infinity") then true
  else
    let (ip, s2) := spanDigits s in
    let (fp, s3) :=
      match s2 with
      | c :: r => if (c =? 46)%N then spanDigits r else ([], s2)
      | [] => ([], s2)
      end in
    match ip ++ fp with
    | [] => false
    | ds =>
      match exponentPart s3 with
      | None => false
      | Some e =>
        negb (roundsToZero {| neg := false; mantissa := digitsValue ds;
                              exponent := e - Z.of_nat (List.length fp) |})
      end
    end.

(** Whether StringToNumber of the text is greater than zero. *)
Definition stringPositive (text : jsstring) : bool :=
  let nonDecimal (radix : N) (r : jsstring) : bool :=
    match r with
    | [] => false
    | _ :: _ =>
      match radixDigitsNonZero radix r with
      | Some b => b
      | None => false
      end
    end in
  match trim text with
  | [] => false
  | [c] => decimalLiteralPositive [c]
  | c :: m :: r =>
    if (c =? 48)%N && ((m =? 120) || (m =? 88))%N then nonDecimal 16%N r
    else if (c =? 48)%N && ((m =? 111) || (m =? 79))%N then nonDecimal 8%N r
    else if (c =? 48)%N && ((m =? 98) || (m =? 66))%N then nonDecimal 2%N r
    else if (c =? 45)%N then false
    else if (c =? 43)%N then decimalLiteralPositive (m :: r)
    else decimalLiteralPositive (c :: m :: r)
  end.

(** ToNumber of an array element after the array was joined into a
    string: only a one-element array can denote a number. *)
Fixpoint elementPositive (v : value) : bool :=
  match v with
  | JNumber d => isPositive d
  | JString s => stringPositive s
  | JArray [x] => elementPositive x
  | _ => false
  end.

(** [x > 0] *)
Definition greaterThanZero (x : option value) : bool :=
  match x with
  | None => false
  | Some JNull => false
  | Some (JBool b) => b
  | Some (JNumber d) => isPositive d
  | Some (JString s) => stringPositive s
  | Some (JArray [y]) => elementPositive y
  | Some (JArray _) => false
  | Some (JObject _) => false
  end.

End Eval.

Import Eval.

(* ------------------------------------------------------------------ *)
(** * api/video.ts: extractVideoUrl *)

Module Video.

(** [sub_content] and [list] are optional at run time: the function tests
    for both. *)
Record VideoCourse := {
  id : jsstring;
  title : jsstring;
  realname : jsstring;
  sub_id : jsstring;
  sub_title : jsstring;
  sub_content : option jsstring;
  course_begin : jsstring;
  course_over : jsstring;
  room_name : jsstring;
  lecturer_name : jsstring;
  sub_duration : jsstring
}.

Record VideoResponse := {
  code : Z;
  msg : jsstring;
  total : jsstring;
  list_ : option (list VideoCourse)
}.

End Video.

Local Open Scope js_scope.

(** The body of the [try] block; [None] is the fall-through to the final
    [return null]. *)
Definition extractVideoUrl_try (subContentStr : jsstring)
  : completion (option JSON.value) :=
  if negb (truthy subContentStr) then Normal None
  else
    subContent <- JSON_parse subContentStr ;;
    savePlayback <- getProperty (Some subContent) (lit "save_playback") ;;
    if toBoolean savePlayback then
      contents <- getProperty savePlayback (lit "contents") ;;
      if toBoolean contents then Normal contents else Normal None
    else Normal None.

(** The result is [None] for [null] and the value of [contents]
    otherwise. *)
Definition extractVideoUrl (videoResponse : Video.VideoResponse)
  : completion (option JSON.value) :=
  match Video.list_ videoResponse with
  | None => Normal None
  | Some [] => Normal None
  | Some (first :: _) =>
    match Video.sub_content first with
    | None => Normal None
    | Some subContentStr =>
      if negb (truthy subContentStr) then Normal None
      else
        tryCatch (extractVideoUrl_try subContentStr)
                 (fun error => Normal None)
    end
  end.

(* ------------------------------------------------------------------ *)
(** * utils/auth.ts: the credential file *)

Definition validateAuthInfo (authInfo : AuthInfo) : bool :=
  startsWith (authorization authInfo) (lit "Bearer ")
  && (0 <? List.length (cookie authInfo))%nat.

(** The object an [AuthInfo] is at run time. *)
Definition authInfoObject (authInfo : AuthInfo) : JSON.value :=
  JSON.JObject
    [ (lit "authorization", JSON.JString (authorization authInfo));
      (lit "cookie", JSON.JString (cookie authInfo)) ].

(** [validateAuthInfo] applied to what [JSON.parse] returned, which the
    cast to [AuthInfo] does not check. *)
Definition validateAuthInfo_parsed (authInfo : JSON.value)
  : completion bool :=
  a <- getProperty (Some authInfo) (lit "authorization") ;;
  bearer <- callStartsWith a (lit "Bearer ") ;;
  if negb bearer then Normal false
  else
    c <- getProperty (Some authInfo) (lit "cookie") ;;
    len <- getProperty c (lit "length") ;;
    Normal (greaterThanZero len).

(** [JSON.stringify(authInfo, null, 2)] *)
Definition stringifyAuthInfo (authInfo : AuthInfo) : jsstring :=
  lit "{" ++ [10%N] ++ lit "  " ++ JSON.quote (lit "authorization")
  ++ lit ": " ++ JSON.quote (authorization authInfo) ++ lit "," ++ [10%N]
  ++ lit "  " ++ JSON.quote (lit "cookie") ++ lit ": "
  ++ JSON.quote (cookie authInfo) ++ [10%N] ++ lit "}".

(** The file ".pku-cli-auth.json": absent, or the text stored in it, a
    leading byte order mark included. *)
Definition AuthFile := option jsstring.

(** [authFile.text()]: the stored text is decoded, and a byte order mark
    at its start is dropped. *)
Definition fileText (stored : jsstring) : jsstring :=
  match stored with
  | c :: r => if (c =? 65279)%N then r else stored
  | [] => []
  end.

Definition saveAuthInfo (authInfo : AuthInfo) (file : AuthFile) : AuthFile :=
  Some (stringifyAuthInfo authInfo).

(** [Bun.write(authPath, "")]; a failure of the write is ignored. *)
Definition deleteAuthInfo (file : AuthFile) : AuthFile := Some [].

Definition loadAuthInfo (file : AuthFile) : option JSON.value * AuthFile :=
  match file with
  | Some stored =>
    let content := fileText stored in
    let body :=
      authInfo <- JSON_parse content ;;
      valid <- validateAuthInfo_parsed authInfo ;;
      Normal (if valid then Some authInfo else None) in
    match body with
    | Normal (Some authInfo) => (Some authInfo, file)
    | Normal None => (None, file)
    | Throw _ => (None, deleteAuthInfo file)
    end
  | None => (None, file)
  end.

Local Close Scope js_scope.

(* ------------------------------------------------------------------ *)
(** * The runtime's regular expressions

    The patterns of utils/auth.ts are sequences of character classes, each
    taken once or under a greedy [*] or [+], with at most one capturing
    group around one of them.  [matchTerms] is the backtracking matcher of
    ECMA-262 for that fragment. *)

Module RegExp.

Inductive charClass :=
| Unit (c : N)      (* a pattern character *)
| Space             (* \s *)
| NotUnit (c : N).  (* [^c] *)

Inductive quantifier := Once | Star | Plus.

Record term := {
  class : charClass;
  quant : quantifier;
  captures : bool
}.

Record regexp := {
  terms : list term;
  ignoreCase : bool
}.

(** Canonicalize of ECMA-262 under the [i] flag, on the units it can
    identify with a pattern character of the ASCII range. *)
Definition canonicalize (ignoreCase : bool) (c : N) : N :=
  if ignoreCase then asciiUpperUnit c else c.

Definition classMatches (ignoreCase : bool) (cl : charClass) (c : N) : bool :=
  match cl with
  | Unit p => (canonicalize ignoreCase p =? canonicalize ignoreCase c)%N
  | Space => isWhiteSpace c
  | NotUnit p =>
    negb (canonicalize ignoreCase p =? canonicalize ignoreCase c)%N
  end.

(** The state of a match: the capture of group 1 and the rest of the
    input. *)
Definition matchState := (option jsstring * jsstring)%type.

Section Matcher.

Variable ignoreCase : bool.

(** A greedy repetition of [cl], [taken] holding (reversed) what this term
    has consumed so far: one more unit is tried first, the continuation
    [k] afterwards. *)
Fixpoint repeatMatcher (cl : charClass)
    (k : jsstring -> jsstring -> option matchState)
    (taken s : jsstring) {struct s} : option matchState :=
  match s with
  | c :: r =>
    if classMatches ignoreCase cl c then
      match repeatMatcher cl k (c :: taken) r with
      | Some m => Some m
      | None => k taken s
      end
    else k taken s
  | [] => k taken s
  end.

Fixpoint matchTerms (ts : list term) (capture : option jsstring)
    (s : jsstring) {struct ts} : option matchState :=
  match ts with
  | [] => Some (capture, s)
  | t :: ts' =>
    let k (taken rest : jsstring) :=
      matchTerms ts'
        (if captures t then Some (rev taken) else capture) rest in
    match quant t with
    | Once =>
      match s with
      | c :: r =>
        if classMatches ignoreCase (class t) c then k [c] r else None
      | [] => None
      end
    | Star => repeatMatcher (class t) k [] s
    | Plus =>
      match s with
      | c :: r =>
        if classMatches ignoreCase (class t) c
        then repeatMatcher (class t) k [c] r
        else None
      | [] => None
      end
    end
  end.

End Matcher.

Definition matchAt (re : regexp) (s : jsstring) : option matchState :=
  matchTerms (ignoreCase re) (terms re) None s.

(** [s.match(re)] for a pattern without the [g] flag: the leftmost
    position at which the pattern matches; the result is group 1. *)
Fixpoint exec (re : regexp) (s : jsstring) : option (option jsstring) :=
  match matchAt re s with
  | Some (capture, _) => Some capture
  | None =>
    match s with
    | _ :: r => exec re r
    | [] => None
    end
  end.

(** [s.replace(re, replacement)] for a pattern with the [g] flag;
    [skip] counts the units of the last match still to be passed. *)
Fixpoint replaceFrom (re : regexp) (replacement : jsstring) (skip : nat)
    (s : jsstring) {struct s} : jsstring :=
  match s with
  | [] =>
    match skip, matchAt re [] with
    | O, Some _ => replacement
    | _, _ => []
    end
  | c :: r =>
    match skip with
    | S n => replaceFrom re replacement n r
    | O =>
      match matchAt re s with
      | Some (_, rest) =>
        match List.length s - List.length rest with
        | O => replacement ++ c :: replaceFrom re replacement O r
        | S n => replacement ++ replaceFrom re replacement n r
        end
      | None => c :: replaceFrom re replacement O r
      end
    end
  end.

Definition replace (re : regexp) (replacement s : jsstring) : jsstring :=
  replaceFrom re replacement O s.

(** Notation of patterns. *)
Definition chars (s : jsstring) : list term :=
  map (fun c => {| class := Unit c; quant := Once; captures := false |}) s.

Definition spaces (q : quantifier) : list term :=
  [ {| class := Space; quant := q; captures := false |} ].

Definition groupNot (c : N) : list term :=
  [ {| class := NotUnit c; quant := Plus; captures := true |} ].

End RegExp.

(* ------------------------------------------------------------------ *)
(** * utils/auth.ts: parseCurlCommand *)

Module Patterns.

Import RegExp.

Definition insensitive (ts : list term) : regexp :=
  {| terms := ts; ignoreCase := true |}.

Definition sensitive (ts : list term) : regexp :=
  {| terms := ts; ignoreCase := false |}.

Definition apostrophe : N := 39.
Definition doubleQuote : N := 34.
Definition backslash : N := 92.
Definition lineFeed : N := 10.

(** [/\\\s*\n\s*/g] *)
Definition continuation : regexp :=
  sensitive (chars [backslash] ++ spaces Star ++ chars [lineFeed]
             ++ spaces Star).

(** [/\\\n/g] *)
Definition backslashNewline : regexp :=
  sensitive (chars [backslash; lineFeed]).

(** [/\s+/g] *)
Definition whiteSpaceRun : regexp := sensitive (spaces Plus).

(** [/<flag>\s+<q>authorization:\s*Bearer\s+([^<q>]+)<q>/i] *)
Definition bearerHeader (flag : jsstring) (q : N) : regexp :=
  insensitive (chars flag ++ spaces Plus ++ chars [q]
               ++ chars (lit "authorization:") ++ spaces Star
               ++ chars (lit "Bearer") ++ spaces Plus
               ++ groupNot q ++ chars [q]).

(** [/<flag>\s+<q>([^<q>]+)<q>/] *)
Definition cookieFlag (flag : jsstring) (q : N) : regexp :=
  sensitive (chars flag ++ spaces Plus ++ chars [q] ++ groupNot q
             ++ chars [q]).

(** [/<flag>\s+<q>cookie:\s*([^<q>]+)<q>/i] *)
Definition cookieHeader (flag : jsstring) (q : N) : regexp :=
  insensitive (chars flag ++ spaces Plus ++ chars [q]
               ++ chars (lit "cookie:") ++ spaces Star
               ++ groupNot q ++ chars [q]).

Definition authPatterns : list regexp :=
  [ bearerHeader (lit "-H") apostrophe;
    bearerHeader (lit "-H") doubleQuote;
    bearerHeader (lit "--header") apostrophe;
    bearerHeader (lit "--header") doubleQuote ].

Definition cookiePatterns : list regexp :=
  [ cookieFlag (lit "-b") apostrophe;
    cookieFlag (lit "-b") doubleQuote;
    cookieFlag (lit "--cookie") apostrophe;
    cookieFlag (lit "--cookie") doubleQuote;
    cookieHeader (lit "-H") apostrophe;
    cookieHeader (lit "-H") doubleQuote;
    cookieHeader (lit "--header") apostrophe;
    cookieHeader (lit "--header") doubleQuote ].

End Patterns.

Definition normalizeCommand (curlCommand : jsstring) : jsstring :=
  trim
    (RegExp.replace Patterns.whiteSpaceRun (lit " ")
       (RegExp.replace Patterns.backslashNewline (lit " ")
          (RegExp.replace Patterns.continuation (lit " ") curlCommand))).

(** The [for] loops over the patterns: group 1 of the first pattern, in
    the order of the list, that matches with a non-empty group. *)
Fixpoint firstCapture (patterns : list RegExp.regexp) (s : jsstring)
  : option jsstring :=
  match patterns with
  | [] => None
  | pattern :: rest =>
    match RegExp.exec pattern s with
    | Some (Some group1) =>
      if truthy group1 then Some group1 else firstCapture rest s
    | _ => firstCapture rest s
    end
  end.

(** [parts.join(separator)] *)
Fixpoint join (separator : jsstring) (parts : list jsstring) : jsstring :=
  match parts with
  | [] => []
  | [p] => p
  | p :: rest => p ++ separator ++ join separator rest
  end.

Definition missingParts (authorization cookie : jsstring)
  : list jsstring :=
  (if truthy authorization then [] else [lit "Authorization"])
  ++ (if truthy cookie then [] else [lit "Cookie"]).

(** The message of the error [parseCurlCommand] throws. *)
Definition extractionMessage (missing : list jsstring) : jsstring :=
  lit "无法提取 " ++ join (lit " 和 ") missing ++ lit " 信息。" ++ [10; 10]%N
  ++ lit "提示：" ++ [10%N]
  ++ lit "1. 确保 curl 命令包含 -H 'authorization: Bearer xxx'" ++ [10%N]
  ++ lit "2. 确保包含 -b 'cookie...' 或 -H 'cookie: xxx'" ++ [10%N]
  ++ lit "3. 如果粘贴有问题，请选择" ++ [34%N] ++ lit "手动输入" ++ [34%N]
  ++ lit "方式".

(** [Throw message] is [throw new Error(message)]. *)
Definition parseCurlCommand (curlCommand : jsstring) : completion AuthInfo :=
  let normalizedCommand := normalizeCommand curlCommand in
  let authorization :=
    match firstCapture Patterns.authPatterns normalizedCommand with
    | Some group1 => lit "Bearer " ++ trim group1
    | None => []
    end in
  let cookie :=
    match firstCapture Patterns.cookiePatterns normalizedCommand with
    | Some group1 => trim group1
    | None => []
    end in
  if negb (truthy authorization) || negb (truthy cookie) then
    Throw (extractionMessage (missingParts authorization cookie))
  else
    Normal {| authorization := authorization; cookie := cookie |}.

(* ------------------------------------------------------------------ *)
(** * types/index.ts: the envelopes of the three endpoints *)

Module Buildings.

Record Building := {
  building_id : Z;
  building_name : jsstring
}.

Record Campus := {
  campus_id : Z;
  campus_name : jsstring;
  building_list : list Building
}.

Record BuildingsResponse := {
  code : Z;
  msg : jsstring;
  total : jsstring;
  list_ : list Campus
}.

End Buildings.

Module Slot.

Record TimeSlot := {
  id : Z;
  name : jsstring;
  class_begin : Z;
  class_end : Z;
  class_begin_time : jsstring;
  class_end_time : jsstring;
  list_ : list Course
}.

End Slot.

Module Schedule.

Record CoursesResponse := {
  code : Z;
  msg : jsstring;
  total : Z;
  list_ : list Slot.TimeSlot
}.

End Schedule.

(* ------------------------------------------------------------------ *)
(** * utils/http.ts: httpGet; api/buildings.ts; api/video.ts *)

Record JsError := {
  errorName : jsstring;
  message : jsstring
}.

(** [new Error(message)] *)
Definition newError (m : jsstring) : JsError :=
  {| errorName := lit "Error"; message := m |}.

(** What [fetch] and [response.json()] do for one request. *)
Inductive fetched (T : Type) :=
| Answered (data : T)          (* response.ok, and the body it carries *)
| Rejected (status : N)        (* a response that is not ok *)
| Failed (error : JsError).    (* fetch or response.json() threw *)

Arguments Answered {T} data.
Arguments Rejected {T} status.
Arguments Failed {T} error.

Inductive attempt (T : Type) :=
| Resolved (data : T)
| Threw (error : JsError).

Arguments Resolved {T} data.
Arguments Threw {T} error.

(** The result of [httpGet]: the error it logs is thrown again. *)
Definition httpGet {T : Type} (f : fetched T) : attempt T :=
  match f with
  | Answered data => Resolved data
  | Rejected status =>
    Threw (newError (lit "HTTP error! status: " ++ ofN status))
  | Failed error => Threw error
  end.

Definition BUILDINGS_API : jsstring :=
  lit "https://onlineroomse.pku.edu.cn/courseapi/v2/schedule/search-building?need_format=1&tenant=1".

Definition getBuildings (authInfo : AuthInfo) : Request :=
  httpGet_request BUILDINGS_API (Some authInfo).

Definition getVideoInfo (authInfo : AuthInfo) (courseId subId : jsstring)
  : Request :=
  httpGet_request
    (lit "https://yjapise.pku.edu.cn/courseapi/v2/schedule/search-live-course-list?all=1&course_id="
     ++ courseId ++ lit "&sub_id=" ++ subId
     ++ lit "&with_sub_data=1&with_room_data=1&show_all=1&show_delete=2")
    (Some authInfo).

(* ------------------------------------------------------------------ *)
(** * index.ts: handleApiError and main

    Prompts, spinners and notes are left out.  The trace keeps the
    requests, the writes to the credential file, the warnings and the
    messages of [p.cancel]; a run ends with [process.exit] or with the
    video address resolved (the download dialogue that follows is not
    modelled).  [CancelError error] is the [p.cancel] of the outer catch
    of [main]: its text is "发生错误: " followed by the message of the
    error, which the runtime words. *)

Inductive Endpoint := BuildingsApi | CoursesApi | VideoApi.

Inductive Event :=
| Fetch (endpoint : Endpoint) (request : Request)
| SaveAuth
| DeleteAuth
| Warn (text : jsstring)
| Cancel (text : jsstring)
| CancelError (error : jsstring).

Record World := {
  authFile : AuthFile;
  trace : list Event
}.

Inductive Outcome :=
| Exited (status : Z)
| VideoResolved (videoUrl : JSON.value) (kind : jsstring).

Definition Run := (World * Outcome)%type.

Definition log (e : Event) (w : World) : World :=
  {| authFile := authFile w; trace := trace w ++ [e] |}.

Definition exitWith (status : Z) (text : jsstring) (w : World) : Run :=
  (log (Cancel text) w, Exited status).

(** [error.message || String(error)] *)
Definition errorText (error : JsError) : jsstring :=
  if truthy (message error) then message error else errorName error.

Definition isAuthError (errorMsg : jsstring) : bool :=
  includes errorMsg (lit "401")
  || includes errorMsg (lit "403")
  || includes errorMsg (lit "Unauthorized")
  || includes errorMsg (lit "Forbidden").

Definition handleApiError (error : JsError) (w : World) : Run :=
  let errorMsg := errorText error in
  let w :=
    if isAuthError errorMsg then
      let w := log (Warn (lit "鉴权已过期，请重新输入")) w in
      {| authFile := deleteAuthInfo (authFile w);
         trace := trace w ++ [DeleteAuth] |}
    else w in
  exitWith 1 (lit "请求失败: " ++ errorMsg) w.

(** [s.split("-")] *)
Fixpoint splitDash (s piece : jsstring) : list jsstring :=
  match s with
  | [] => [rev piece]
  | c :: r =>
    if (c =? 45)%N then rev piece :: splitDash r []
    else splitDash r (c :: piece)
  end.

(** What the user answers; [None] is a cancelled prompt.
    [selectedBuilding] is the [buildingId] computed from the chosen
    option, [dateInput] the [Date] built from the text, [selectedCourse]
    the value of the chosen option. *)
Record Inputs := {
  selectedBuilding : option (option number);
  dateInput : option Date;
  searchTerm : option jsstring;
  selectedCourse : option jsstring
}.

Record Server := {
  buildings : fetched Buildings.BuildingsResponse;
  courses : fetched Schedule.CoursesResponse;
  video : fetched Video.VideoResponse
}.

Definition cancelled : jsstring := lit "操作已取消".

Section Main.

Variable toLowerCase : jsstring -> jsstring.

(** Step 8 and the display of the result. *)
Definition resolveVideo (authInfo : AuthInfo) (server : Server)
    (selected : jsstring) (w : World) : Run :=
  let parts := splitDash selected [] in
  let courseId := nth 0 parts [] in
  let subId := nth 1 parts [] in
  let w := log (Fetch VideoApi (getVideoInfo authInfo courseId subId)) w in
  match httpGet (video server) with
  | Threw error => handleApiError error w
  | Resolved videoResponse =>
    if negb (Video.code videoResponse =? 0)%Z then
      exitWith 1 (lit "错误: " ++ Video.msg videoResponse) w
    else
      match extractVideoUrl videoResponse with
      | Normal (Some (JSON.JString videoUrl)) =>
        (w, VideoResolved (JSON.JString videoUrl) (videoType videoUrl))
      | Normal (Some (JSON.JArray items)) =>
        (* Array.prototype.includes *)
        (w, VideoResolved (JSON.JArray items)
              (if existsb (fun v =>
                             match v with
                             | JSON.JString s => JS.eqb s (lit ".m3u8")
                             | _ => false
                             end) items
               then lit "m3u8" else lit "mp4"))
      | Normal (Some _) =>
        (* videoUrl.includes is not a function: the outer catch *)
        (log (CancelError TypeError) w, Exited 1)
      | Normal None =>
        exitWith 1 (lit "未找到视频地址，可能该课程没有回放") w
      | Throw error => (log (CancelError error) w, Exited 1)
      end
  end.

(** Steps 5 to 7. *)
Definition chooseCourse (authInfo : AuthInfo) (server : Server)
    (inputs : Inputs) (d : Date) (buildingId : option number)
    (w : World) : Run :=
  let w := log (Fetch CoursesApi (getCourses authInfo d buildingId)) w in
  match httpGet (courses server) with
  | Threw error => handleApiError error w
  | Resolved coursesResponse =>
    if negb (Schedule.code coursesResponse =? 0)%Z then
      exitWith 1 (lit "错误: " ++ Schedule.msg coursesResponse) w
    else
      let allCourses :=
        flat_map Slot.list_ (Schedule.list_ coursesResponse) in
      match allCourses with
      | [] => exitWith 0 (lit "没有找到符合条件的课程") w
      | _ :: _ =>
        match searchTerm inputs with
        | None => exitWith 0 cancelled w
        | Some term =>
          match filterCourses toLowerCase allCourses term with
          | [] =>
            exitWith 0 (lit "没有找到包含 " ++ [34%N] ++ term ++ [34%N]
                        ++ lit " 的课程") w
          | _ :: _ =>
            match selectedCourse inputs with
            | None => exitWith 0 cancelled w
            | Some selected => resolveVideo authInfo server selected w
            end
          end
        end
      end
  end.

(** [main] from step 2 on (index.ts 190-392): [authInfo] is what
    [getAuthInfo] returned in step 1, taken as the object of the two
    strings, and [file] is the credential file as step 1 left it.  Step 1
    itself is [getAuthInfo] and is not run here, so a trace of
    [main] starts at the first request. *)
Definition main (authInfo : AuthInfo) (server : Server) (inputs : Inputs)
    (file : AuthFile) : Run :=
  let w := {| authFile := file; trace := [] |} in
  let w := log (Fetch BuildingsApi (getBuildings authInfo)) w in
  match httpGet (buildings server) with
  | Threw error => handleApiError error w
  | Resolved buildingsResponse =>
    if negb (Buildings.code buildingsResponse =? 0)%Z then
      handleApiError (newError (Buildings.msg buildingsResponse)) w
    else
      let w := {| authFile := saveAuthInfo authInfo (authFile w);
                  trace := trace w ++ [SaveAuth] |} in
      match selectedBuilding inputs with
      | None => exitWith 0 cancelled w
      | Some buildingId =>
        match dateInput inputs with
        | None => exitWith 0 cancelled w
        | Some d => chooseCourse authInfo server inputs d buildingId w
        end
      end
  end.

End Main.

(* ------------------------------------------------------------------ *)
(** * utils/http.ts: sanitizeFilename and generateVideoFilename *)

(** [s.replace(/[...]/g, replacement)] for a pattern that is one character
    class: every unit of the class is a match of its own. *)
Fixpoint replaceClass (member : N -> bool) (replacement s : jsstring)
  : jsstring :=
  match s with
  | [] => []
  | c :: r =>
    (if member c then replacement else [c])
    ++ replaceClass member replacement r
  end.

(** The class of the first pattern: the units of less-than,
    greater-than, colon, double quote, slash, backslash, vertical bar,
    question mark and asterisk. *)
Definition illegalUnit (c : N) : bool :=
  existsb (N.eqb c) [60; 62; 58; 34; 47; 92; 124; 63; 42]%N.

Definition underscore : N := 95.

(** [/_+/g] *)
Definition underscoreRun : RegExp.regexp :=
  Patterns.sensitive
    [ {| RegExp.class := RegExp.Unit underscore; RegExp.quant := RegExp.Plus;
         RegExp.captures := false |} ].

Definition sanitizeFilename (filename : jsstring) : jsstring :=
  firstn 200
    (RegExp.replace underscoreRun (lit "_")
       (RegExp.replace Patterns.whiteSpaceRun (lit "_")
          (replaceClass illegalUnit (lit "_") filename))).

(** [s.split(separator)] for a separator of one unit. *)
Fixpoint splitUnit (separator : N) (s piece : jsstring) : list jsstring :=
  match s with
  | [] => [rev piece]
  | c :: r =>
    if (c =? separator)%N then rev piece :: splitUnit separator r []
    else splitUnit separator r (c :: piece)
  end.

(** [/\//g] *)
Definition slash : RegExp.regexp := Patterns.sensitive (RegExp.chars [47%N]).

Definition generateVideoFilename
    (date courseName teacherName extension : jsstring) : jsstring :=
  let dateStr :=
    RegExp.replace slash (lit "-") (nth 0 (splitUnit 32 date []) []) in
  let cleanCourseName := sanitizeFilename courseName in
  let cleanTeacherName := sanitizeFilename teacherName in
  dateStr ++ lit "_" ++ cleanCourseName ++ lit "_" ++ cleanTeacherName
  ++ lit "." ++ extension.

(* ------------------------------------------------------------------ *)
(** * index.ts: createProgressBar *)

Definition RangeError : jsstring := lit "RangeError".

(** [s.repeat(count)] for an integral count. *)
Definition repeatString (s : jsstring) (count : Z) : completion jsstring :=
  if (count <? 0)%Z then Throw RangeError
  else Normal (List.concat (repeat s (Z.to_nat count))).

(** The percentage is the result of a [Math.floor], an integer; [width]
    is 20 when the argument is left out, as at both calls.  On integers
    of that size the division and [Math.floor] are exact. *)
Definition createProgressBar (percentage : Z) (width : option Z)
  : completion jsstring :=
  let width := match width with Some w => w | None => 20%Z end in
  let filled := (width * percentage / 100)%Z in
  let empty := (width - filled)%Z in
  match repeatString [9608%N] filled with
  | Throw e => Throw e
  | Normal full =>
    match repeatString [9617%N] empty with
    | Throw e => Throw e
    | Normal rest =>
      Normal (lit "[" ++ full ++ rest ++ lit "] " ++ ofZ percentage
              ++ lit "%")
    end
  end.

(* ------------------------------------------------------------------ *)
(** * index.ts: the options of the two menus and their values *)

Record SelectOption := {
  value : jsstring;
  label : jsstring;
  hint : option jsstring
}.

(** The options of step 3: "all" first, then one option for each
    building of each campus.  The identifiers are integers that a
    template literal prints with all their digits, that is, below 10^21
    in magnitude. *)
Definition buildingOptions (buildingsResponse : Buildings.BuildingsResponse)
  : list SelectOption :=
  {| value := lit "all"; label := lit "全部教学楼"; hint := None |}
  :: flat_map
       (fun campus =>
          map (fun building =>
                 {| value := ofZ (Buildings.campus_id campus) ++ lit "-"
                             ++ ofZ (Buildings.building_id building);
                    label := Buildings.building_name building;
                    hint := Some (Buildings.campus_name campus) |})
              (Buildings.building_list campus))
       (Buildings.list_ buildingsResponse).

(** The value of a run of digits in the given radix. *)
Definition radixValue (radix : N) (ds : jsstring) : N :=
  fold_left
    (fun acc c =>
       match JSON.hexValue c with
       | Some d => (acc * radix + d)%N
       | None => acc
       end) ds 0%N.

Definition isRadixDigit (radix : N) (c : N) : bool :=
  match JSON.hexValue c with
  | Some d => (d <? radix)%N
  | None => false
  end.

Fixpoint spanRadix (radix : N) (s : jsstring) : jsstring :=
  match s with
  | c :: r => if isRadixDigit radix c then c :: spanRadix radix r else []
  | [] => []
  end.

(** [parseInt(text)] without a radix, by the steps of ECMA-262: leading
    white space is dropped, a sign is taken, then the prefix 0x or 0X,
    then the longest run of digits of the radix; the result is NaN when
    the run is empty.  The result is the integer the digits denote as
    long as a double holds it exactly, which every integer up to 2^53
    is; beyond, the runtime returns the nearest double. *)
Definition parseInt (text : jsstring) : number :=
  let s := trimStart text in
  let negative := startsWith s (lit "-") in
  let s :=
    if startsWith s (lit "-") || startsWith s (lit "+") then tl s else s in
  let hex := startsWith s (lit "0x") || startsWith s (lit "0X") in
  let radix := if hex then 16%N else 10%N in
  let s := if hex then skipn 2 s else s in
  match spanRadix radix s with
  | [] => NaN
  | ds =>
    let n := Z.of_N (radixValue radix ds) in
    Int (if negative then (- n)%Z else n)
  end.

(** [selectedBuilding === "all" ? undefined
      : parseInt(selectedBuilding.split("-")[1] || "0")] *)
Definition selectedBuildingId (selectedBuilding : jsstring)
  : option number :=
  if JS.eqb selectedBuilding (lit "all") then None
  else
    let piece := nth 1 (splitDash selectedBuilding []) [] in
    Some (parseInt (if truthy piece then piece else lit "0")).

Section CourseOptions.

(** [formatTimestamp] prints in the locale and the time zone of the
    runtime. *)
Variable formatTimestamp : jsstring -> jsstring.

(** The options of step 7. *)
Definition courseOptions (filteredCourses : list Course)
  : list SelectOption :=
  map (fun course =>
         let startTime := formatTimestamp (course_begin course) in
         let endTime := formatTimestamp (course_over course) in
         {| value := id course ++ lit "-" ++ sub_id course;
            label := title course ++ lit " - " ++ lecturer_name course;
            hint := Some (startTime ++ lit " ~ " ++ endTime ++ lit " | "
                          ++ room_name course) |})
      filteredCourses.

End CourseOptions.

(* ------------------------------------------------------------------ *)
(** * utils/http.ts: downloadFile *)

(** What [reader.read()] delivers, read after read: chunks of bytes, then
    the end of the stream or an error. *)
Inductive reads :=
| Done
| Chunk (value : list N) (next : reads)
| ReadFailed (error : JsError).

(** The response as [downloadFile] looks at it; [contentLength] is
    [response.headers.get("content-length")]. *)
Record Response := {
  ok : bool;
  status : N;
  contentLength : option jsstring;
  body : option reads
}.

Inductive fetchOutcome :=
| Responded (response : Response)
| FetchFailed (error : JsError).

(** What happens to the file writer and to the progress callback. *)
Inductive SinkEvent :=
| Written (value : list N)
| Progress (downloaded : Z) (total : number)
| Ended.

(** The request [downloadFile] hands to [fetch]. *)
Definition downloadFile_request (url : jsstring) (authInfo : option AuthInfo)
  : Request :=
  let headers := [ (lit "user-agent", userAgent) ] in
  let headers :=
    match authInfo with
    | Some a =>
      headers ++ [ (lit "authorization", authorization a);
                   (lit "cookie", cookie a) ]
    | None => headers
    end in
  {| req_method := lit "GET"; req_url := url; req_headers := headers |}.

(** [n > 0] *)
Definition number_positive (n : number) : bool :=
  match n with
  | Int z => (0 <? z)%Z
  | NaN => false
  end.

Definition before (events : list SinkEvent)
    (rest : list SinkEvent * attempt unit) : list SinkEvent * attempt unit :=
  (events ++ fst rest, snd rest).

(** The loop over the reads and the two ends of the writer.  The
    callback returns the error it throws, if any; the writes and the end
    of the writer are taken to succeed. *)
Fixpoint readAll (onProgress : option (Z -> number -> option JsError))
    (totalSize : number) (downloaded : Z) (rs : reads)
  : list SinkEvent * attempt unit :=
  match rs with
  | Done => ([Ended], Resolved tt)
  | ReadFailed error => ([Ended], Threw error)
  | Chunk value next =>
    let downloaded := (downloaded + Z.of_nat (List.length value))%Z in
    match onProgress with
    | Some callback =>
      if number_positive totalSize then
        match callback downloaded totalSize with
        | Some error =>
          ([Written value; Progress downloaded totalSize; Ended],
           Threw error)
        | None =>
          before [Written value; Progress downloaded totalSize]
            (readAll onProgress totalSize downloaded next)
        end
      else before [Written value]
             (readAll onProgress totalSize downloaded next)
    | None =>
      before [Written value] (readAll onProgress totalSize downloaded next)
    end
  end.

Definition downloadFile (outcome : fetchOutcome)
    (onProgress : option (Z -> number -> option JsError))
  : list SinkEvent * attempt unit :=
  match outcome with
  | FetchFailed error => ([], Threw error)
  | Responded response =>
    if negb (ok response) then
      ([], Threw (newError (lit "HTTP error! status: "
                            ++ ofN (status response))))
    else
      let header :=
        match contentLength response with
        | Some text => if truthy text then text else lit "0"
        | None => lit "0"
        end in
      let totalSize := parseInt header in
      match body response with
      | None => ([], Threw (newError (lit "响应体为空")))
      | Some rs => readAll onProgress totalSize 0 rs
      end
  end.

(* ------------------------------------------------------------------ *)
(** * index.ts: getAuthInfo *)

(** A text prompt with a [validate] option: the user submits one text
    after the other, and the prompt returns the first one on which
    [validate] returns nothing; [None] is a cancelled prompt. *)
Definition textPrompt (validate : jsstring -> option jsstring)
    (attempts : list jsstring) : option jsstring :=
  find (fun text =>
          match validate text with None => true | Some _ => false end)
       attempts.

(** The three [validate] callbacks. *)
Definition validateCurl (text : jsstring) : option jsstring :=
  if negb (truthy text) || (List.length text =? 0)%nat
  then Some (lit "请输入 curl 命令") else None.

Definition validateAuthorization (text : jsstring) : option jsstring :=
  if negb (truthy text) || negb (startsWith text (lit "Bearer "))
  then Some (lit "请输入完整的 Bearer token") else None.

Definition validateCookie (text : jsstring) : option jsstring :=
  if negb (truthy text) || (List.length text =? 0)%nat
  then Some (lit "请输入 Cookie") else None.

Inductive InputMethod := CurlMethod | ManualMethod.

(** What the user answers to the prompts of [getAuthInfo]; [None] is a
    cancelled prompt. *)
Record AuthAnswers := {
  useExisting : option bool;
  inputMethod : option InputMethod;
  curlCommand : list jsstring;
  authorizationText : list jsstring;
  cookieText : list jsstring
}.

Inductive AuthOutcome :=
| AuthExited (status : Z) (text : jsstring)
| Returned (authInfo : JSON.value).

(** The part of [getAuthInfo] that asks for a new credential. *)
Definition requestAuthInfo (answers : AuthAnswers) : AuthOutcome :=
  match inputMethod answers with
  | None => AuthExited 0 cancelled
  | Some CurlMethod =>
    match textPrompt validateCurl (curlCommand answers) with
    | None => AuthExited 0 cancelled
    | Some command =>
      match parseCurlCommand command with
      | Throw message => AuthExited 1 (lit "解析失败: " ++ message)
      | Normal authInfo =>
        if negb (validateAuthInfo authInfo) then
          AuthExited 1 (lit "解析失败: " ++ lit "鉴权信息格式不正确")
        else Returned (authInfoObject authInfo)
      end
    end
  | Some ManualMethod =>
    match textPrompt validateAuthorization (authorizationText answers) with
    | None => AuthExited 0 cancelled
    | Some authorization =>
      match textPrompt validateCookie (cookieText answers) with
      | None => AuthExited 0 cancelled
      | Some cookie =>
        Returned (authInfoObject {| authorization := authorization;
                                    cookie := cookie |})
      end
    end
  end.

Definition getAuthInfo (answers : AuthAnswers) (file : AuthFile)
  : AuthFile * AuthOutcome :=
  let (savedAuth, file) := loadAuthInfo file in
  match savedAuth with
  | Some saved =>
    match useExisting answers with
    | None => (file, AuthExited 0 cancelled)
    | Some true => (file, Returned saved)
    | Some false => (file, requestAuthInfo answers)
    end
  | None => (file, requestAuthInfo answers)
  end.
(* ------------------------------------------------------------------ *)
(** * Vocabulary of the specification and sample data *)

(** ** Video addresses *)

Definition m3u8_query_url : jsstring := lit "https://x/y.m3u8?t=1".
Definition m3u8_dir_url : jsstring := lit "https://x/a.m3u8/y.mp4".

(** ** Courses *)

Definition courseTitled (t : jsstring) : Course :=
  {| id := lit "1"; title := t; realname := lit "Li";
     course_begin := lit "0"; course_over := lit "0";
     room_name := lit "R101"; sub_id := lit "2"; sub_title := lit "L1";
     sub_status := lit "6"; course_student_type := lit "1";
     lecturer_name := lit "Li" |}.

Definition threeCourses : list Course :=
  [ courseTitled (lit "Algebra"); courseTitled (lit "Biology");
    courseTitled (lit "Advanced Algebra") ].

(** ** The schedule request *)

(** The ten characters YYYY-MM-DD for a year, a month (1..12) and a day. *)
Definition isoDate (year monthNo day : N) : jsstring :=
  [ digitUnit (year / 1000 mod 10); digitUnit (year / 100 mod 10);
    digitUnit (year / 10 mod 10); digitUnit (year mod 10); 45%N;
    digitUnit (monthNo / 10 mod 10); digitUnit (monthNo mod 10); 45%N;
    digitUnit (day / 10 mod 10); digitUnit (day mod 10) ].

Definition buildingFilter (buildingId : option number) : jsstring :=
  match buildingId with
  | Some (Int z) =>
    if (z =? 0)%Z then [] else lit "&building_in=" ++ ofZ z
  | Some NaN => []
  | None => []
  end.

(** An integer that is a double and is printed with all its digits: at
    most 2^53 in magnitude. *)
Definition safeInteger (z : Z) : bool := (Z.abs z <=? 2 ^ 53)%Z.

Definition safeBuildingId (buildingId : option number) : bool :=
  match buildingId with
  | Some (Int z) => safeInteger z
  | _ => true
  end.

Definition someAuth : AuthInfo :=
  {| authorization := lit "Bearer abc"; cookie := lit "k=v" |}.

(** ** Video responses *)

Definition save_playback_key : jsstring := lit "save_playback".
Definition contents_key : jsstring := lit "contents".

(** The states of a response the specification lists as "no recording". *)
Inductive NoRecording (r : Video.VideoResponse) : Prop :=
| NoList :
    Video.list_ r = None -> NoRecording r
| EmptyList :
    Video.list_ r = Some [] -> NoRecording r
| AbsentSubContent first rest :
    Video.list_ r = Some (first :: rest) ->
    Video.sub_content first = None -> NoRecording r
| EmptySubContent first rest :
    Video.list_ r = Some (first :: rest) ->
    Video.sub_content first = Some [] -> NoRecording r
| MalformedSubContent first rest s :
    Video.list_ r = Some (first :: rest) ->
    Video.sub_content first = Some s ->
    JSON.parse s = None -> NoRecording r
| NoSavePlayback first rest s ms :
    Video.list_ r = Some (first :: rest) ->
    Video.sub_content first = Some s ->
    JSON.parse s = Some (JSON.JObject ms) ->
    JSON.getMember save_playback_key ms = None -> NoRecording r
| AbsentContents first rest s ms sp :
    Video.list_ r = Some (first :: rest) ->
    Video.sub_content first = Some s ->
    JSON.parse s = Some (JSON.JObject ms) ->
    JSON.getMember save_playback_key ms = Some (JSON.JObject sp) ->
    JSON.getMember contents_key sp = None -> NoRecording r
| EmptyContents first rest s ms sp :
    Video.list_ r = Some (first :: rest) ->
    Video.sub_content first = Some s ->
    JSON.parse s = Some (JSON.JObject ms) ->
    JSON.getMember save_playback_key ms = Some (JSON.JObject sp) ->
    JSON.getMember contents_key sp = Some (JSON.JString []) -> NoRecording r.


(** The state in which the first entry carries the address [url]. *)
Inductive Recording (r : Video.VideoResponse) (url : jsstring) : Prop :=
| HasContents first rest s ms sp :
    Video.list_ r = Some (first :: rest) ->
    Video.sub_content first = Some s ->
    JSON.parse s = Some (JSON.JObject ms) ->
    JSON.getMember save_playback_key ms = Some (JSON.JObject sp) ->
    JSON.getMember contents_key sp = Some (JSON.JString url) ->
    url <> [] -> Recording r url.

(** A JSON text written with apostrophes for its double quotes. *)
Definition jsonLit (s : string) : jsstring :=
  map (fun c => if (c =? 39)%N then 34%N else c) (lit s).

Definition entryWith (sub : option jsstring) : Video.VideoCourse :=
  {| Video.id := lit "7"; Video.title := lit "Algebra";
     Video.realname := lit "Li"; Video.sub_id := lit "9";
     Video.sub_title := lit "L1"; Video.sub_content := sub;
     Video.course_begin := lit "1758850200";
     Video.course_over := lit "1758855600";
     Video.room_name := lit "R101"; Video.lecturer_name := lit "Li";
     Video.sub_duration := lit "5400" |}.

Definition responseWith (entries : list Video.VideoCourse)
  : Video.VideoResponse :=
  {| Video.code := 0; Video.msg := lit "ok"; Video.total := lit "1";
     Video.list_ := Some entries |}.

Definition mp4Content : jsstring :=
  jsonLit "{'save_playback':{'contents':'https://x/y.mp4'}}".

Definition m3u8Content : jsstring :=
  jsonLit "{'save_playback':{'contents':'https://x/y.m3u8'}}".

(** ** Answers of the endpoints and of the user *)

Definition oneBuilding : Buildings.BuildingsResponse :=
  {| Buildings.code := 0; Buildings.msg := lit "ok";
     Buildings.total := lit "1";
     Buildings.list_ :=
       [ {| Buildings.campus_id := 1; Buildings.campus_name := lit "Main";
            Buildings.building_list :=
              [ {| Buildings.building_id := 12;
                   Buildings.building_name := lit "Hall" |} ] |} ] |}.

Definition oneLecture : Schedule.CoursesResponse :=
  {| Schedule.code := 0; Schedule.msg := lit "ok"; Schedule.total := 1;
     Schedule.list_ :=
       [ {| Slot.id := 1; Slot.name := lit "1"; Slot.class_begin := 1;
            Slot.class_end := 2; Slot.class_begin_time := lit "08:00";
            Slot.class_end_time := lit "09:50";
            Slot.list_ := [courseTitled (lit "Algebra")] |} ] |}.

(** A schedule answer that arrives with transport status 200 and reports
    an authorization failure in its envelope. *)
Definition scheduleUnauthorized : Schedule.CoursesResponse :=
  {| Schedule.code := 401; Schedule.msg := lit "Unauthorized";
     Schedule.total := 0; Schedule.list_ := [] |}.

Definition detailUnauthorized : Video.VideoResponse :=
  {| Video.code := 403; Video.msg := lit "Forbidden";
     Video.total := lit "0"; Video.list_ := Some [] |}.

Definition allAnswers : Inputs :=
  {| selectedBuilding := Some (Some (Int 12));
     dateInput := Some (LocalDate 2025 8 26);
     searchTerm := Some (lit "algebra");
     selectedCourse := Some (lit "1-2") |}.

Definition isFetch (endpoint : Endpoint) (e : Event) : bool :=
  match e, endpoint with
  | Fetch BuildingsApi _, BuildingsApi => true
  | Fetch CoursesApi _, CoursesApi => true
  | Fetch VideoApi _, VideoApi => true
  | _, _ => false
  end.

Definition isDeleteAuth (e : Event) : bool :=
  match e with DeleteAuth => true | _ => false end.

(** ** Extraction of the credential *)

(** Whether the extraction locates each part of the credential: some
    pattern of the list matches the normalized description, and what is
    taken from the match is not empty. *)
Definition bearerFound (curlCommand : jsstring) : bool :=
  match firstCapture Patterns.authPatterns (normalizeCommand curlCommand) with
  | Some _ => true
  | None => false
  end.

Definition cookieFound (curlCommand : jsstring) : bool :=
  match firstCapture Patterns.cookiePatterns
          (normalizeCommand curlCommand) with
  | Some group1 => truthy (trim group1)
  | None => false
  end.

Definition missingNames (curlCommand : jsstring) : list jsstring :=
  (if bearerFound curlCommand then [] else [lit "Authorization"])
  ++ (if cookieFound curlCommand then [] else [lit "Cookie"]).

(** The first line of the error message. *)
Definition firstLine (missing : list jsstring) : jsstring :=
  lit "无法提取 " ++ join (lit " 和 ") missing ++ lit " 信息。".

Definition bearerOnlyCommand : jsstring :=
  lit "curl 'https://x/y' -H 'authorization: Bearer abc.def-ghi'".

Definition bareCommand : jsstring := lit "curl 'https://x/y'".

Definition bothCommand : jsstring :=
  lit "curl 'https://x/y' -H 'authorization: Bearer abc.def-ghi' -b 'a=1; b=2'".

(* ------------------------------------------------------------------ *)
(** * Auxiliary functions for reasoning about the matcher *)

(** [s] without a prefix that equals [p] up to [canonicalize]. *)
Fixpoint stripLike (ic : bool) (p s : jsstring) {struct p} : option jsstring :=
  match p, s with
  | [], _ => Some s
  | _ :: _, [] => None
  | x :: p', y :: s' =>
    if (RegExp.canonicalize ic x =? RegExp.canonicalize ic y)%N
    then stripLike ic p' s' else None
  end.

(** The longest prefix of units satisfying [f], and the rest. *)
Fixpoint span (f : N -> bool) (s : jsstring) : jsstring * jsstring :=
  match s with
  | c :: r =>
    if f c then let (a, b) := span f r in (c :: a, b) else ([], s)
  | [] => ([], [])
  end.

(** [s] is empty or starts with a unit that is not white space. *)
Definition startsSolid (s : jsstring) : bool :=
  match s with
  | [] => true
  | c :: _ => negb (isWhiteSpace c)
  end.

Definition notBackslash (c : N) : bool := negb (c =? 92)%N.

(* ------------------------------------------------------------------ *)
(** * Well-formed request descriptions

    A description is a sequence of words and quoted arguments, separated
    by white space or by line continuations.  A quoted argument may hold
    the other quote, as in a header value written by a browser. *)

Definition isQuote (c : N) : bool := ((c =? 39) || (c =? 34))%N.

(** A unit of a word: no white space, no quote, no backslash. *)
Definition plainUnit (c : N) : bool :=
  negb (isWhiteSpace c) && negb (isQuote c) && notBackslash c.

(** A unit of the text inside the quotes [q]: no white space, no
    backslash, and not [q] itself; the other quote may occur. *)
Definition textUnit (q c : N) : bool :=
  negb (isWhiteSpace c) && negb (c =? q)%N && notBackslash c.

(** The text inside the quotes [q]: text units, and single blanks between
    them. *)
Fixpoint spacedText (q : N) (t : jsstring) : bool :=
  match t with
  | [] => true
  | c :: r =>
    textUnit q c &&
    match r with
    | [] => true
    | d :: r' =>
      if (d =? 32)%N then
        match r' with
        | [] => false
        | _ :: _ => spacedText q r'
        end
      else spacedText q r
    end
  end.

(** The flags by which the patterns find a credential, each with whether
    it is matched without regard to case. *)
Definition credentialFlags : list (bool * jsstring) :=
  [ (true, lit "-H"); (true, lit "--header");
    (false, lit "-b"); (false, lit "--cookie") ].

(** [s] starts with a blank and a quote. *)
Definition quoteAhead (s : jsstring) : bool :=
  match s with
  | b :: c :: _ => (b =? 32)%N && isQuote c
  | _ => false
  end.

(** [t] starts with [flag], up to case when [ic] is set, a blank and a
    quote. *)
Definition flagAhead (ic : bool) (flag t : jsstring) : bool :=
  match stripLike ic flag t with
  | Some s => quoteAhead s
  | None => false
  end.

(** Nowhere in [t] does [flag], a blank and a quote start. *)
Fixpoint flagFree (ic : bool) (flag t : jsstring) : bool :=
  negb (flagAhead ic flag t)
  && match t with
     | [] => true
     | _ :: r => flagFree ic flag r
     end.

(** A text that quotes no credential flag with a quote after it. *)
Definition quietText (t : jsstring) : bool :=
  forallb (fun f => flagFree (fst f) (snd f) t) credentialFlags.

Inductive token :=
| Word (text : jsstring)
| Quoted (q : N) (text : jsstring).

Definition tokenText (t : token) : jsstring :=
  match t with
  | Word w => w
  | Quoted q text => q :: text ++ [q]
  end.

Definition wfToken (t : token) : bool :=
  match t with
  | Word w => truthy w && forallb plainUnit w
  | Quoted q text => isQuote q && (spacedText q text && quietText text)
  end.

Inductive separator :=
| Blank (w : jsstring)
| Wrapped (w0 w1 w2 : jsstring).

(** [Wrapped w0 w1 w2] is a backslash at the end of a line: white space,
    the backslash, white space up to the line feed, and the indentation
    of the next line. *)
Definition separatorText (s : separator) : jsstring :=
  match s with
  | Blank w => w
  | Wrapped w0 w1 w2 => w0 ++ 92%N :: (w1 ++ 10%N :: w2)
  end.

Definition wfSeparator (s : separator) : bool :=
  match s with
  | Blank w => truthy w && forallb isWhiteSpace w
  | Wrapped w0 w1 w2 =>
    forallb isWhiteSpace w0 && forallb isWhiteSpace w1
    && forallb isWhiteSpace w2
  end.

Record description := {
  lead : jsstring;
  firstToken : token;
  others : list (separator * token);
  trail : jsstring
}.

Definition wfDescription (d : description) : bool :=
  forallb isWhiteSpace (lead d) && wfToken (firstToken d)
  && forallb (fun st => wfSeparator (fst st) && wfToken (snd st)) (others d)
  && forallb isWhiteSpace (trail d).

Definition othersText (items : list (separator * token)) : jsstring :=
  flat_map (fun st => separatorText (fst st) ++ tokenText (snd st)) items.

Definition descriptionText (d : description) : jsstring :=
  lead d ++ tokenText (firstToken d) ++ othersText (others d) ++ trail d.

Definition tokens (d : description) : list token :=
  firstToken d :: map snd (others d).

(** The tokens of a description, one blank between them. *)
Definition joinedTail (ts : list token) : jsstring :=
  flat_map (fun t => 32%N :: tokenText t) ts.

Definition joined (ts : list token) : jsstring :=
  match ts with
  | [] => []
  | t :: r => tokenText t ++ joinedTail r
  end.

(** A separator after the line continuations were replaced. *)
Definition separatorBlank (s : separator) : jsstring :=
  match s with
  | Blank w => w
  | Wrapped w0 _ _ => w0 ++ [32%N]
  end.

Definition othersBlank (items : list (separator * token)) : jsstring :=
  flat_map (fun st => separatorBlank (fst st) ++ tokenText (snd st)) items.

Definition afterContinuations (d : description) : jsstring :=
  lead d ++ tokenText (firstToken d) ++ othersBlank (others d) ++ trail d.

Definition blankIf (w : jsstring) : jsstring :=
  if truthy w then [32%N] else [].

(** The third replacement of the normalization. *)
Definition collapse (s : jsstring) : jsstring :=
  RegExp.replaceFrom Patterns.whiteSpaceRun (lit " ") O s.

(** A text whose last unit is not white space. *)
Definition endsSolid (s : jsstring) : Prop :=
  exists c r, rev s = c :: r /\ isWhiteSpace c = false.

(* ------------------------------------------------------------------ *)
(** * The shape of the credential patterns

    Every pattern of [authPatterns] and [cookiePatterns] is a flag, white
    space, an opening quote, a header name (none for a cookie flag) and a
    remainder that holds the group and the closing quote. *)

Record shape := {
  shapeCase : bool;
  shapeFlag : jsstring;
  shapeQuote : N;
  shapeName : jsstring;
  shapeRest : list RegExp.term
}.

Definition shapeRegexp (p : shape) : RegExp.regexp :=
  {| RegExp.terms :=
       RegExp.chars (shapeFlag p) ++ RegExp.spaces RegExp.Plus
       ++ RegExp.chars [shapeQuote p] ++ RegExp.chars (shapeName p)
       ++ shapeRest p;
     RegExp.ignoreCase := shapeCase p |}.

(** A pattern unit that matches neither white space nor a quote. *)
Definition solidUnit (ic : bool) (f : N) : bool :=
  negb (isWhiteSpace (RegExp.canonicalize ic f))
  && negb (isQuote (RegExp.canonicalize ic f)).

Definition wfShape (p : shape) : bool :=
  truthy (shapeFlag p) && forallb (solidUnit (shapeCase p)) (shapeFlag p)
  && isQuote (shapeQuote p)
  && forallb (solidUnit (shapeCase p)) (shapeName p).

(** The input after the flag, the white space and the opening quote. *)
Definition matchOpening (ic : bool) (flag : jsstring) (q : N) (s : jsstring)
  : option jsstring :=
  match stripLike ic flag s with
  | None => None
  | Some s1 =>
    match span isWhiteSpace s1 with
    | ([], _) => None
    | (_ :: _, s2) => stripLike ic [q] s2
    end
  end.

(** [x] equals [p] up to [canonicalize]. *)
Definition wholeLike (ic : bool) (p x : jsstring) : bool :=
  match stripLike ic p x with
  | Some [] => true
  | _ => false
  end.

Definition startsLike (ic : bool) (p s : jsstring) : bool :=
  match stripLike ic p s with
  | Some _ => true
  | None => false
  end.

(** Some non-empty suffix of [w] equals [p] up to [canonicalize]. *)
Fixpoint endsLike (ic : bool) (p w : jsstring) : bool :=
  match w with
  | [] => false
  | _ :: r => wholeLike ic p w || endsLike ic p r
  end.

(** Text in which every blank is followed by a text unit, and every other
    unit is a text unit. *)
Fixpoint looseText (q : N) (b : jsstring) : bool :=
  match b with
  | [] => true
  | c :: r =>
    (if (c =? 32)%N then
       match r with
       | e :: _ => textUnit q e
       | [] => false
       end
     else textUnit q c)
    && looseText q r
  end.

(** A flagged argument: a word and the quoted text that follows it. *)
Definition flaggedArgument := (jsstring * N * jsstring)%type.

Fixpoint flagged (ts : list token) : list flaggedArgument :=
  match ts with
  | [] => []
  | t :: r =>
    match t, r with
    | Word w, Quoted q text :: _ => (w, q, text) :: flagged r
    | _, _ => flagged r
    end
  end.

(** Whether a pattern can match at a flagged argument: the word ends with
    the flag of the pattern, the quote is the pattern's, and the quoted
    text starts with the header name of the pattern. *)
Definition suspect (p : shape) (a : flaggedArgument) : bool :=
  let '(w, q, text) := a in
  endsLike (shapeCase p) (shapeFlag p) w
  && (shapeQuote p =? q)%N
  && startsLike (shapeCase p) (shapeName p) text.

(* ------------------------------------------------------------------ *)
(** * The credential arguments of a description *)

Inductive headerFlag := ShortHeader | LongHeader.

Definition headerFlagText (f : headerFlag) : jsstring :=
  match f with
  | ShortHeader => lit "-H"
  | LongHeader => lit "--header"
  end.

Inductive quoteStyle := SingleQuotes | DoubleQuotes.

Definition quoteUnit (q : quoteStyle) : N :=
  match q with
  | SingleQuotes => Patterns.apostrophe
  | DoubleQuotes => Patterns.doubleQuote
  end.

(** The cookie is given by [-b] or [--cookie], or by a cookie header. *)
Inductive cookieStyle :=
| CookieFlag (long : bool)
| CookieHeader (f : headerFlag) (capital : bool).

Definition cookieFlagText (long : bool) : jsstring :=
  if long then lit "--cookie" else lit "-b".

(** [-H 'authorization: Bearer <token>'], the header name in lower case
    or capitalized. *)
Definition bearerArgument (f : headerFlag) (q : quoteStyle) (capital : bool)
    (token : jsstring) : flaggedArgument :=
  (headerFlagText f, quoteUnit q,
   (if capital then lit "Authorization: Bearer "
    else lit "authorization: Bearer ") ++ token).

Definition cookieArgument (s : cookieStyle) (q : quoteStyle)
    (value : jsstring) : flaggedArgument :=
  match s with
  | CookieFlag long => (cookieFlagText long, quoteUnit q, value)
  | CookieHeader f capital =>
    (headerFlagText f, quoteUnit q,
     (if capital then lit "Cookie: " else lit "cookie: ") ++ value)
  end.

Definition bearerShape (f : headerFlag) (q : quoteStyle) : shape :=
  {| shapeCase := true;
     shapeFlag := headerFlagText f;
     shapeQuote := quoteUnit q;
     shapeName := lit "authorization:";
     shapeRest :=
       RegExp.spaces RegExp.Star ++ RegExp.chars (lit "Bearer")
       ++ RegExp.spaces RegExp.Plus ++ RegExp.groupNot (quoteUnit q)
       ++ RegExp.chars [quoteUnit q] |}.

Definition cookieFlagShape (long : bool) (q : quoteStyle) : shape :=
  {| shapeCase := false;
     shapeFlag := cookieFlagText long;
     shapeQuote := quoteUnit q;
     shapeName := [];
     shapeRest :=
       RegExp.groupNot (quoteUnit q) ++ RegExp.chars [quoteUnit q] |}.

Definition cookieHeaderShape (f : headerFlag) (q : quoteStyle) : shape :=
  {| shapeCase := true;
     shapeFlag := headerFlagText f;
     shapeQuote := quoteUnit q;
     shapeName := lit "cookie:";
     shapeRest :=
       RegExp.spaces RegExp.Star ++ RegExp.groupNot (quoteUnit q)
       ++ RegExp.chars [quoteUnit q] |}.

Definition authShapes : list shape :=
  [ bearerShape ShortHeader SingleQuotes;
    bearerShape ShortHeader DoubleQuotes;
    bearerShape LongHeader SingleQuotes;
    bearerShape LongHeader DoubleQuotes ].

Definition cookieShapes : list shape :=
  [ cookieFlagShape false SingleQuotes;
    cookieFlagShape false DoubleQuotes;
    cookieFlagShape true SingleQuotes;
    cookieFlagShape true DoubleQuotes;
    cookieHeaderShape ShortHeader SingleQuotes;
    cookieHeaderShape ShortHeader DoubleQuotes;
    cookieHeaderShape LongHeader SingleQuotes;
    cookieHeaderShape LongHeader DoubleQuotes ].

Definition cookieShape (s : cookieStyle) (q : quoteStyle) : shape :=
  match s with
  | CookieFlag long => cookieFlagShape long q
  | CookieHeader f _ => cookieHeaderShape f q
  end.

(** A flagged argument at which some pattern of the two lists can
    match. *)
Definition credentialLike (a : flaggedArgument) : bool :=
  existsb (fun p => suspect p a) (authShapes ++ cookieShapes).

Definition credentialArguments (ts : list token) : list flaggedArgument :=
  filter credentialLike (flagged ts).

(** A header whose value holds double quotes, as a browser writes the
    brands of the client. *)
Definition brandHeader : jsstring :=
  lit "sec-ch-ua: " ++ [34%N] ++ lit "Chromium" ++ [34%N] ++ lit ";v="
  ++ [34%N] ++ lit "130" ++ [34%N] ++ lit ", " ++ [34%N]
  ++ lit "Not?A_Brand" ++ [34%N] ++ lit ";v=" ++ [34%N] ++ lit "99"
  ++ [34%N].

(** A description pasted over several lines: the address, another header,
    the bearer header in double quotes with the long flag, and the cookie
    by [-b]. *)
Definition sampleDescription : description :=
  {| lead := [];
     firstToken := Word (lit "curl");
     others :=
       [ (Blank (lit " "), Quoted 39 (lit "https://x/course-live/list?a=1"));
         (Wrapped (lit " ") [] (lit "  "), Word (lit "-H"));
         (Blank (lit " "), Quoted 39 (lit "accept: application/json, */*"));
         (Wrapped (lit " ") [13%N] (lit "  "), Word (lit "--header"));
         (Blank (lit "  "),
          Quoted 34 (lit "Authorization: Bearer abc.def-ghi"));
         (Wrapped [] [] [9%N], Word (lit "-b"));
         (Blank (lit " "), Quoted 39 (lit "a=1; b=2")) ];
     trail := [10%N] |}.

(** The same with a header that holds double quotes in its value. *)
Definition browserDescription : description :=
  {| lead := [];
     firstToken := Word (lit "curl");
     others :=
       [ (Blank (lit " "), Quoted 39 (lit "https://x/course-live/list?a=1"));
         (Wrapped (lit " ") [] (lit "  "), Word (lit "-H"));
         (Blank (lit " "), Quoted 39 (lit "accept: application/json, */*"));
         (Wrapped (lit " ") [] (lit "  "), Word (lit "-H"));
         (Blank (lit " "), Quoted 39 brandHeader);
         (Wrapped (lit " ") [13%N] (lit "  "), Word (lit "--header"));
         (Blank (lit "  "),
          Quoted 34 (lit "Authorization: Bearer abc.def-ghi"));
         (Wrapped [] [] [9%N], Word (lit "-b"));
         (Blank (lit " "), Quoted 39 (lit "a=1; b=2")) ];
     trail := [10%N] |}.


(** ** Descriptions on which the extraction does not return what was
    written *)

(** The cookie value holds two blanks in a row. *)
Definition doubleBlankCommand : jsstring :=
  lit "curl 'https://x/y' -H 'authorization: Bearer abc' -b 'a=1;  b=2'".

(** A cookie flag with a blank value, then a cookie header. *)
Definition blankCookieCommand : jsstring :=
  lit "curl 'https://x/y' -H 'authorization: Bearer abc' -b ' ' -H 'cookie: k=v'".

(** A header whose value quotes a cookie flag, then the cookie header. *)
Definition quotedFlagCommand : jsstring :=
  lit "curl 'https://x/y' -H 'x-note: -b " ++ [34%N] ++ lit "k=v" ++ [34%N]
  ++ lit "' -H 'authorization: Bearer abc' -H 'cookie: real=1'".

(* ------------------------------------------------------------------ *)
(** * Vocabulary of the further properties *)

(** ** File names *)

(** Every maximal run of units of a class replaced by [replacement];
    [inRun] tells that the unit before belonged to the class. *)
Fixpoint squeeze (f : N -> bool) (replacement : jsstring) (inRun : bool)
    (s : jsstring) : jsstring :=
  match s with
  | [] => []
  | c :: r =>
    if f c then
      (if inRun then [] else replacement) ++ squeeze f replacement true r
    else c :: squeeze f replacement false r
  end.

(** The pattern [/x+/g] for a class [x]. *)
Definition runOf (cl : RegExp.charClass) : RegExp.regexp :=
  Patterns.sensitive
    [ {| RegExp.class := cl; RegExp.quant := RegExp.Plus;
         RegExp.captures := false |} ].

(** A unit that [sanitizeFilename] keeps. *)
Definition safeUnit (c : N) : bool :=
  negb (illegalUnit c) && negb (isWhiteSpace c).

(** A name that needs no cleaning: safe units only, no two underscores
    in a row, at most 200 units. *)
Definition cleanName (s : jsstring) : bool :=
  forallb safeUnit s && negb (includes s (lit "__"))
  && (List.length s <=? 200)%nat.

Definition notSlash (c : N) : bool := negb (c =? 47)%N.

(** ** The menus *)

Definition notDash (c : N) : bool := negb (c =? 45)%N.

(** The requests for the lecture detail that a trace holds. *)
Fixpoint videoRequests (events : list Event) : list Request :=
  match events with
  | [] => []
  | Fetch VideoApi request :: r => request :: videoRequests r
  | _ :: r => videoRequests r
  end.

(** The building and the campus of [oneBuilding]. *)
Definition hall : Buildings.Building :=
  {| Buildings.building_id := 12; Buildings.building_name := lit "Hall" |}.

Definition mainCampus : Buildings.Campus :=
  {| Buildings.campus_id := 1; Buildings.campus_name := lit "Main";
     Buildings.building_list := [hall] |}.

(** ** Extracted credentials *)

(** White space, if any, is the plain space U+0020: no tab, no line
    break. *)
Definition plainSpaced (s : jsstring) : bool :=
  forallb (fun c => negb (isWhiteSpace c) || (c =? 32)%N) s.

(** The capture of a match is the initial one or a piece of the input. *)
Definition captureWithin (initial : option jsstring) (s : jsstring)
    (m : RegExp.matchState) : Prop :=
  fst m = initial \/ exists g a b, fst m = Some g /\ s = a ++ g ++ b.

(** ** Runs *)

(** The endpoints a trace asks, in the order of the requests. *)
Fixpoint endpoints (events : list Event) : list Endpoint :=
  match events with
  | [] => []
  | Fetch endpoint _ :: r => endpoint :: endpoints r
  | _ :: r => endpoints r
  end.

(** A server whose schedule request is rejected with status 401. *)
Definition scheduleRejected : Server :=
  {| buildings := Answered oneBuilding;
     courses := Rejected 401;
     video := Answered (responseWith [entryWith (Some mp4Content)]) |}.

(** ** Integers in decimal *)

(** One step of reading a decimal numeral. *)
Definition decimalStep (acc c : N) : N :=
  match JSON.hexValue c with
  | Some d => (acc * 10 + d)%N
  | None => acc
  end.


(** ** Downloads *)

(** The chunks a stream delivers before it ends or fails. *)
Fixpoint chunksOf (rs : reads) : list (list N) :=
  match rs with
  | Chunk value next => value :: chunksOf next
  | _ => []
  end.

(** How a stream ends. *)
Fixpoint endOf (rs : reads) : attempt unit :=
  match rs with
  | Done => Resolved tt
  | Chunk _ next => endOf next
  | ReadFailed error => Threw error
  end.

(** The chunks handed to the writer, in order. *)
Fixpoint writes (events : list SinkEvent) : list (list N) :=
  match events with
  | [] => []
  | Written value :: r => value :: writes r
  | _ :: r => writes r
  end.

(** The number of bytes handed to the writer. *)
Definition writtenBytes (events : list SinkEvent) : Z :=
  Z.of_nat (List.length (List.concat (writes events))).

(** The content length [downloadFile] reads from the response. *)
Definition declaredLength (response : Response) : number :=
  parseInt
    (match contentLength response with
     | Some text => if truthy text then text else lit "0"
     | None => lit "0"
     end).

(** A callback that never throws. *)
Definition quiet (onProgress : option (Z -> number -> option JsError))
  : Prop :=
  match onProgress with
  | Some callback => forall downloaded total, callback downloaded total = None
  | None => True
  end.

Definition threeChunks : reads :=
  Chunk [1; 2; 3]%N (Chunk [4; 5]%N (Chunk [6]%N Done)).

Definition okResponse (length : option jsstring) (rs : reads) : Response :=
  {| ok := true; status := 200; contentLength := length; body := Some rs |}.

(** ** Asking for the credential *)

(** The user pastes a command at the second attempt. *)
Definition pasteAnswers : AuthAnswers :=
  {| useExisting := Some false;
     inputMethod := Some CurlMethod;
     curlCommand := [ []; bothCommand ];
     authorizationText := [];
     cookieText := [] |}.

(* ================================================================== *)
(** * Properties *)

(** ** Strings *)

Lemma startsWith_app (p r : jsstring) : startsWith (p ++ r) p = true.
Proof.
  induction p as [|x p IH]; simpl; [reflexivity|].
  now rewrite N.eqb_refl, IH.
Qed.

Lemma startsWith_spec (s p : jsstring) :
  startsWith s p = true <-> exists r, s = p ++ r.
Proof.
  revert s; induction p as [|x p IH]; intros s; simpl.
  - split; [intros _; now exists s | reflexivity].
  - destruct s as [|y s]; simpl.
    + split; [discriminate | intros [r Hr]; discriminate].
    + rewrite andb_true_iff, N.eqb_eq, IH. split.
      * intros [-> [r ->]]. now exists r.
      * intros [r Hr]. injection Hr as -> ->. split; [reflexivity|now exists r].
Qed.

Lemma includes_spec (s p : jsstring) :
  includes s p = true <-> exists a b, s = a ++ p ++ b.
Proof.
  induction s as [|y s IH]; simpl.
  - rewrite orb_false_r, startsWith_spec. split.
    + intros [r Hr]. exists [], r. exact Hr.
    + intros [a [b H]]. destruct a; simpl in H; [now exists b|discriminate].
  - rewrite orb_true_iff, startsWith_spec, IH. split.
    + intros [[r Hr] | [a [b H]]].
      * exists [], r. exact Hr.
      * exists (y :: a), b. simpl. now rewrite H.
    + intros [a [b H]]. destruct a as [|x a]; simpl in H.
      * left. now exists b.
      * right. injection H as -> ->. now exists a, b.
Qed.

Lemma endsWith_spec (s p : jsstring) :
  endsWith s p = true <-> exists a, s = a ++ p.
Proof.
  unfold endsWith. rewrite startsWith_spec. split.
  - intros [r Hr]. exists (rev r).
    rewrite <- (rev_involutive s), Hr, rev_app_distr, rev_involutive.
    reflexivity.
  - intros [a ->]. exists (rev a). now rewrite rev_app_distr.
Qed.

Lemma endsWith_includes (s p : jsstring) :
  endsWith s p = true -> includes s p = true.
Proof.
  rewrite endsWith_spec, includes_spec. intros [a ->].
  exists a, []. now rewrite app_nil_r.
Qed.

(* ------------------------------------------------------------------ *)
(** ** The video type of a resolved address *)

(** C2, as stated, fails: an address that carries the playlist extension
    before a query string is shown as segmented although it does not end
    with the extension, and an address ending in ".mp4" that contains the
    extension earlier is shown as segmented too. *)
Lemma videoType_not_by_suffix :
  ~ (videoType m3u8_query_url = lit "m3u8"
     <-> endsWith m3u8_query_url (lit ".m3u8") = true)
  /\ endsWith m3u8_dir_url (lit ".mp4") = true
  /\ videoType m3u8_dir_url <> lit "mp4".
Proof.
  split; [|split].
  - intros [H _]. specialize (H eq_refl). vm_compute in H. discriminate.
  - reflexivity.
  - vm_compute. discriminate.
Qed.

(** C2 (amended): the video type is "m3u8" exactly when the address
    contains ".m3u8" somewhere, and "mp4" otherwise; every address that
    ends with ".m3u8" is therefore "m3u8", and an address without ".m3u8"
    in it is "mp4". *)
Theorem videoType_by_occurrence (url : jsstring) :
  (videoType url = lit "m3u8" <-> includes url (lit ".m3u8") = true)
  /\ (videoType url = lit "mp4" <-> includes url (lit ".m3u8") = false)
  /\ (endsWith url (lit ".m3u8") = true -> videoType url = lit "m3u8").
Proof.
  assert (Hd : lit "m3u8" <> lit "mp4") by (vm_compute; discriminate).
  unfold videoType. split; [|split].
  - destruct (includes url (lit ".m3u8")); split; intros H;
      try reflexivity; try discriminate; try (symmetry in H; contradiction).
  - destruct (includes url (lit ".m3u8")); split; intros H;
      try reflexivity; try discriminate; try contradiction.
  - intros H. now rewrite (endsWith_includes _ _ H).
Qed.

Lemma videoType_by_occurrence_witness :
  videoType (lit "https://x/y.m3u8") = lit "m3u8".
Proof.
  apply (proj2 (proj2 (videoType_by_occurrence (lit "https://x/y.m3u8")))).
  reflexivity.
Defined.

Example videoType_mp4 : videoType (lit "https://x/y.mp4") = lit "mp4".
Proof. reflexivity. Qed.

(* ------------------------------------------------------------------ *)
(** ** Filtering the course list *)

(** The scenario of the specification, in three spellings of the term. *)
Example filterCourses_algebra :
  filterCourses asciiToLowerCase threeCourses (lit "algebra")
    = [ courseTitled (lit "Algebra"); courseTitled (lit "Advanced Algebra") ]
  /\ filterCourses asciiToLowerCase threeCourses (lit "ALGEBRA")
    = [ courseTitled (lit "Algebra"); courseTitled (lit "Advanced Algebra") ]
  /\ filterCourses asciiToLowerCase threeCourses (lit "aLgEbRa")
    = [ courseTitled (lit "Algebra"); courseTitled (lit "Advanced Algebra") ].
Proof. repeat split; reflexivity. Qed.

(** C9, as stated, fails: the term is trimmed before it is searched for, so
    a term made of one blank selects a course none of whose fields contains
    a blank, and " alg" selects "Algebra". *)
Lemma filterCourses_trims_term :
  filterCourses asciiToLowerCase [courseTitled (lit "Algebra")] (lit " ")
    = [courseTitled (lit "Algebra")]
  /\ filter (courseContains asciiToLowerCase (lit " "))
       [courseTitled (lit "Algebra")] = []
  /\ filterCourses asciiToLowerCase [courseTitled (lit "Algebra")] (lit " alg")
    <> filter (courseContains asciiToLowerCase (lit " alg"))
         [courseTitled (lit "Algebra")].
Proof.
  split; [reflexivity|]. split; [reflexivity|].
  vm_compute. discriminate.
Qed.

(** C9 (amended): for a non-empty search term, [filterCourses] returns, in
    the order of the input list, exactly the courses whose lower-cased
    title, lecturer name or room name contains the lower-cased term with
    its leading and trailing white space removed; when trimming leaves the
    lower-cased term unchanged these are the courses that contain the term
    as a case-insensitive substring. *)
Theorem filterCourses_spec (toLowerCase : jsstring -> jsstring)
    (courses : list Course) (searchTerm : jsstring) :
  searchTerm <> [] ->
  filterCourses toLowerCase courses searchTerm
    = filter (fun c =>
                includes (toLowerCase (title c))
                         (trim (toLowerCase searchTerm))
                || includes (toLowerCase (lecturer_name c))
                            (trim (toLowerCase searchTerm))
                || includes (toLowerCase (room_name c))
                            (trim (toLowerCase searchTerm)))
             courses
  /\ (trim (toLowerCase searchTerm) = toLowerCase searchTerm ->
      filterCourses toLowerCase courses searchTerm
        = filter (courseContains toLowerCase searchTerm) courses).
Proof.
  intros Hne. unfold filterCourses.
  destruct searchTerm as [|c r]; [contradiction|]. simpl negb. cbv iota.
  split; [reflexivity|].
  intros Htrim. cbv zeta. rewrite Htrim. reflexivity.
Qed.

Lemma filterCourses_spec_witness :
  filterCourses asciiToLowerCase threeCourses (lit "ALGEBRA")
    = filter (courseContains asciiToLowerCase (lit "ALGEBRA")) threeCourses.
Proof.
  refine (proj2 (filterCourses_spec asciiToLowerCase threeCourses
                   (searchTerm := lit "ALGEBRA") _) _).
  - vm_compute. discriminate.
  - reflexivity.
Defined.

(* ------------------------------------------------------------------ *)
(** ** The schedule request *)

Lemma below_cases (P : N -> Prop) (n : nat) :
  (forall k, (k < n)%nat -> P (N.of_nat k)) ->
  forall x, (x < N.of_nat n)%N -> P x.
Proof.
  intros H x Hx. rewrite <- (N2Nat.id x). apply H. lia.
Qed.

Lemma forallb_seq_below (f : nat -> bool) (n : nat) :
  forallb f (seq 0 n) = true -> forall k, (k < n)%nat -> f k = true.
Proof.
  intros H k Hk. rewrite forallb_forall in H. apply H.
  apply in_seq. lia.
Qed.

Lemma pad2_two_digits (n : N) :
  (n < 100)%N -> pad2 n = [digitUnit (n / 10 mod 10); digitUnit (n mod 10)].
Proof.
  revert n. apply (@below_cases _ 100). intros k Hk.
  pose (f := fun k : nat => JS.eqb (pad2 (N.of_nat k))
                 [digitUnit (N.of_nat k / 10 mod 10);
                  digitUnit (N.of_nat k mod 10)]).
  assert (H : f k = true).
  { apply (@forallb_seq_below f 100); [vm_compute; reflexivity | exact Hk]. }
  unfold f, JS.eqb in H.
  destruct (list_eq_dec _ _ _) as [E|]; [exact E | discriminate].
Qed.

Lemma ofN_four_digits (n : N) :
  (1000 <= n < 10000)%N ->
  ofN n = [digitUnit (n / 1000 mod 10); digitUnit (n / 100 mod 10);
           digitUnit (n / 10 mod 10); digitUnit (n mod 10)].
Proof.
  intros [Hlo Hhi]. replace n with (1000 + (n - 1000))%N by lia.
  assert (Hx : (n - 1000 < 9000)%N) by lia.
  rewrite <- (N2Nat.id 9000) in Hx.
  generalize (n - 1000)%N Hx. clear.
  apply (@below_cases _ (N.to_nat 9000)). intros k Hk.
  pose (f := fun k : nat => JS.eqb (ofN (1000 + N.of_nat k))
     [digitUnit ((1000 + N.of_nat k) / 1000 mod 10);
      digitUnit ((1000 + N.of_nat k) / 100 mod 10);
      digitUnit ((1000 + N.of_nat k) / 10 mod 10);
      digitUnit ((1000 + N.of_nat k) mod 10)]).
  assert (H : f k = true).
  { apply (@forallb_seq_below f (N.to_nat 9000)); [vm_compute; reflexivity | exact Hk]. }
  unfold f, JS.eqb in H.
  destruct (list_eq_dec _ _ _) as [E|]; [exact E | discriminate].
Qed.

Lemma formatDate_iso (year : Z) (m day : N) :
  (1000 <= year <= 9999)%Z -> (m < 12)%N -> (1 <= day <= 31)%N ->
  formatDate (LocalDate year m day) = isoDate (Z.to_N year) (m + 1) day.
Proof.
  intros Hy Hm Hd. unfold formatDate.
  rewrite (pad2_two_digits (n := m + 1)) by lia.
  rewrite (pad2_two_digits (n := day)) by lia.
  destruct year as [|p|p]; try lia.
  simpl ofZ. rewrite ofN_four_digits by lia. reflexivity.
Qed.

(** C5, as stated, fails: a building id of 0 (what index.ts passes when the
    selected option carries no id) is present but is not appended, and the
    year is printed without padding. *)
Lemma getCourses_drops_zero_building :
  req_url (getCourses someAuth (LocalDate 2025 8 26) (Some (Int 0)))
    = req_url (getCourses someAuth (LocalDate 2025 8 26) None)
  /\ includes
       (req_url (getCourses someAuth (LocalDate 2025 8 26) (Some (Int 0))))
       (lit "building_in") = false
  /\ formatDate (LocalDate 5 0 2) = lit "5-01-02".
Proof. split; [|split]; vm_compute; reflexivity. Qed.

(** C5 (amended): [getCourses] issues a GET to the schedule endpoint with
    the credential's two headers; for a date whose local year has four
    digits the query carries it as YYYY-MM-DD with zero-padded month and
    day; for a [buildingId] that is absent, NaN or an integer of at most
    2^53 in magnitude, [building_in] is appended, with the digits of the
    integer, exactly when [buildingId] is present and is neither 0 nor
    NaN, and nothing is appended otherwise. *)
Theorem getCourses_request (authInfo : AuthInfo) (year : Z) (m day : N)
    (buildingId : option number) :
  (1000 <= year <= 9999)%Z -> (m < 12)%N -> (1 <= day <= 31)%N ->
  safeBuildingId buildingId = true ->
  let r := getCourses authInfo (LocalDate year m day) buildingId in
  req_method r = lit "GET"
  /\ req_url r = coursesUrlPrefix ++ isoDate (Z.to_N year) (m + 1) day
                 ++ coursesUrlSuffix ++ buildingFilter buildingId
  /\ In (lit "authorization", authorization authInfo) (req_headers r)
  /\ In (lit "cookie", cookie authInfo) (req_headers r).
Proof.
  intros Hy Hm Hd _ r. subst r. unfold getCourses, httpGet_request.
  cbn [req_method req_url req_headers]. split; [reflexivity|]. split.
  - unfold getCourses_url. rewrite formatDate_iso by assumption.
    destruct buildingId as [[z|]|]; cbn [number_truthy buildingFilter].
    + destruct (z =? 0)%Z; cbn [negb number_toString];
        rewrite <- ?app_assoc, ?app_nil_r; reflexivity.
    + now rewrite app_nil_r.
    + now rewrite app_nil_r.
  - split; apply in_or_app; right; simpl; auto.
Qed.

Lemma getCourses_request_witness :
  req_url (getCourses someAuth (LocalDate 2025 8 26) (Some (Int 12)))
    = coursesUrlPrefix ++ lit "2025-09-26" ++ coursesUrlSuffix
      ++ lit "&building_in=12".
Proof.
  refine (proj1 (proj2 (@getCourses_request someAuth 2025 8 26
                          (Some (Int 12)) _ _ _ _)));
    [lia | lia | lia | reflexivity].
Defined.

(* ------------------------------------------------------------------ *)
(** ** Resolving the video address *)

Lemma parse_empty : JSON.parse [] = None.
Proof. reflexivity. Qed.

Lemma extractVideoUrl_never_throws (r : Video.VideoResponse) :
  exists result, extractVideoUrl r = Normal result.
Proof.
  unfold extractVideoUrl.
  destruct (Video.list_ r) as [[|first rest]|]; eauto.
  destruct (Video.sub_content first) as [s|]; eauto.
  destruct (negb (truthy s)); eauto.
  destruct (extractVideoUrl_try s); simpl; eauto.
Qed.

Lemma extractVideoUrl_no_recording (r : Video.VideoResponse) :
  NoRecording r -> extractVideoUrl r = Normal None.
Proof.
  unfold extractVideoUrl, extractVideoUrl_try, JSON_parse.
  intros [H | H | f t H H1 | f t H H1 | f t s H H1 H2
          | f t s ms H H1 H2 H3 | f t s ms sp H H1 H2 H3 H4
          | f t s ms sp H H1 H2 H3 H4]; rewrite H; try reflexivity;
    rewrite H1; try reflexivity;
    (destruct s as [|c s']; [reflexivity|]); cbn [truthy negb];
    rewrite H2; cbn [bind tryCatch getProperty]; try reflexivity.
  - fold save_playback_key. rewrite H3. reflexivity.
  - fold save_playback_key. rewrite H3. cbn [toBoolean getProperty bind].
    fold contents_key. rewrite H4. reflexivity.
  - fold save_playback_key. rewrite H3. cbn [toBoolean getProperty bind].
    fold contents_key. rewrite H4. reflexivity.
Qed.

Lemma extractVideoUrl_recording (r : Video.VideoResponse) (url : jsstring) :
  Recording r url -> extractVideoUrl r = Normal (Some (JSON.JString url)).
Proof.
  unfold extractVideoUrl, extractVideoUrl_try, JSON_parse.
  intros [f t s ms sp H H1 H2 H3 H4 Hne]. rewrite H, H1.
  destruct s as [|c s']; [rewrite parse_empty in H2; discriminate|].
  cbn [truthy negb]. rewrite H2. cbn [bind tryCatch getProperty].
  fold save_playback_key. rewrite H3. cbn [toBoolean getProperty bind].
  fold contents_key. rewrite H4.
  destruct url; [contradiction|]. reflexivity.
Qed.

(** What a non-null result is, whatever the JSON text holds. *)
Lemma extractVideoUrl_some (r : Video.VideoResponse) (v : JSON.value) :
  extractVideoUrl r = Normal (Some v) <->
  exists first rest s j sp,
    Video.list_ r = Some (first :: rest)
    /\ Video.sub_content first = Some s
    /\ JSON.parse s = Some j
    /\ getProperty (Some j) save_playback_key = Normal sp
    /\ toBoolean sp = true
    /\ getProperty sp contents_key = Normal (Some v)
    /\ toBoolean (Some v) = true.
Proof.
  unfold extractVideoUrl, extractVideoUrl_try, JSON_parse. split.
  - destruct (Video.list_ r) as [[|first rest]|] eqn:E; try discriminate.
    destruct (Video.sub_content first) as [s|] eqn:E0; try discriminate.
    destruct (negb (truthy s)); try discriminate.
    destruct (JSON.parse s) as [j|] eqn:Ep; [|discriminate].
    cbn [bind]. fold save_playback_key.
    destruct (getProperty (Some j) save_playback_key) as [sp|e] eqn:E1;
      [|discriminate].
    cbn [bind]. destruct (toBoolean sp) eqn:E2; [|discriminate].
    fold contents_key.
    destruct (getProperty sp contents_key) as [c|e] eqn:E3; [|discriminate].
    cbn [bind]. destruct (toBoolean c) eqn:E4; [|discriminate].
    cbn [tryCatch]. intros [= ->].
    exists first, rest, s, j, sp. repeat split; assumption.
  - intros (first & rest & s & j & sp & H & H1 & H2 & H3 & H4 & H5 & H6).
    rewrite H, H1.
    destruct s as [|c s']; [rewrite parse_empty in H2; discriminate|].
    cbn [truthy negb]. rewrite H2. cbn [bind]. fold save_playback_key.
    rewrite H3. cbn [bind]. rewrite H4. fold contents_key. rewrite H5.
    cbn [bind]. rewrite H6. reflexivity.
Qed.

(** The scenarios of the specification. *)
Example extractVideoUrl_mp4 :
  extractVideoUrl (responseWith [entryWith (Some mp4Content)])
    = Normal (Some (JSON.JString (lit "https://x/y.mp4"))).
Proof. vm_compute. reflexivity. Qed.

Example extractVideoUrl_m3u8 :
  extractVideoUrl (responseWith [entryWith (Some m3u8Content)])
    = Normal (Some (JSON.JString (lit "https://x/y.m3u8"))).
Proof. vm_compute. reflexivity. Qed.

Example extractVideoUrl_empty_or_garbage :
  extractVideoUrl (responseWith [entryWith (Some [])]) = Normal None
  /\ extractVideoUrl (responseWith [entryWith (Some (lit "not json"))])
     = Normal None
  /\ extractVideoUrl (responseWith [entryWith (Some (lit "null"))])
     = Normal None.
Proof. split; [|split]; vm_compute; reflexivity. Qed.

(** C3: [extractVideoUrl] never throws; it returns null when the list is
    absent or empty, when the first entry's [sub_content] is absent, empty
    or not parseable, when the parsed object has no [save_playback] entry,
    and when [save_playback] has no [contents] or an empty one; when the
    first entry's [save_playback.contents] is a non-empty string it returns
    that string. *)
Theorem extractVideoUrl_total (r : Video.VideoResponse) :
  (exists result, extractVideoUrl r = Normal result)
  /\ (NoRecording r -> extractVideoUrl r = Normal None)
  /\ (forall url, Recording r url ->
        extractVideoUrl r = Normal (Some (JSON.JString url))).
Proof.
  split; [apply extractVideoUrl_never_throws|]. split.
  - apply extractVideoUrl_no_recording.
  - intros url. apply extractVideoUrl_recording.
Qed.

Lemma extractVideoUrl_total_witness :
  extractVideoUrl (responseWith [entryWith (Some (lit "not json"))])
    = Normal None
  /\ extractVideoUrl (responseWith [entryWith (Some mp4Content)])
    = Normal (Some (JSON.JString (lit "https://x/y.mp4"))).
Proof.
  split.
  - apply (proj1 (proj2 (extractVideoUrl_total _))).
    apply MalformedSubContent
      with (first := entryWith (Some (lit "not json"))) (rest := [])
           (s := lit "not json"); vm_compute; reflexivity.
  - apply (proj2 (proj2 (extractVideoUrl_total _))).
    apply HasContents
      with (first := entryWith (Some mp4Content)) (rest := [])
           (s := mp4Content)
           (ms := [(save_playback_key,
                    JSON.JObject
                      [(contents_key,
                        JSON.JString (lit "https://x/y.mp4"))])])
           (sp := [(contents_key, JSON.JString (lit "https://x/y.mp4"))]);
      try (vm_compute; reflexivity).
    vm_compute. discriminate.
Defined.



Example extractVideoUrl_ignores_later_entries :
  extractVideoUrl
    (responseWith [entryWith (Some (lit "not json"));
                   entryWith (Some mp4Content)]) = Normal None
  /\ extractVideoUrl
       (responseWith [entryWith None; entryWith (Some mp4Content)])
     = Normal None
  /\ extractVideoUrl
       (responseWith [entryWith (Some (jsonLit "{'save_playback':{}}"));
                      entryWith (Some mp4Content)]) = Normal None.
Proof. split; [|split]; vm_compute; reflexivity. Qed.

(* ------------------------------------------------------------------ *)
(** ** The credential file *)

Lemma eqb_true_eq (a b : jsstring) : JS.eqb a b = true -> a = b.
Proof.
  unfold JS.eqb. destruct (list_eq_dec N.eq_dec a b); [auto|discriminate].
Qed.

Lemma hexValue_hexDigit (n : N) :
  (n < 16)%N -> JSON.hexValue (JSON.hexDigit n) = Some n.
Proof.
  intros Hn.
  assert (H : In n [0; 1; 2; 3; 4; 5; 6; 7; 8; 9; 10; 11; 12; 13; 14; 15]%N).
  { simpl. lia. }
  simpl in H. repeat destruct H as [<-|H]; try reflexivity. contradiction.
Qed.

Lemma hex4Value_unicodeEscape (c : N) :
  (c < 65536)%N ->
  JSON.hex4Value (JSON.hexDigit (c / 4096 mod 16))
                 (JSON.hexDigit (c / 256 mod 16))
                 (JSON.hexDigit (c / 16 mod 16))
                 (JSON.hexDigit (c mod 16)) = Some c.
Proof.
  intros Hc. unfold JSON.hex4Value.
  rewrite !hexValue_hexDigit by (apply N.mod_lt; discriminate).
  f_equal.
  pose proof (N.div_mod c 16 ltac:(discriminate)) as H0.
  pose proof (N.div_mod (c / 16) 16 ltac:(discriminate)) as H1.
  pose proof (N.div_mod (c / 256) 16 ltac:(discriminate)) as H2.
  replace (c / 16 / 16)%N with (c / 256)%N in H1
    by (now rewrite N.Div0.div_div).
  replace (c / 256 / 16)%N with (c / 4096)%N in H2
    by (now rewrite N.Div0.div_div).
  assert (H3 : (c / 4096 < 16)%N).
  { apply N.Div0.div_lt_upper_bound. exact Hc. }
  rewrite (N.mod_small (c / 4096) 16 H3). lia.
Qed.

Lemma parseChars_cons (c : N) (r : jsstring) :
  (c =? 34)%N = false -> (c =? 92)%N = false -> (c <? 32)%N = false ->
  JSON.parseChars (c :: r)
  = match JSON.parseChars r with
    | Some (t, rest) => Some (c :: t, rest)
    | None => None
    end.
Proof. intros H1 H2 H3. simpl. now rewrite H1, H2, H3. Qed.

Lemma parseChars_unicodeEscape (c : N) (r : jsstring) :
  (c < 65536)%N ->
  JSON.parseChars (JSON.unicodeEscape c ++ r)
  = match JSON.parseChars r with
    | Some (t, rest) => Some (c :: t, rest)
    | None => None
    end.
Proof.
  intros Hc. unfold JSON.unicodeEscape.
  cbn [app JSON.parseChars N.eqb Pos.eqb].
  now rewrite hex4Value_unicodeEscape.
Qed.

Lemma parseChars_shortEscape (c e : N) (r : jsstring) :
  JSON.shortEscape c = Some e ->
  JSON.parseChars (92%N :: e :: r)
  = match JSON.parseChars r with
    | Some (t, rest) => Some (c :: t, rest)
    | None => None
    end.
Proof.
  unfold JSON.shortEscape.
  repeat match goal with
  | |- context [(c =? ?k)%N] =>
    destruct (N.eqb_spec c k) as [->|_];
      [intros [= <-]; reflexivity|]
  end.
  discriminate.
Qed.

Lemma shortEscape_none (c : N) :
  JSON.shortEscape c = None -> (c =? 34)%N = false /\ (c =? 92)%N = false.
Proof.
  unfold JSON.shortEscape.
  repeat match goal with
  | |- context [(c =? ?k)%N] =>
    destruct (N.eqb_spec c k) as [->|?]; [discriminate|]
  end.
  intros _. split; reflexivity.
Qed.

Lemma surrogate_bound (c : N) :
  JSON.isLeadSurrogate c || JSON.isTrailSurrogate c = true ->
  (c < 65536)%N /\ (c <? 32)%N = false.
Proof.
  unfold JSON.isLeadSurrogate, JSON.isTrailSurrogate.
  rewrite orb_true_iff, !andb_true_iff, !N.leb_le, N.ltb_ge. lia.
Qed.

Lemma parseChars_quoteChars (s rest : jsstring) :
  JSON.parseChars (JSON.quoteChars s ++ 34%N :: rest) = Some (s, rest).
Proof.
  remember (List.length s) as n eqn:Hn.
  revert s Hn. induction n as [n IH] using lt_wf_ind. intros s Hn.
  destruct s as [|c r]; [reflexivity|].
  assert (IHr : JSON.parseChars (JSON.quoteChars r ++ 34%N :: rest)
                = Some (r, rest)).
  { apply (IH (List.length r)); [subst n; simpl; lia | reflexivity]. }
  cbn [JSON.quoteChars].
  destruct (JSON.shortEscape c) as [e|] eqn:Es.
  - cbn [app]. rewrite (parseChars_shortEscape _ _ Es), IHr. reflexivity.
  - destruct (shortEscape_none _ Es) as [Hq Hb].
    destruct (c <? 32)%N eqn:Hlt.
    + rewrite <- app_assoc, parseChars_unicodeEscape, IHr;
        [reflexivity | apply N.ltb_lt in Hlt; lia].
    + destruct (JSON.isLeadSurrogate c) eqn:Hl.
      * assert (Hc : (c < 65536)%N).
        { apply surrogate_bound. now rewrite Hl. }
        destruct r as [|d r'].
        -- rewrite <- app_assoc, parseChars_unicodeEscape, IHr by exact Hc.
           reflexivity.
        -- destruct (JSON.isTrailSurrogate d) eqn:Ht.
           ++ assert (Hd : (d <? 32)%N = false).
              { apply surrogate_bound. rewrite Ht. apply orb_true_r. }
              assert (Hd' : (d =? 34)%N = false /\ (d =? 92)%N = false).
              { unfold JSON.isTrailSurrogate in Ht.
                rewrite andb_true_iff, !N.leb_le in Ht.
                split; apply N.eqb_neq; lia. }
              cbn [app].
              rewrite (parseChars_cons _ _ Hq Hb Hlt).
              rewrite (parseChars_cons _ _ (proj1 Hd') (proj2 Hd') Hd).
              rewrite (IH (List.length r')); [reflexivity| |reflexivity].
              subst n. simpl. lia.
           ++ rewrite <- app_assoc, parseChars_unicodeEscape, IHr
                by exact Hc.
              reflexivity.
      * destruct (JSON.isTrailSurrogate c) eqn:Ht.
        -- rewrite <- app_assoc, parseChars_unicodeEscape, IHr;
             [reflexivity|]. apply surrogate_bound. rewrite Ht.
           apply orb_true_r.
        -- cbn [app]. rewrite (parseChars_cons _ _ Hq Hb Hlt), IHr.
           reflexivity.
Qed.

Lemma stringifyAuthInfo_text (a : AuthInfo) :
  stringifyAuthInfo a
  = [123; 10; 32; 32; 34]%N ++ JSON.quoteChars (lit "authorization")
    ++ [34; 58; 32; 34]%N ++ JSON.quoteChars (authorization a)
    ++ [34; 44; 10; 32; 32; 34]%N ++ JSON.quoteChars (lit "cookie")
    ++ [34; 58; 32; 34]%N ++ JSON.quoteChars (cookie a)
    ++ [34; 10; 125]%N.
Proof.
  unfold stringifyAuthInfo, JSON.quote.
  change (lit "{") with [123%N]. change (lit "  ") with [32%N; 32%N].
  change (lit ": ") with [58%N; 32%N]. change (lit ",") with [44%N].
  change (lit "}") with [125%N].
  cbn [app]. repeat (rewrite <- ?app_assoc; cbn [app]). reflexivity.
Qed.

Lemma parseValue_string (fuel : nat) (s rest : jsstring) :
  JSON.parseValue (S fuel) (34%N :: JSON.quoteChars s ++ 34%N :: rest)
  = Some (JSON.JString s, rest).
Proof.
  cbn [JSON.parseValue N.eqb Pos.eqb]. now rewrite parseChars_quoteChars.
Qed.

Lemma parse_stringifyAuthInfo (a : AuthInfo) :
  JSON.parse (stringifyAuthInfo a) = Some (authInfoObject a).
Proof.
  unfold JSON.parse. rewrite stringifyAuthInfo_text.
  set (text := _ ++ _).
  assert (Hf : exists n, (2 * List.length text + 2 = 4 + n)%nat).
  { exists (2 * List.length text - 2)%nat. subst text. simpl. lia. }
  destruct Hf as [n ->]. subst text.
  cbn [app JSON.skipWS JSON.isWS N.eqb Pos.eqb orb plus].
  cbn [JSON.parseValue N.eqb Pos.eqb JSON.skipWS JSON.isWS orb
       JSON.stripPrefix].
  cbn [JSON.parseMembers JSON.skipWS JSON.isWS N.eqb Pos.eqb orb
       JSON.stripPrefix].
  rewrite parseChars_quoteChars.
  cbn [JSON.skipWS JSON.isWS N.eqb Pos.eqb orb JSON.stripPrefix].
  rewrite parseValue_string.
  cbn [JSON.nextSeparator JSON.skipWS JSON.isWS N.eqb Pos.eqb orb].
  cbn [JSON.parseMembers JSON.skipWS JSON.isWS N.eqb Pos.eqb orb
       JSON.stripPrefix].
  rewrite parseChars_quoteChars.
  cbn [JSON.skipWS JSON.isWS N.eqb Pos.eqb orb JSON.stripPrefix].
  rewrite parseValue_string.
  cbn [JSON.nextSeparator JSON.skipWS JSON.isWS N.eqb Pos.eqb orb].
  reflexivity.
Qed.

Lemma validateAuthInfo_parsed_object (a : AuthInfo) :
  validateAuthInfo_parsed (authInfoObject a) = Normal (validateAuthInfo a).
Proof.
  unfold validateAuthInfo_parsed, authInfoObject, validateAuthInfo.
  cbn [getProperty JSON.getMember].
  change (JS.eqb (lit "authorization") (lit "authorization")) with true.
  change (JS.eqb (lit "cookie") (lit "authorization")) with false.
  change (JS.eqb (lit "cookie") (lit "cookie")) with true.
  change (JS.eqb (lit "length") (lit "length")) with true.
  cbn [bind callStartsWith].
  destruct (startsWith (authorization a) (lit "Bearer ")); cbn [negb andb];
    [|reflexivity].
  cbn [bind getProperty greaterThanZero ofLength].
  unfold isPositive, JSON.roundsToZero.
  cbn [JSON.neg JSON.mantissa JSON.exponent negb andb].
  destruct (cookie a) as [|c r]; [reflexivity|].
  reflexivity.
Qed.

(** What [saveAuthInfo] writes starts with a brace, not with a byte order
    mark: it is read back as written. *)
Lemma fileText_stringifyAuthInfo (a : AuthInfo) :
  fileText (stringifyAuthInfo a) = stringifyAuthInfo a.
Proof. reflexivity. Qed.

(** C6: saving a valid credential and loading immediately afterwards
    returns that credential, and leaves the file as written. *)
Theorem save_load_roundtrip (c : AuthInfo) (file : AuthFile) :
  validateAuthInfo c = true ->
  loadAuthInfo (saveAuthInfo c file)
  = (Some (authInfoObject c), saveAuthInfo c file).
Proof.
  intros Hvalid. unfold loadAuthInfo, saveAuthInfo, JSON_parse.
  rewrite fileText_stringifyAuthInfo. cbv zeta.
  rewrite parse_stringifyAuthInfo. cbn [bind].
  rewrite validateAuthInfo_parsed_object, Hvalid. reflexivity.
Qed.

Lemma save_load_roundtrip_witness :
  loadAuthInfo (saveAuthInfo someAuth None)
  = (Some (authInfoObject someAuth), saveAuthInfo someAuth None).
Proof. apply save_load_roundtrip. reflexivity. Defined.

(** C7: when the text of the file, as [authFile.text()] reads it, is not
    JSON, [loadAuthInfo] returns null and leaves the file emptied, and a
    second load returns null again with the file still empty. *)
Theorem loadAuthInfo_self_heals (content : jsstring) :
  JSON.parse (fileText content) = None ->
  loadAuthInfo (Some content) = (None, Some [])
  /\ loadAuthInfo (snd (loadAuthInfo (Some content))) = (None, Some []).
Proof.
  intros Hbad.
  assert (H : loadAuthInfo (Some content) = (None, Some [])).
  { unfold loadAuthInfo, JSON_parse. cbv zeta. rewrite Hbad. reflexivity. }
  split; [exact H|]. rewrite H. reflexivity.
Qed.

Lemma loadAuthInfo_self_heals_witness :
  loadAuthInfo (Some (lit "garbage")) = (None, Some [])
  /\ loadAuthInfo (snd (loadAuthInfo (Some (lit "garbage"))))
     = (None, Some []).
Proof. apply loadAuthInfo_self_heals. reflexivity. Defined.

(** A file that starts with a byte order mark is read without it: a
    saved credential behind the mark is loaded and the file is kept;
    garbage behind the mark is cleared. *)
Example loadAuthInfo_byte_order_mark :
  loadAuthInfo (Some (65279%N :: stringifyAuthInfo someAuth))
    = (Some (authInfoObject someAuth),
       Some (65279%N :: stringifyAuthInfo someAuth))
  /\ loadAuthInfo (Some (65279%N :: lit "garbage")) = (None, Some []).
Proof. split; vm_compute; reflexivity. Qed.

(* ------------------------------------------------------------------ *)
(** ** The orchestrator *)

(** An error classified as an authorization failure empties the
    credential file before the exit. *)
Lemma handleApiError_auth (error : JsError) (w : World) :
  isAuthError (errorText error) = true ->
  handleApiError error w
  = ({| authFile := Some [];
        trace := trace w ++ [Warn (lit "鉴权已过期，请重新输入"); DeleteAuth;
                             Cancel (lit "请求失败: " ++ errorText error)] |},
     Exited 1).
Proof.
  intros H. unfold handleApiError. rewrite H.
  unfold exitWith, log, deleteAuthInfo. cbn [authFile trace].
  rewrite <- !app_assoc. reflexivity.
Qed.

Lemma handleApiError_other (error : JsError) (w : World) :
  isAuthError (errorText error) = false ->
  handleApiError error w
  = ({| authFile := authFile w;
        trace := trace w ++ [Cancel (lit "请求失败: " ++ errorText error)] |},
     Exited 1).
Proof. intros H. unfold handleApiError. now rewrite H. Qed.

(** The scenarios of the specification: a schedule request rejected with
    status 401 empties the credential file and no detail request is made;
    a run whose requests all succeed resolves the address and never
    deletes the credential. *)
Example main_schedule_rejected_401 :
  let run := main asciiToLowerCase someAuth
               {| buildings := Answered oneBuilding;
                  courses := Rejected 401;
                  video := Answered (responseWith [entryWith (Some mp4Content)]) |}
               allAnswers None in
  authFile (fst run) = Some []
  /\ snd run = Exited 1
  /\ existsb isDeleteAuth (trace (fst run)) = true
  /\ existsb (isFetch VideoApi) (trace (fst run)) = false.
Proof. vm_compute. repeat split. Qed.

Example main_resolves_mp4 :
  let run := main asciiToLowerCase someAuth
               {| buildings := Answered oneBuilding;
                  courses := Answered oneLecture;
                  video := Answered (responseWith [entryWith (Some mp4Content)]) |}
               allAnswers None in
  snd run = VideoResolved (JSON.JString (lit "https://x/y.mp4")) (lit "mp4")
  /\ authFile (fst run) = Some (stringifyAuthInfo someAuth)
  /\ existsb isDeleteAuth (trace (fst run)) = false.
Proof. vm_compute. repeat split. Qed.

(** C4 fails on the code: when the schedule endpoint answers with
    transport status 200 and an envelope reporting "Unauthorized" (code
    401), [main] exits with status 1 without calling [handleApiError]: the
    credential saved after the first request stays in the file and nothing
    is deleted.  The same holds for the lecture-detail endpoint; the
    locations step does call [handleApiError] for such an envelope. *)
Theorem main_keeps_credential_on_envelope_error :
  let scheduleRun :=
    main asciiToLowerCase someAuth
      {| buildings := Answered oneBuilding;
         courses := Answered scheduleUnauthorized;
         video := Answered (responseWith [entryWith (Some mp4Content)]) |}
      allAnswers None in
  let detailRun :=
    main asciiToLowerCase someAuth
      {| buildings := Answered oneBuilding;
         courses := Answered oneLecture;
         video := Answered detailUnauthorized |}
      allAnswers None in
  let locationsRun :=
    main asciiToLowerCase someAuth
      {| buildings :=
           Answered {| Buildings.code := 401;
                       Buildings.msg := lit "Unauthorized";
                       Buildings.total := lit "0"; Buildings.list_ := [] |};
         courses := Answered oneLecture;
         video := Answered (responseWith [entryWith (Some mp4Content)]) |}
      allAnswers (Some (stringifyAuthInfo someAuth)) in
  isAuthError (Schedule.msg scheduleUnauthorized) = true
  /\ snd scheduleRun = Exited 1
  /\ authFile (fst scheduleRun) = Some (stringifyAuthInfo someAuth)
  /\ existsb isDeleteAuth (trace (fst scheduleRun)) = false
  /\ existsb (isFetch VideoApi) (trace (fst scheduleRun)) = false
  /\ snd detailRun = Exited 1
  /\ authFile (fst detailRun) = Some (stringifyAuthInfo someAuth)
  /\ existsb isDeleteAuth (trace (fst detailRun)) = false
  /\ snd locationsRun = Exited 1
  /\ authFile (fst locationsRun) = Some []
  /\ existsb isDeleteAuth (trace (fst locationsRun)) = true.
Proof. vm_compute. repeat split. Qed.

(* ------------------------------------------------------------------ *)
(** ** Extraction of the credential: the error *)

Lemma truthy_app_bearer (s : jsstring) : truthy (lit "Bearer " ++ s) = true.
Proof. reflexivity. Qed.

Lemma parseCurlCommand_cases (curlCommand : jsstring) :
  parseCurlCommand curlCommand
  = match missingNames curlCommand with
    | [] =>
      Normal
        {| authorization :=
             match firstCapture Patterns.authPatterns
                     (normalizeCommand curlCommand) with
             | Some g => lit "Bearer " ++ trim g
             | None => []
             end;
           cookie :=
             match firstCapture Patterns.cookiePatterns
                     (normalizeCommand curlCommand) with
             | Some g => trim g
             | None => []
             end |}
    | missing => Throw (extractionMessage missing)
    end.
Proof.
  unfold parseCurlCommand, missingNames, bearerFound, cookieFound,
    missingParts.
  destruct (firstCapture Patterns.authPatterns _) as [g|];
    destruct (firstCapture Patterns.cookiePatterns _) as [h|];
    rewrite ?truthy_app_bearer; cbn [truthy negb orb app];
    try reflexivity.
  destruct (truthy (trim h)); reflexivity.
Qed.

(** C8: [parseCurlCommand] throws exactly when a part of the credential is
    not found, and the first line of the message then names the missing
    parts and no other: "Cookie" alone when only the bearer token is
    found, "Authorization" and "Cookie" when neither is, "Authorization"
    alone when only the cookie is; it returns when both are found. *)
Theorem parseCurlCommand_missing (curlCommand : jsstring) :
  (bearerFound curlCommand = true -> cookieFound curlCommand = false ->
   parseCurlCommand curlCommand = Throw (extractionMessage [lit "Cookie"]))
  /\ (bearerFound curlCommand = false -> cookieFound curlCommand = false ->
      parseCurlCommand curlCommand
      = Throw (extractionMessage [lit "Authorization"; lit "Cookie"]))
  /\ (bearerFound curlCommand = false -> cookieFound curlCommand = true ->
      parseCurlCommand curlCommand
      = Throw (extractionMessage [lit "Authorization"]))
  /\ (bearerFound curlCommand = true -> cookieFound curlCommand = true ->
      exists authInfo, parseCurlCommand curlCommand = Normal authInfo)
  /\ (includes (extractionMessage [lit "Cookie"]) (lit "Cookie") = true
      /\ includes (extractionMessage [lit "Cookie"]) (lit "Authorization")
         = false)
  /\ (includes (extractionMessage [lit "Authorization"])
        (lit "Authorization") = true
      /\ includes (extractionMessage [lit "Authorization"]) (lit "Cookie")
         = false)
  /\ (includes (extractionMessage [lit "Authorization"; lit "Cookie"])
        (lit "Authorization 和 Cookie") = true).
Proof.
  rewrite parseCurlCommand_cases. unfold missingNames.
  repeat split; try (intros -> ->; cbn [app]; eauto);
    vm_compute; reflexivity.
Qed.

Lemma parseCurlCommand_missing_witness :
  parseCurlCommand bearerOnlyCommand
    = Throw (extractionMessage [lit "Cookie"])
  /\ parseCurlCommand bareCommand
     = Throw (extractionMessage [lit "Authorization"; lit "Cookie"])
  /\ exists authInfo, parseCurlCommand bothCommand = Normal authInfo.
Proof.
  split; [|split].
  - apply (proj1 (parseCurlCommand_missing bearerOnlyCommand));
      vm_compute; reflexivity.
  - apply (proj1 (proj2 (parseCurlCommand_missing bareCommand)));
      vm_compute; reflexivity.
  - apply (proj1 (proj2 (proj2 (proj2
             (parseCurlCommand_missing bothCommand)))));
      vm_compute; reflexivity.
Defined.

(* ------------------------------------------------------------------ *)
(** ** The matcher *)

Section MatcherFacts.

Import RegExp.

Variable ic : bool.

Lemma matchTerms_chars (p : jsstring) (ts : list term)
    (cap : option jsstring) (s : jsstring) :
  matchTerms ic (chars p ++ ts) cap s
  = match stripLike ic p s with
    | Some r => matchTerms ic ts cap r
    | None => None
    end.
Proof.
  revert s. induction p as [|x p IH]; intros s; [reflexivity|].
  destruct s as [|y s]; [reflexivity|].
  cbn [chars map app matchTerms quant class captures classMatches stripLike].
  destruct (canonicalize ic x =? canonicalize ic y)%N; [|reflexivity].
  apply IH.
Qed.

(** When the continuation fails on every input that starts with a unit
    of the class, a greedy repetition takes the whole run. *)
Lemma repeatMatcher_span (cl : charClass)
    (k : jsstring -> jsstring -> option matchState) :
  (forall taken c r, classMatches ic cl c = true -> k taken (c :: r) = None) ->
  forall s taken,
    repeatMatcher ic cl k taken s
    = k (rev (fst (span (classMatches ic cl) s)) ++ taken)
        (snd (span (classMatches ic cl) s)).
Proof.
  intros Hk. induction s as [|c r IH]; intros taken; [reflexivity|].
  cbn [repeatMatcher span].
  destruct (classMatches ic cl c) eqn:E; [|reflexivity].
  rewrite IH, (Hk taken c r E).
  destruct (span (classMatches ic cl) r) as [a b]. cbn [fst snd rev].
  rewrite <- app_assoc. cbn [app].
  now destruct (k _ _).
Qed.

(** When the continuation succeeds after the whole run, that is the
    result. *)
Lemma repeatMatcher_greedy (cl : charClass)
    (k : jsstring -> jsstring -> option matchState) (m : matchState) :
  forall s taken,
    k (rev (fst (span (classMatches ic cl) s)) ++ taken)
      (snd (span (classMatches ic cl) s)) = Some m ->
    repeatMatcher ic cl k taken s = Some m.
Proof.
  induction s as [|c r IH]; intros taken H; [exact H|].
  cbn [repeatMatcher]. cbn [span] in H.
  destruct (classMatches ic cl c) eqn:E; [|exact H].
  destruct (span (classMatches ic cl) r) as [a b] eqn:Es.
  cbn [fst snd rev] in H. rewrite <- app_assoc in H. cbn [app] in H.
  rewrite (IH (c :: taken)); [reflexivity|]. exact H.
Qed.

End MatcherFacts.

(* ------------------------------------------------------------------ *)
(** ** Replacement of all matches *)

Section ReplaceFacts.

Import RegExp.

Variables (re : regexp) (replacement : jsstring).

Lemma replaceFrom_skip (x r : jsstring) :
  replaceFrom re replacement (List.length x) (x ++ r)
  = replaceFrom re replacement O r.
Proof. induction x as [|c x IH]; [reflexivity|]. exact IH. Qed.

Lemma replaceFrom_hit (c : N) (m r : jsstring) (cap : option jsstring) :
  matchAt re (c :: m ++ r) = Some (cap, r) ->
  replaceFrom re replacement O (c :: m ++ r)
  = replacement ++ replaceFrom re replacement O r.
Proof.
  intros H. cbn [replaceFrom app]. rewrite H.
  replace (List.length (c :: m ++ r) - List.length r)%nat
    with (S (List.length m)).
  - now rewrite replaceFrom_skip.
  - cbn [List.length]. rewrite length_app. lia.
Qed.

Lemma replaceFrom_miss (c : N) (r : jsstring) :
  matchAt re (c :: r) = None ->
  replaceFrom re replacement O (c :: r)
  = c :: replaceFrom re replacement O r.
Proof. intros H. cbn [replaceFrom]. now rewrite H. Qed.

(** Units at which the pattern cannot start are copied. *)
Lemma replaceFrom_copy (inert : N -> bool) (x r : jsstring) :
  (forall c t, inert c = true -> matchAt re (c :: t) = None) ->
  forallb inert x = true ->
  replaceFrom re replacement O (x ++ r)
  = x ++ replaceFrom re replacement O r.
Proof.
  intros Hi. induction x as [|c x IH]; intros Hx; [reflexivity|].
  cbn [forallb] in Hx. apply andb_true_iff in Hx as [Hc Hx].
  cbn [app]. rewrite replaceFrom_miss by (apply Hi; exact Hc).
  now rewrite IH.
Qed.

End ReplaceFacts.

Lemma span_run (f : N -> bool) (run next : jsstring) :
  forallb f run = true ->
  match next with [] => true | c :: _ => negb (f c) end = true ->
  span f (run ++ next) = (run, next).
Proof.
  intros Hr Hn. induction run as [|c run IH]; cbn [app span].
  - destruct next as [|c r]; [reflexivity|].
    apply negb_true_iff in Hn. cbn [span]. now rewrite Hn.
  - cbn [forallb] in Hr. apply andb_true_iff in Hr as [Hc Hr].
    now rewrite Hc, IH.
Qed.

Lemma span_ext (f g : N -> bool) (s : jsstring) :
  (forall c, f c = g c) -> span f s = span g s.
Proof.
  intros H. induction s as [|c r IH]; [reflexivity|].
  cbn [span]. now rewrite H, IH.
Qed.

Lemma span_space (ic : bool) (s : jsstring) :
  span (RegExp.classMatches ic RegExp.Space) s = span isWhiteSpace s.
Proof. apply span_ext. reflexivity. Qed.

Lemma whiteSpace_not_backslash (c : N) :
  isWhiteSpace c = true -> notBackslash c = true.
Proof.
  intros H. unfold notBackslash. apply negb_true_iff, N.eqb_neq.
  intros ->. discriminate.
Qed.

Lemma startsSolid_not_lineFeed (c : N) (r : jsstring) :
  startsSolid (c :: r) = true -> (10 =? c)%N = false.
Proof.
  cbn [startsSolid]. intros H. apply N.eqb_neq. intros <-. discriminate.
Qed.

Section Normalization.

Import RegExp Patterns.

(** After the backslash of a continuation: the white space that follows
    is taken whole, provided it holds a line feed. *)
Lemma continuation_run (run next : jsstring) (taken : jsstring) :
  forallb isWhiteSpace run = true -> startsSolid next = true ->
  repeatMatcher false Space
    (fun _ rest =>
       matchTerms false (chars [lineFeed] ++ spaces Star) None rest)
    taken (run ++ next)
  = if existsb (N.eqb 10) run then Some (None, next) else None.
Proof.
  intros Hrun Hnext. revert taken.
  induction run as [|c run IH]; intros taken.
  - cbn [app existsb]. destruct next as [|d next]; [reflexivity|].
    cbn [repeatMatcher classMatches]. cbn [startsSolid] in Hnext.
    apply negb_true_iff in Hnext. rewrite Hnext.
    cbn [chars map app matchTerms quant class classMatches canonicalize].
    unfold lineFeed.
    replace (10 =? d)%N with false; [reflexivity|].
    symmetry. apply N.eqb_neq. intros <-. discriminate.
  - cbn [forallb] in Hrun. apply andb_true_iff in Hrun as [Hc Hrun].
    cbn [app repeatMatcher classMatches existsb]. rewrite Hc.
    rewrite (IH Hrun).
    destruct (existsb (N.eqb 10) run); [now rewrite orb_true_r|].
    rewrite orb_false_r.
    cbn [chars map app matchTerms quant class classMatches canonicalize
         captures spaces].
    unfold lineFeed. destruct (10 =? c)%N; [|reflexivity].
    apply repeatMatcher_greedy. rewrite span_space.
    rewrite (span_run isWhiteSpace run next Hrun).
    + reflexivity.
    + exact Hnext.
Qed.

Lemma continuation_hit (w1 w2 next : jsstring) :
  forallb isWhiteSpace w1 = true -> forallb isWhiteSpace w2 = true ->
  startsSolid next = true ->
  matchAt continuation (backslash :: (w1 ++ lineFeed :: w2) ++ next)
  = Some (None, next).
Proof.
  intros H1 H2 Hn. unfold matchAt, continuation, sensitive.
  cbn [terms ignoreCase chars map app matchTerms quant class captures
       classMatches canonicalize spaces].
  rewrite N.eqb_refl.
  refine (eq_trans (continuation_run (w1 ++ lineFeed :: w2) next [] _ Hn) _).
  - rewrite forallb_app, H1. cbn [forallb andb]. exact H2.
  - rewrite existsb_app. cbn [existsb]. unfold lineFeed.
    rewrite N.eqb_refl, orb_true_r. reflexivity.
Qed.

Lemma continuation_miss (c : N) (t : jsstring) :
  notBackslash c = true -> matchAt continuation (c :: t) = None.
Proof.
  unfold notBackslash. intros H. apply negb_true_iff in H.
  unfold matchAt, continuation, sensitive.
  cbn [terms ignoreCase chars map app matchTerms quant class captures
       classMatches canonicalize].
  unfold backslash. rewrite N.eqb_sym, H. reflexivity.
Qed.

Lemma backslashNewline_miss (c : N) (t : jsstring) :
  notBackslash c = true -> matchAt backslashNewline (c :: t) = None.
Proof.
  unfold notBackslash. intros H. apply negb_true_iff in H.
  unfold matchAt, backslashNewline, sensitive.
  cbn [terms ignoreCase chars map matchTerms quant class captures
       classMatches canonicalize].
  unfold backslash. rewrite N.eqb_sym, H. reflexivity.
Qed.

Lemma whiteSpaceRun_miss (c : N) (t : jsstring) :
  isWhiteSpace c = false -> matchAt whiteSpaceRun (c :: t) = None.
Proof.
  intros H. unfold matchAt, whiteSpaceRun, sensitive.
  cbn [terms ignoreCase spaces matchTerms quant class captures
       classMatches].
  now rewrite H.
Qed.

Lemma whiteSpaceRun_hit (c : N) (run next : jsstring) :
  isWhiteSpace c = true -> forallb isWhiteSpace run = true ->
  startsSolid next = true ->
  matchAt whiteSpaceRun (c :: run ++ next) = Some (None, next).
Proof.
  intros Hc Hrun Hn. unfold matchAt, whiteSpaceRun, sensitive.
  cbn [terms ignoreCase spaces matchTerms quant class captures
       classMatches].
  rewrite Hc. apply repeatMatcher_greedy. rewrite span_space.
  rewrite (span_run isWhiteSpace run next Hrun Hn). reflexivity.
Qed.

End Normalization.

(* ------------------------------------------------------------------ *)
(** ** Normalization of a well-formed description *)

Lemma plainUnit_solid (c : N) : plainUnit c = true -> isWhiteSpace c = false.
Proof.
  unfold plainUnit. rewrite !andb_true_iff, negb_true_iff. tauto.
Qed.

Lemma plainUnit_notBackslash (c : N) :
  plainUnit c = true -> notBackslash c = true.
Proof. unfold plainUnit. rewrite !andb_true_iff. tauto. Qed.

Lemma plainUnit_notQuote (c : N) : plainUnit c = true -> isQuote c = false.
Proof.
  unfold plainUnit. rewrite !andb_true_iff, !negb_true_iff. tauto.
Qed.

Lemma textUnit_solid (q c : N) : textUnit q c = true -> isWhiteSpace c = false.
Proof.
  unfold textUnit. rewrite !andb_true_iff, negb_true_iff. tauto.
Qed.

Lemma textUnit_notBackslash (q c : N) :
  textUnit q c = true -> notBackslash c = true.
Proof. unfold textUnit. rewrite !andb_true_iff. tauto. Qed.

Lemma textUnit_other (q c : N) : textUnit q c = true -> (c =? q)%N = false.
Proof.
  unfold textUnit. rewrite !andb_true_iff, !negb_true_iff. tauto.
Qed.

Lemma isQuote_solid (q : N) : isQuote q = true -> isWhiteSpace q = false.
Proof.
  unfold isQuote. rewrite orb_true_iff, !N.eqb_eq. intros [-> | ->];
    reflexivity.
Qed.

Lemma isQuote_notBackslash (q : N) :
  isQuote q = true -> notBackslash q = true.
Proof.
  unfold isQuote. rewrite orb_true_iff, !N.eqb_eq. intros [-> | ->];
    reflexivity.
Qed.

(** Induction along the shape of a spaced text. *)
Lemma spacedText_induction (q : N) (P : jsstring -> Prop) :
  P [] ->
  (forall c, textUnit q c = true -> P [c]) ->
  (forall c r, textUnit q c = true -> r <> [] -> spacedText q r = true ->
               P r -> P (c :: 32%N :: r)) ->
  (forall c d r, textUnit q c = true -> (d =? 32)%N = false ->
                 spacedText q (d :: r) = true -> P (d :: r) ->
                 P (c :: d :: r)) ->
  forall t, spacedText q t = true -> P t.
Proof.
  intros Hnil Hone Hblank Hnext t.
  remember (List.length t) as n eqn:Hn. revert t Hn.
  induction n as [n IH] using lt_wf_ind. intros t Hn Ht.
  destruct t as [|c [|d r]]; [exact Hnil| |].
  - apply Hone. cbn [spacedText] in Ht. now rewrite andb_true_r in Ht.
  - cbn [spacedText] in Ht. apply andb_true_iff in Ht as [Hc Ht].
    destruct (d =? 32)%N eqn:Ed.
    + apply N.eqb_eq in Ed. subst d. destruct r as [|e r]; [discriminate|].
      apply Hblank; [exact Hc | discriminate | exact Ht |].
      apply (IH (List.length (e :: r))); [subst n; simpl; lia | reflexivity
                                         | exact Ht].
    + apply Hnext; [exact Hc | exact Ed | exact Ht |].
      apply (IH (List.length (d :: r))); [subst n; simpl; lia | reflexivity
                                         | exact Ht].
Qed.

Lemma spacedText_starts (q : N) (t : jsstring) :
  spacedText q t = true -> startsSolid t = true.
Proof.
  destruct t as [|c r]; [reflexivity|]. cbn [spacedText startsSolid].
  intros H. apply andb_true_iff in H as [H _].
  now rewrite (textUnit_solid _ _ H).
Qed.

Lemma spacedText_notBackslash (q : N) (t : jsstring) :
  spacedText q t = true -> forallb notBackslash t = true.
Proof.
  apply spacedText_induction
    with (P := fun t => forallb notBackslash t = true).
  - reflexivity.
  - intros c Hc. cbn [forallb]. now rewrite (textUnit_notBackslash _ _ Hc).
  - intros c r Hc _ _ IH. cbn [forallb].
    now rewrite (textUnit_notBackslash _ _ Hc), IH.
  - intros c d r Hc _ _ IH. cbn [forallb] in *.
    now rewrite (textUnit_notBackslash _ _ Hc), IH.
Qed.

(** The parts of a well-formed quoted argument. *)
Lemma wfToken_quoted (q : N) (text : jsstring) :
  wfToken (Quoted q text) = true ->
  isQuote q = true /\ spacedText q text = true /\ quietText text = true.
Proof.
  cbn [wfToken]. rewrite !andb_true_iff. tauto.
Qed.

Lemma tokenText_notBackslash (t : token) :
  wfToken t = true -> forallb notBackslash (tokenText t) = true.
Proof.
  destruct t as [w|q text]; intros H;
    [cbn [wfToken tokenText] in *; apply andb_true_iff in H as [H1 H2]
    |apply wfToken_quoted in H as (H1 & H2 & _); cbn [tokenText]].
  - rewrite forallb_forall in *. intros c Hc.
    apply plainUnit_notBackslash, H2, Hc.
  - cbn [forallb]. rewrite forallb_app. cbn [forallb].
    now rewrite (isQuote_notBackslash _ H1), (spacedText_notBackslash _ _ H2).
Qed.

Lemma tokenText_starts (t : token) (x : jsstring) :
  wfToken t = true -> startsSolid (tokenText t ++ x) = true.
Proof.
  destruct t as [w|q text]; intros H;
    [cbn [wfToken tokenText] in *; apply andb_true_iff in H as [H1 H2]
    |apply wfToken_quoted in H as (H1 & H2 & _); cbn [tokenText]].
  - destruct w as [|c w]; [discriminate|].
    cbn [forallb] in H2. apply andb_true_iff in H2 as [H2 _].
    cbn [app startsSolid]. now rewrite (plainUnit_solid _ H2).
  - cbn [app startsSolid]. now rewrite (isQuote_solid _ H1).
Qed.

Section NormalizeDescription.

Import RegExp Patterns.

Lemma forallb_impl (f g : N -> bool) (s : jsstring) :
  (forall c, f c = true -> g c = true) ->
  forallb f s = true -> forallb g s = true.
Proof.
  intros H. rewrite !forallb_forall. intros Hs c Hc. apply H, Hs, Hc.
Qed.

Lemma step1_others (items : list (separator * token)) (tail : jsstring) :
  forallb (fun st => wfSeparator (fst st) && wfToken (snd st)) items = true ->
  forallb isWhiteSpace tail = true ->
  replaceFrom continuation (lit " ") O (othersText items ++ tail)
  = othersBlank items ++ tail.
Proof.
  intros Hitems Htail. induction items as [|[s t] items IH].
  - cbn [othersText othersBlank flat_map app].
    rewrite <- (app_nil_r tail) at 1.
    rewrite (replaceFrom_copy continuation (lit " ") notBackslash tail []
               continuation_miss).
    + now rewrite app_nil_r.
    + exact (forallb_impl _ _ _ whiteSpace_not_backslash Htail).
  - cbn [forallb fst snd] in Hitems.
    apply andb_true_iff in Hitems as [Hst Hitems].
    apply andb_true_iff in Hst as [Hs Ht]. specialize (IH Hitems).
    unfold othersText, othersBlank in *. cbn [flat_map fst snd].
    rewrite <- !app_assoc.
    assert (Htok : forall x,
      replaceFrom continuation (lit " ") O (tokenText t ++ x)
      = tokenText t ++ replaceFrom continuation (lit " ") O x).
    { intros x. apply (replaceFrom_copy _ _ notBackslash);
        [exact continuation_miss | exact (tokenText_notBackslash _ Ht)]. }
    destruct s as [w|w0 w1 w2]; cbn [separatorText separatorBlank wfSeparator]
      in *.
    + apply andb_true_iff in Hs as [_ Hw].
      rewrite (replaceFrom_copy continuation (lit " ") notBackslash w _
                 continuation_miss)
        by exact (forallb_impl _ _ _ whiteSpace_not_backslash Hw).
      now rewrite Htok, IH.
    + apply andb_true_iff in Hs as [Hs H2].
      apply andb_true_iff in Hs as [H0 H1].
      rewrite <- !app_assoc.
      rewrite (replaceFrom_copy continuation (lit " ") notBackslash w0 _
                 continuation_miss)
        by exact (forallb_impl _ _ _ whiteSpace_not_backslash H0).
      cbn [app].
      rewrite (@replaceFrom_hit continuation (lit " ") 92%N
                 (w1 ++ 10%N :: w2) _ None).
      * now rewrite Htok, IH.
      * apply continuation_hit; [exact H1 | exact H2 |].
        apply tokenText_starts, Ht.
Qed.

Lemma wfDescription_parts (d : description) :
  wfDescription d = true ->
  forallb isWhiteSpace (lead d) = true
  /\ wfToken (firstToken d) = true
  /\ forallb (fun st => wfSeparator (fst st) && wfToken (snd st))
       (others d) = true
  /\ forallb isWhiteSpace (trail d) = true.
Proof. unfold wfDescription. rewrite !andb_true_iff. tauto. Qed.

Lemma step1 (d : description) :
  wfDescription d = true ->
  replace continuation (lit " ") (descriptionText d) = afterContinuations d.
Proof.
  intros H. destruct (wfDescription_parts _ H) as (Hl & Hf & Ho & Ht).
  unfold replace, descriptionText, afterContinuations.
  rewrite (replaceFrom_copy continuation (lit " ") notBackslash (lead d) _
             continuation_miss)
    by exact (forallb_impl _ _ _ whiteSpace_not_backslash Hl).
  rewrite (replaceFrom_copy continuation (lit " ") notBackslash
             (tokenText (firstToken d)) _ continuation_miss)
    by exact (tokenText_notBackslash _ Hf).
  now rewrite step1_others.
Qed.

Lemma othersBlank_notBackslash (items : list (separator * token)) :
  forallb (fun st => wfSeparator (fst st) && wfToken (snd st)) items = true ->
  forallb notBackslash (othersBlank items) = true.
Proof.
  induction items as [|[s t] items IH]; [reflexivity|].
  cbn [forallb fst snd]. intros H. apply andb_true_iff in H as [Hst H].
  apply andb_true_iff in Hst as [Hs Ht].
  unfold othersBlank in *. cbn [flat_map fst snd].
  rewrite !forallb_app, (tokenText_notBackslash _ Ht), (IH H), !andb_true_r.
  destruct s as [w|w0 w1 w2]; cbn [separatorBlank wfSeparator] in *.
  - apply andb_true_iff in Hs as [_ Hw].
    exact (forallb_impl _ _ _ whiteSpace_not_backslash Hw).
  - apply andb_true_iff in Hs as [Hs _].
    apply andb_true_iff in Hs as [H0 _].
    rewrite forallb_app. cbn [forallb].
    now rewrite (forallb_impl _ _ _ whiteSpace_not_backslash H0).
Qed.

Lemma step2 (d : description) :
  wfDescription d = true ->
  replace backslashNewline (lit " ") (afterContinuations d)
  = afterContinuations d.
Proof.
  intros H. destruct (wfDescription_parts _ H) as (Hl & Hf & Ho & Ht).
  unfold replace. rewrite <- (app_nil_r (afterContinuations d)) at 1.
  rewrite (replaceFrom_copy backslashNewline (lit " ") notBackslash _ []
             backslashNewline_miss).
  - now rewrite app_nil_r.
  - unfold afterContinuations. rewrite !forallb_app.
    rewrite (forallb_impl _ _ _ whiteSpace_not_backslash Hl).
    rewrite (tokenText_notBackslash _ Hf), (othersBlank_notBackslash _ Ho).
    now rewrite (forallb_impl _ _ _ whiteSpace_not_backslash Ht).
Qed.

Lemma collapse_run (w next : jsstring) :
  w <> [] -> forallb isWhiteSpace w = true -> startsSolid next = true ->
  collapse (w ++ next) = 32%N :: collapse next.
Proof.
  intros Hne Hw Hn. destruct w as [|c w]; [contradiction|].
  cbn [forallb] in Hw. apply andb_true_iff in Hw as [Hc Hw].
  unfold collapse. cbn [app].
  rewrite (@replaceFrom_hit whiteSpaceRun (lit " ") c w next None).
  - reflexivity.
  - now apply whiteSpaceRun_hit.
Qed.

Lemma collapse_solid (x next : jsstring) :
  forallb (fun c => negb (isWhiteSpace c)) x = true ->
  collapse (x ++ next) = x ++ collapse next.
Proof.
  unfold collapse. apply replaceFrom_copy. intros c t Hc.
  apply whiteSpaceRun_miss. now apply negb_true_iff.
Qed.

Lemma collapse_unit (c : N) (next : jsstring) :
  isWhiteSpace c = false -> collapse (c :: next) = c :: collapse next.
Proof.
  intros Hc. unfold collapse. apply replaceFrom_miss.
  now apply whiteSpaceRun_miss.
Qed.

Lemma collapse_spaced (q : N) (t : jsstring) :
  spacedText q t = true ->
  forall next, collapse (t ++ next) = t ++ collapse next.
Proof.
  revert t.
  refine (@spacedText_induction q
            (fun t => forall next, collapse (t ++ next) = t ++ collapse next)
            _ _ _ _).
  - reflexivity.
  - intros c Hc next. cbn [app].
    apply collapse_unit, (textUnit_solid q), Hc.
  - intros c r Hc Hne Hr IH next. cbn [app].
    rewrite collapse_unit by (apply (textUnit_solid q), Hc).
    change (32%N :: r ++ next) with ([32%N] ++ (r ++ next)).
    rewrite collapse_run; [now rewrite IH | discriminate | reflexivity |].
    destruct r as [|e r]; [contradiction|].
    cbn [app startsSolid]. cbn [spacedText] in Hr.
    apply andb_true_iff in Hr as [He _].
    now rewrite (textUnit_solid _ _ He).
  - intros c d r Hc _ _ IH next. cbn [app].
    rewrite collapse_unit by (apply (textUnit_solid q), Hc).
    f_equal. apply IH.
Qed.

Lemma collapse_token (t : token) (next : jsstring) :
  wfToken t = true ->
  collapse (tokenText t ++ next) = tokenText t ++ collapse next.
Proof.
  destruct t as [w|q text]; cbn [wfToken tokenText];
    intros H; apply andb_true_iff in H as [H1 H2].
  - apply collapse_solid.
    refine (forallb_impl _ _ _ _ H2). intros c Hc.
    apply negb_true_iff, plainUnit_solid, Hc.
  - apply andb_true_iff in H2 as [H2 _].
    cbn [app]. rewrite collapse_unit by (apply isQuote_solid, H1).
    rewrite <- app_assoc, (collapse_spaced q) by exact H2.
    cbn [app]. rewrite collapse_unit by (apply isQuote_solid, H1).
    now rewrite <- app_assoc.
Qed.

Lemma separatorBlank_run (s : separator) :
  wfSeparator s = true ->
  separatorBlank s <> [] /\ forallb isWhiteSpace (separatorBlank s) = true.
Proof.
  destruct s as [w|w0 w1 w2]; cbn [wfSeparator separatorBlank]; intros H.
  - apply andb_true_iff in H as [Hne Hw]. split; [|exact Hw].
    destruct w; [discriminate|discriminate].
  - apply andb_true_iff in H as [H _]. apply andb_true_iff in H as [H0 _].
    split; [destruct w0; discriminate|].
    rewrite forallb_app, H0. reflexivity.
Qed.

Lemma collapse_blank_tail (w : jsstring) :
  forallb isWhiteSpace w = true -> collapse w = blankIf w.
Proof.
  intros Hw. destruct w as [|c w]; [reflexivity|].
  rewrite <- (app_nil_r (c :: w)).
  rewrite collapse_run; [reflexivity | discriminate | exact Hw | reflexivity].
Qed.

Lemma collapse_others (items : list (separator * token)) (tail : jsstring) :
  forallb (fun st => wfSeparator (fst st) && wfToken (snd st)) items = true ->
  forallb isWhiteSpace tail = true ->
  collapse (othersBlank items ++ tail)
  = joinedTail (map snd items) ++ blankIf tail.
Proof.
  intros Hitems Htail. induction items as [|[s t] items IH].
  - cbn [othersBlank flat_map map joinedTail app].
    now apply collapse_blank_tail.
  - cbn [forallb fst snd] in Hitems.
    apply andb_true_iff in Hitems as [Hst Hitems].
    apply andb_true_iff in Hst as [Hs Ht]. specialize (IH Hitems).
    unfold othersBlank, joinedTail in *. cbn [flat_map map fst snd].
    rewrite <- !app_assoc.
    destruct (separatorBlank_run _ Hs) as [Hne Hws].
    rewrite collapse_run;
      [| exact Hne | exact Hws | apply tokenText_starts, Ht].
    rewrite collapse_token by exact Ht. rewrite IH.
    cbn [app]. rewrite <- ?app_assoc. reflexivity.
Qed.

Lemma step3 (d : description) :
  wfDescription d = true ->
  replace whiteSpaceRun (lit " ") (afterContinuations d)
  = blankIf (lead d) ++ joined (tokens d) ++ blankIf (trail d).
Proof.
  intros H. destruct (wfDescription_parts _ H) as (Hl & Hf & Ho & Ht).
  unfold replace, afterContinuations, tokens, joined.
  fold (collapse (lead d ++ tokenText (firstToken d)
                  ++ othersBlank (others d) ++ trail d)).
  assert (Hrest :
    collapse (tokenText (firstToken d) ++ othersBlank (others d) ++ trail d)
    = (tokenText (firstToken d) ++ joinedTail (map snd (others d)))
      ++ blankIf (trail d)).
  { rewrite collapse_token by exact Hf.
    rewrite collapse_others by assumption. now rewrite app_assoc. }
  destruct (lead d) as [|c w] eqn:El.
  - cbn [app blankIf truthy]. exact Hrest.
  - rewrite collapse_run;
      [| discriminate | exact Hl | apply tokenText_starts, Hf].
    rewrite Hrest. reflexivity.
Qed.

Lemma endsSolid_app (x y : jsstring) : endsSolid y -> endsSolid (x ++ y).
Proof.
  intros (c & r & Hr & Hc). exists c, (r ++ rev x).
  now rewrite rev_app_distr, Hr.
Qed.

Lemma tokenText_ends (t : token) : wfToken t = true -> endsSolid (tokenText t).
Proof.
  destruct t as [w|q text]; cbn [wfToken tokenText];
    intros H; apply andb_true_iff in H as [H1 H2].
  - destruct w as [|c w]; [discriminate|].
    destruct (exists_last (l := c :: w)) as (w' & e & Hw); [discriminate|].
    rewrite Hw in *. exists e, (rev w'). split.
    + now rewrite rev_app_distr.
    + rewrite forallb_app in H2. apply andb_true_iff in H2 as [_ H2].
      cbn [forallb] in H2. rewrite andb_true_r in H2.
      apply plainUnit_solid, H2.
  - change (q :: text ++ [q]) with ((q :: text) ++ [q]).
    apply endsSolid_app. exists q, []. split; [reflexivity|].
    apply isQuote_solid, H1.
Qed.

Lemma joinedTail_ends (ts : list token) (x : jsstring) :
  forallb wfToken ts = true -> endsSolid x -> endsSolid (x ++ joinedTail ts).
Proof.
  revert x. induction ts as [|t ts IH]; intros x Hts Hx.
  - cbn [joinedTail flat_map]. now rewrite app_nil_r.
  - cbn [forallb] in Hts. apply andb_true_iff in Hts as [Ht Hts].
    unfold joinedTail in *. cbn [flat_map].
    change (x ++ (32%N :: tokenText t) ++ flat_map
                  (fun t0 => 32%N :: tokenText t0) ts)
      with (x ++ (32%N :: tokenText t) ++ joinedTail ts).
    rewrite app_assoc. apply IH; [exact Hts|].
    apply endsSolid_app.
    change (32%N :: tokenText t) with ([32%N] ++ tokenText t).
    apply endsSolid_app, tokenText_ends, Ht.
Qed.

Lemma trimStart_solid (s : jsstring) :
  startsSolid s = true -> trimStart s = s.
Proof.
  destruct s as [|c r]; [reflexivity|]. cbn [startsSolid trimStart].
  intros H. apply negb_true_iff in H. now rewrite H.
Qed.

Lemma trim_blanks (l t body : jsstring) :
  body <> [] -> startsSolid body = true -> endsSolid body ->
  trim (blankIf l ++ body ++ blankIf t) = body.
Proof.
  intros Hne Hs (c & r & Hr & Hc). unfold trim, trimEnd.
  assert (H1 : trimStart (blankIf l ++ body ++ blankIf t)
               = body ++ blankIf t).
  { assert (Hb : trimStart (body ++ blankIf t) = body ++ blankIf t).
    { apply trimStart_solid. destruct body; [contradiction|exact Hs]. }
    unfold blankIf at 1. destruct (truthy l); [|exact Hb].
    cbn [app trimStart isWhiteSpace]. exact Hb. }
  rewrite H1, rev_app_distr, Hr.
  assert (H2 : trimStart (rev (blankIf t) ++ c :: r) = c :: r).
  { assert (Hb : trimStart (c :: r) = c :: r).
    { cbn [trimStart]. now rewrite Hc. }
    unfold blankIf. destruct (truthy t); [|exact Hb].
    cbn [rev app trimStart isWhiteSpace]. exact Hb. }
  rewrite H2, <- Hr. apply rev_involutive.
Qed.

Lemma wfDescription_tokens (d : description) :
  wfDescription d = true -> forallb wfToken (tokens d) = true.
Proof.
  intros H. destruct (wfDescription_parts _ H) as (_ & Hf & Ho & _).
  unfold tokens. cbn [forallb]. rewrite Hf. cbn [andb].
  rewrite forallb_forall in *. intros t Ht.
  apply in_map_iff in Ht as ([s t'] & <- & Hin).
  specialize (Ho _ Hin). cbn [fst snd] in *.
  now apply andb_true_iff in Ho as [_ Ho].
Qed.

(** The normalization maps a well-formed description to its tokens, one
    blank between them, whatever separates them in the description. *)
Lemma normalizeCommand_description (d : description) :
  wfDescription d = true ->
  normalizeCommand (descriptionText d) = joined (tokens d).
Proof.
  intros H. unfold normalizeCommand.
  rewrite step1, step2, step3 by exact H.
  pose proof (wfDescription_tokens _ H) as Hts.
  unfold tokens in *. cbn [forallb] in Hts.
  apply andb_true_iff in Hts as [Hf Hts]. cbn [joined].
  apply trim_blanks.
  - pose proof (tokenText_starts (firstToken d) [] Hf) as Hs.
    rewrite app_nil_r in Hs.
    destruct (tokenText (firstToken d)) eqn:E; [|discriminate].
    destruct (firstToken d) as [w|q text]; cbn [wfToken tokenText] in *;
      [destruct w; discriminate | discriminate].
  - apply tokenText_starts, Hf.
  - apply joinedTail_ends; [exact Hts | apply tokenText_ends, Hf].
Qed.

End NormalizeDescription.

(* ------------------------------------------------------------------ *)
(** ** The credential patterns on normalized text *)

Section ShapeFacts.

Import RegExp.

Lemma lowercase_solid (c : N) :
  (97 <=? c)%N && (c <=? 122)%N = true ->
  isWhiteSpace c = false /\ isQuote c = false.
Proof.
  intros H. apply andb_true_iff in H as [H1 H2].
  apply N.leb_le in H1, H2.
  assert (Hk : (c - 97 < N.of_nat 26)%N) by (simpl; lia).
  replace c with (97 + (c - 97))%N by lia.
  revert Hk. generalize (c - 97)%N. clear.
  apply (@below_cases _ 26). intros k Hk.
  pose (f := fun k : nat =>
    negb (isWhiteSpace (97 + N.of_nat k))
    && negb (isQuote (97 + N.of_nat k))).
  assert (H : f k = true).
  { apply (@forallb_seq_below f 26); [vm_compute; reflexivity | exact Hk]. }
  unfold f in H. apply andb_true_iff in H as [Ha Hb].
  now rewrite negb_true_iff in Ha, Hb.
Qed.

(** White space and quotes have no other case. *)
Lemma canonicalize_fixed (ic : bool) (c : N) :
  isWhiteSpace c || isQuote c = true -> canonicalize ic c = c.
Proof.
  intros H. unfold canonicalize, asciiUpperUnit.
  destruct ic; [|reflexivity].
  destruct ((97 <=? c)%N && (c <=? 122)%N) eqn:E; [|reflexivity].
  destruct (lowercase_solid _ E) as [Hw Hq]. rewrite Hw, Hq in H.
  discriminate.
Qed.

Lemma solidUnit_match (ic : bool) (f c : N) :
  solidUnit ic f = true ->
  (canonicalize ic f =? canonicalize ic c)%N = true ->
  isWhiteSpace c = false /\ isQuote c = false.
Proof.
  unfold solidUnit. rewrite andb_true_iff, !negb_true_iff.
  intros [Hw Hq] He. apply N.eqb_eq in He.
  destruct (isWhiteSpace c || isQuote c) eqn:E.
  - rewrite (canonicalize_fixed ic c E) in He. rewrite He in Hw, Hq.
    rewrite Hw, Hq in E. discriminate.
  - now apply orb_false_iff in E.
Qed.

Lemma quote_match (ic : bool) (q c : N) :
  isQuote q = true ->
  (canonicalize ic q =? canonicalize ic c)%N = (q =? c)%N.
Proof.
  intros Hq. rewrite (canonicalize_fixed ic q) by (rewrite Hq; apply orb_true_r).
  destruct (q =? c)%N eqn:E.
  - apply N.eqb_eq in E. subst c.
    rewrite (canonicalize_fixed ic q) by (rewrite Hq; apply orb_true_r).
    apply N.eqb_refl.
  - apply N.eqb_neq. intros Hc. apply N.eqb_neq in E. apply E.
    unfold canonicalize, asciiUpperUnit in Hc.
    destruct ic; [|exact Hc].
    destruct ((97 <=? c)%N && (c <=? 122)%N) eqn:Er; [|exact Hc].
    apply andb_true_iff in Er as [H1 H2]. apply N.leb_le in H1, H2.
    unfold isQuote in Hq. apply orb_true_iff in Hq.
    rewrite !N.eqb_eq in Hq. lia.
Qed.

Lemma stripLike_refl (ic : bool) (p z : jsstring) :
  stripLike ic p (p ++ z) = Some z.
Proof.
  induction p as [|x p IH]; [reflexivity|].
  cbn [app stripLike]. now rewrite N.eqb_refl.
Qed.

(** The flag, the white space and the opening quote are matched without
    alternatives. *)
Lemma matchTerms_opening (ic : bool) (flag : jsstring) (q : N)
    (ts : list term) (cap : option jsstring) (s : jsstring) :
  isQuote q = true ->
  matchTerms ic (chars flag ++ spaces Plus ++ chars [q] ++ ts) cap s
  = match matchOpening ic flag q s with
    | Some r => matchTerms ic ts cap r
    | None => None
    end.
Proof.
  intros Hq. rewrite matchTerms_chars. unfold matchOpening.
  destruct (stripLike ic flag s) as [s1|]; [|reflexivity].
  assert (Hk : forall (taken : jsstring) c r,
    classMatches ic Space c = true ->
    matchTerms ic (chars [q] ++ ts) cap (c :: r) = None).
  { intros taken c r Hc. cbn [classMatches] in Hc.
    cbn [chars map app matchTerms quant class classMatches].
    rewrite (@quote_match ic q c Hq).
    destruct (q =? c)%N eqn:E; [|reflexivity].
    apply N.eqb_eq in E. subst c.
    unfold isQuote in Hq. apply orb_true_iff in Hq.
    rewrite !N.eqb_eq in Hq. destruct Hq; subst q; discriminate. }
  destruct s1 as [|c r].
  - reflexivity.
  - cbn [spaces app matchTerms quant class captures classMatches span].
    destruct (isWhiteSpace c) eqn:Ec; [|reflexivity].
    rewrite (@repeatMatcher_span ic Space
               (fun _ rest => matchTerms ic (chars [q] ++ ts) cap rest)
               Hk r [c]).
    rewrite span_space. destruct (span isWhiteSpace r) as [run rest].
    cbn [fst snd]. rewrite (matchTerms_chars ic [q] ts cap rest).
    reflexivity.
Qed.

Lemma exec_hit (re : regexp) (s rest : jsstring) (cap : option jsstring) :
  matchAt re s = Some (cap, rest) -> exec re s = Some cap.
Proof. intros H. destruct s; cbn [exec]; now rewrite H. Qed.

Lemma exec_miss (re : regexp) (c : N) (s : jsstring) :
  matchAt re (c :: s) = None -> exec re (c :: s) = exec re s.
Proof. intros H. cbn [exec]. now rewrite H. Qed.

(** A region in which the pattern matches at no position is passed. *)
Lemma exec_skip (re : regexp) (x y : jsstring) :
  (forall a b, x = a ++ b -> b <> [] -> matchAt re (b ++ y) = None) ->
  exec re (x ++ y) = exec re y.
Proof.
  induction x as [|c x IH]; intros H; [reflexivity|].
  cbn [app]. rewrite exec_miss.
  - apply IH. intros a b Hab Hb. apply (H (c :: a) b); [|exact Hb].
    now rewrite Hab.
  - apply (H [] (c :: x)); [reflexivity | discriminate].
Qed.

Lemma matchAt_shape (p : shape) (s : jsstring) :
  wfShape p = true ->
  matchAt (shapeRegexp p) s
  = match matchOpening (shapeCase p) (shapeFlag p) (shapeQuote p) s with
    | Some r =>
      match stripLike (shapeCase p) (shapeName p) r with
      | Some r' => matchTerms (shapeCase p) (shapeRest p) None r'
      | None => None
      end
    | None => None
    end.
Proof.
  intros H. unfold wfShape in H. rewrite !andb_true_iff in H.
  destruct H as [[[_ _] Hq] _].
  unfold matchAt, shapeRegexp. cbn [terms ignoreCase].
  rewrite matchTerms_opening by exact Hq.
  destruct (matchOpening _ _ _ s) as [r|]; [|reflexivity].
  apply matchTerms_chars.
Qed.

(** In a word: the opening can only be matched from a suffix that is the
    flag, and only when a quote follows the blank after the word. *)
Lemma opening_word (ic : bool) (q : N) (flag x y : jsstring) :
  forallb (solidUnit ic) flag = true ->
  forallb plainUnit x = true ->
  match y with
  | [] => True
  | c :: y' => c = 32%N /\ y' <> [] /\ startsSolid y' = true
  end ->
  matchOpening ic flag q (x ++ y)
  = if wholeLike ic flag x then
      match y with
      | _ :: c :: r =>
        if (canonicalize ic q =? canonicalize ic c)%N then Some r else None
      | _ => None
      end
    else None.
Proof.
  intros Hflag Hx Hy. unfold matchOpening, wholeLike.
  revert x Hx. induction flag as [|f flag IH]; intros x Hx.
  - cbn [stripLike]. destruct x as [|d x].
    + cbn [app]. destruct y as [|c y']; [reflexivity|].
      destruct Hy as (-> & Hne & Hs). destruct y' as [|c r]; [contradiction|].
      cbn [startsSolid] in Hs. apply negb_true_iff in Hs.
      cbn [span]. change (isWhiteSpace 32) with true. rewrite Hs.
      reflexivity.
    + cbn [forallb] in Hx. apply andb_true_iff in Hx as [Hd _].
      cbn [app span]. now rewrite (plainUnit_solid _ Hd).
  - cbn [forallb] in Hflag. apply andb_true_iff in Hflag as [Hf Hflag].
    destruct x as [|d x].
    + cbn [app stripLike]. destruct y as [|c y']; [reflexivity|].
      destruct Hy as (-> & _ & _).
      destruct (canonicalize ic f =? canonicalize ic 32)%N eqn:E;
        [|reflexivity].
      destruct (solidUnit_match ic f 32 Hf E) as [Hw _]. discriminate.
    + cbn [forallb] in Hx. apply andb_true_iff in Hx as [_ Hx].
      cbn [app stripLike].
      destruct (canonicalize ic f =? canonicalize ic d)%N; [|reflexivity].
      apply (IH Hflag x Hx).
Qed.

(** Inside quotes, and at the closing quote, the opening is not
    matched. *)
Lemma opening_quoted (ic : bool) (q q0 : N) (flag b z : jsstring) :
  forallb (solidUnit ic) flag = true -> isQuote q = true ->
  isQuote q0 = true -> looseText q0 b = true ->
  flagAhead ic flag b = false ->
  (flag <> [] \/ b <> []) ->
  matchOpening ic flag q (b ++ q0 :: z) = None.
Proof.
  intros Hflag Hq Hq0 Hb Hahead Hne. unfold matchOpening.
  unfold flagAhead in Hahead.
  revert b Hb Hahead Hne.
  induction flag as [|f flag IH]; intros b Hb Hahead Hne.
  - cbn [stripLike] in *.
    destruct b as [|d b]; [destruct Hne; contradiction|].
    cbn [app span looseText] in *. apply andb_true_iff in Hb as [Hd Hb].
    destruct (d =? 32)%N eqn:Ed.
    + apply N.eqb_eq in Ed. subst d. change (isWhiteSpace 32) with true.
      cbn iota. destruct b as [|e b]; [discriminate|].
      cbn [app span]. rewrite (textUnit_solid _ _ Hd). cbn [stripLike].
      destruct (canonicalize ic q =? canonicalize ic e)%N eqn:E;
        [|reflexivity].
      rewrite (@quote_match ic q e Hq) in E. apply N.eqb_eq in E.
      subst e. cbn [quoteAhead] in Hahead.
      change (32 =? 32)%N with true in Hahead. cbn [andb] in Hahead.
      congruence.
    + now rewrite (textUnit_solid _ _ Hd).
  - cbn [forallb] in Hflag. apply andb_true_iff in Hflag as [Hf Hflag].
    destruct b as [|d b].
    + cbn [app stripLike].
      destruct (canonicalize ic f =? canonicalize ic q0)%N eqn:E;
        [|reflexivity].
      destruct (solidUnit_match ic f q0 Hf E) as [_ Hq']. congruence.
    + cbn [app stripLike looseText] in *.
      apply andb_true_iff in Hb as [_ Hb].
      destruct (canonicalize ic f =? canonicalize ic d)%N; [|reflexivity].
      destruct flag as [|f' flag'].
      * destruct b as [|e b]; [|apply (IH Hflag (e :: b) Hb Hahead); right;
                                 discriminate].
        cbn [stripLike app span]. now rewrite (isQuote_solid _ Hq0).
      * apply (IH Hflag b Hb Hahead). left. discriminate.
Qed.

End ShapeFacts.

Section TokenFacts.

Import RegExp.

Lemma endsLike_suffix (ic : bool) (flag a b : jsstring) :
  b <> [] -> wholeLike ic flag b = true -> endsLike ic flag (a ++ b) = true.
Proof.
  intros Hb Hw. induction a as [|c a IH].
  - destruct b as [|c b]; [contradiction|].
    cbn [app endsLike]. now rewrite Hw.
  - cbn [app endsLike]. rewrite IH. apply orb_true_r.
Qed.

Lemma looseText_suffix (q : N) (a b : jsstring) :
  looseText q (a ++ b) = true -> looseText q b = true.
Proof.
  induction a as [|c a IH]; [auto|].
  cbn [app looseText]. intros H. apply andb_true_iff in H as [_ H]. auto.
Qed.

Lemma textUnit_notBlank (q c : N) : textUnit q c = true -> (c =? 32)%N = false.
Proof.
  intros H. apply N.eqb_neq. intros ->.
  apply textUnit_solid in H. discriminate.
Qed.

Lemma spacedText_loose (q : N) (t : jsstring) :
  spacedText q t = true -> looseText q t = true.
Proof.
  revert t.
  refine (@spacedText_induction q (fun t => looseText q t = true) _ _ _ _).
  - reflexivity.
  - intros c Hc. cbn [looseText].
    now rewrite (textUnit_notBlank _ _ Hc), Hc.
  - intros c r Hc Hne Hr IH. cbn [looseText]. cbn [looseText] in IH.
    rewrite (textUnit_notBlank _ _ Hc).
    rewrite Hc. change (32 =? 32)%N with true. cbn iota.
    destruct r as [|e r]; [contradiction|].
    cbn [spacedText] in Hr. apply andb_true_iff in Hr as [He _].
    rewrite He. cbn [andb]. exact IH.
  - intros c d r Hc Hd _ IH. cbn [looseText].
    rewrite (textUnit_notBlank _ _ Hc).
    rewrite Hc. cbn [andb]. exact IH.
Qed.

Lemma flagFree_suffix (ic : bool) (flag a b : jsstring) :
  flagFree ic flag (a ++ b) = true -> flagAhead ic flag b = false.
Proof.
  induction a as [|c a IH].
  - cbn [app]. destruct b; cbn [flagFree]; intros H;
      apply andb_true_iff in H as [H _]; now apply negb_true_iff in H.
  - cbn [app flagFree]. intros H. apply andb_true_iff in H as [_ H]. auto.
Qed.

Lemma quietText_flagFree (ic : bool) (flag t : jsstring) :
  In (ic, flag) credentialFlags -> quietText t = true ->
  flagFree ic flag t = true.
Proof.
  intros Hin H. unfold quietText in H. rewrite forallb_forall in H.
  exact (H _ Hin).
Qed.

(** A header name is not matched across the closing quote. *)
Lemma stripLike_before_quote (ic : bool) (name text z : jsstring) (q : N) :
  forallb (solidUnit ic) name = true -> isQuote q = true ->
  startsLike ic name text = false ->
  stripLike ic name (text ++ q :: z) = None.
Proof.
  intros Hname Hq. unfold startsLike. revert text.
  induction name as [|f name IH]; intros text H; [discriminate|].
  cbn [forallb] in Hname. apply andb_true_iff in Hname as [Hf Hname].
  destruct text as [|d text].
  - cbn [app stripLike].
    destruct (canonicalize ic f =? canonicalize ic q)%N eqn:E; [|reflexivity].
    destruct (solidUnit_match ic f q Hf E) as [_ Hq']. congruence.
  - cbn [app stripLike] in *.
    destruct (canonicalize ic f =? canonicalize ic d)%N; [|reflexivity].
    now apply IH.
Qed.

Lemma joinedTail_shape (ts : list token) :
  forallb wfToken ts = true ->
  match joinedTail ts with
  | [] => True
  | c :: y' => c = 32%N /\ y' <> [] /\ startsSolid y' = true
  end.
Proof.
  destruct ts as [|t r]; [exact (fun _ => I)|].
  cbn [forallb joinedTail flat_map app]. intros H.
  apply andb_true_iff in H as [Ht _]. split; [reflexivity|].
  pose proof (tokenText_starts t (flat_map (fun t0 => 32%N :: tokenText t0) r)
                Ht) as Hs.
  split; [|exact Hs].
  destruct t as [w|q text]; cbn [wfToken tokenText] in *.
  - destruct w; [discriminate|discriminate].
  - discriminate.
Qed.

Variable p : shape.
Hypothesis Hp : wfShape p = true.
Hypothesis Hflag : In (shapeCase p, shapeFlag p) credentialFlags.

Lemma wfShape_parts :
  shapeFlag p <> []
  /\ forallb (solidUnit (shapeCase p)) (shapeFlag p) = true
  /\ isQuote (shapeQuote p) = true
  /\ forallb (solidUnit (shapeCase p)) (shapeName p) = true.
Proof.
  unfold wfShape in Hp. rewrite !andb_true_iff in Hp.
  destruct Hp as [[[Hne Hf] Hq] Hn]. repeat split; try assumption.
  destruct (shapeFlag p); [discriminate|discriminate].
Qed.

Lemma matchAt_blank (s : jsstring) :
  matchAt (shapeRegexp p) (32%N :: s) = None.
Proof.
  destruct wfShape_parts as (Hne & Hf & Hq & Hn).
  rewrite matchAt_shape by exact Hp. unfold matchOpening.
  destruct (shapeFlag p) as [|f flag]; [contradiction|].
  cbn [forallb] in Hf. apply andb_true_iff in Hf as [Hf _].
  cbn [stripLike].
  destruct (canonicalize _ f =? canonicalize _ 32)%N eqn:E; [|reflexivity].
  destruct (solidUnit_match _ f 32 Hf E) as [Hw _]. discriminate.
Qed.

Lemma matchAt_end : matchAt (shapeRegexp p) [] = None.
Proof.
  destruct wfShape_parts as (Hne & Hf & Hq & Hn).
  rewrite matchAt_shape by exact Hp. unfold matchOpening.
  destruct (shapeFlag p) as [|f flag]; [contradiction|]. reflexivity.
Qed.

(** A quoted argument is passed. *)
Lemma exec_skip_quoted (q0 : N) (text y : jsstring) :
  wfToken (Quoted q0 text) = true ->
  exec (shapeRegexp p) (tokenText (Quoted q0 text) ++ y)
  = exec (shapeRegexp p) y.
Proof.
  intros Ht. apply wfToken_quoted in Ht as (Hq0 & Htext & Hquiet).
  pose proof (@quietText_flagFree _ _ text Hflag Hquiet) as Hfree.
  destruct wfShape_parts as (Hne & Hf & Hq & Hn).
  apply exec_skip. intros a b Hab Hb.
  rewrite matchAt_shape by exact Hp.
  assert (Hopen : exists b' z,
            b ++ y = b' ++ q0 :: z /\ looseText q0 b' = true
            /\ flagAhead (shapeCase p) (shapeFlag p) b' = false).
  { cbn [tokenText] in Hab. destruct a as [|c a].
    - exists [], (text ++ [q0] ++ y). split; [|split].
      + cbn [app] in Hab. rewrite <- Hab. cbn [app].
        now rewrite <- app_assoc.
      + reflexivity.
      + unfold flagAhead. destruct (shapeFlag p); [contradiction|reflexivity].
    - cbn [app] in Hab. injection Hab as _ Hab.
      destruct (exists_last Hb) as (b' & e & ->).
      rewrite app_assoc in Hab. apply app_inj_tail in Hab as [Ht ->].
      exists b', y. split; [now rewrite <- app_assoc|]. split.
      + apply (looseText_suffix _ a). rewrite <- Ht.
        apply spacedText_loose, Htext.
      + apply (flagFree_suffix _ _ a). now rewrite <- Ht. }
  destruct Hopen as (b' & z & -> & Hloose & Hahead).
  rewrite opening_quoted; auto.
Qed.

(** A word is passed unless it forms, with the quoted argument after it,
    a flagged argument the pattern can match. *)
Lemma exec_skip_word (w : jsstring) (next : list token) :
  truthy w = true -> forallb plainUnit w = true ->
  forallb wfToken next = true ->
  match next with
  | Quoted q text :: _ => suspect p (w, q, text) = false
  | _ => True
  end ->
  exec (shapeRegexp p) (w ++ joinedTail next)
  = exec (shapeRegexp p) (joinedTail next).
Proof.
  intros Hw Hplain Hnext Hpair.
  destruct wfShape_parts as (Hne & Hf & Hq & Hn).
  apply exec_skip. intros a b Hab Hb.
  rewrite matchAt_shape by exact Hp.
  assert (Hb' : forallb plainUnit b = true).
  { rewrite Hab, forallb_app in Hplain.
    now apply andb_true_iff in Hplain as [_ Hplain]. }
  rewrite opening_word;
    [| exact Hf | exact Hb' | apply joinedTail_shape, Hnext].
  destruct (wholeLike (shapeCase p) (shapeFlag p) b) eqn:Ewhole;
    [|reflexivity].
  destruct next as [|t r]; [reflexivity|].
  cbn [forallb] in Hnext. apply andb_true_iff in Hnext as [Ht _].
  destruct t as [w'|q text]; cbn [joinedTail flat_map tokenText app].
  - cbn [wfToken] in Ht. apply andb_true_iff in Ht as [Hw' Hp'].
    destruct w' as [|c w']; [discriminate|].
    cbn [app]. rewrite (@quote_match _ _ c Hq).
    cbn [forallb] in Hp'. apply andb_true_iff in Hp' as [Hc _].
    destruct (shapeQuote p =? c)%N eqn:E; [|reflexivity].
    apply N.eqb_eq in E. subst c.
    rewrite (plainUnit_notQuote _ Hc) in Hq. discriminate.
  - rewrite (@quote_match _ _ q Hq).
    destruct (shapeQuote p =? q)%N eqn:E; [|reflexivity].
    cbn [wfToken] in Ht. apply andb_true_iff in Ht as [Hq' _].
    unfold suspect in Hpair. rewrite E, andb_true_r in Hpair.
    rewrite Hab, (endsLike_suffix _ _ a Hb Ewhole) in Hpair.
    cbn [andb] in Hpair. rewrite <- app_assoc. cbn [app].
    now rewrite (@stripLike_before_quote _ _ _ _ _ Hn Hq' Hpair).
Qed.

Lemma exec_skip_token (t : token) (next : list token) :
  wfToken t = true -> forallb wfToken next = true ->
  match t, next with
  | Word w, Quoted q text :: _ => suspect p (w, q, text) = false
  | _, _ => True
  end ->
  exec (shapeRegexp p) (tokenText t ++ joinedTail next)
  = exec (shapeRegexp p) (joinedTail next).
Proof.
  intros Ht Hnext Hpair. destruct t as [w|q0 text0].
  - cbn [wfToken] in Ht. apply andb_true_iff in Ht as [H1 H2].
    apply exec_skip_word; try assumption;
      destruct next as [|[w'|q text] r]; auto.
  - now apply exec_skip_quoted.
Qed.

Lemma exec_tail_none (ts : list token) :
  forallb wfToken ts = true ->
  (forall a, In a (flagged ts) -> suspect p a = false) ->
  exec (shapeRegexp p) (joinedTail ts) = None.
Proof.
  induction ts as [|t r IH]; intros Hwf Hnone.
  - cbn [joinedTail flat_map exec]. now rewrite matchAt_end.
  - cbn [forallb] in Hwf. apply andb_true_iff in Hwf as [Ht Hr].
    change (joinedTail (t :: r)) with (32%N :: tokenText t ++ joinedTail r).
    rewrite exec_miss by apply matchAt_blank.
    rewrite exec_skip_token; [| exact Ht | exact Hr |].
    + apply IH; [exact Hr|]. intros a Ha. apply Hnone.
      cbn [flagged]. destruct t as [w|q0 text0]; [|exact Ha].
      destruct r as [|[w'|q text] r']; try exact Ha. now right.
    + destruct t as [w|q0 text0]; [|exact I].
      destruct r as [|[w'|q text] r']; try exact I.
      apply Hnone. cbn [flagged]. now left.
Qed.

Lemma exec_joined_none (ts : list token) :
  forallb wfToken ts = true ->
  (forall a, In a (flagged ts) -> suspect p a = false) ->
  exec (shapeRegexp p) (joined ts) = None.
Proof.
  destruct ts as [|t r]; intros Hwf Hnone.
  - cbn [joined exec]. now rewrite matchAt_end.
  - cbn [forallb] in Hwf. apply andb_true_iff in Hwf as [Ht Hr].
    cbn [joined]. rewrite exec_skip_token; [| exact Ht | exact Hr |].
    + apply exec_tail_none; [exact Hr|]. intros a Ha. apply Hnone.
      cbn [flagged]. destruct t as [w|q0 text0]; [|exact Ha].
      destruct r as [|[w'|q text] r']; try exact Ha. now right.
    + destruct t as [w|q0 text0]; [|exact I].
      destruct r as [|[w'|q text] r']; try exact I.
      apply Hnone. cbn [flagged]. now left.
Qed.

Section Target.

Variables (w : jsstring) (q : N) (text : jsstring) (cap : option jsstring).

Hypothesis Htarget : suspect p (w, q, text) = true.

Hypothesis Hhit : forall z,
  matchAt (shapeRegexp p) (w ++ 32%N :: q :: text ++ q :: z) = Some (cap, z).

Lemma exec_token_hit (t : token) (r : list token) :
  wfToken t = true -> forallb wfToken r = true ->
  (forall a, In a (flagged (t :: r)) -> suspect p a = true ->
             a = (w, q, text)) ->
  In (w, q, text) (flagged (t :: r)) ->
  (In (w, q, text) (flagged r) ->
   exec (shapeRegexp p) (joinedTail r) = Some cap) ->
  exec (shapeRegexp p) (tokenText t ++ joinedTail r) = Some cap.
Proof.
  intros Ht Hr Honly Hin IH.
  destruct t as [w'|q0 text0].
  - destruct r as [|[w''|q' text'] r'].
    + cbn [flagged] in Hin. contradiction.
    + cbn [flagged] in Hin, Honly, IH.
      rewrite exec_skip_token; [now apply IH | exact Ht | exact Hr | exact I].
    + cbn [flagged] in Hin, Honly.
      destruct (suspect p (w', q', text')) eqn:Es.
      * assert (Heq : (w', q', text') = (w, q, text)).
        { apply Honly; [now left | exact Es]. }
        injection Heq as -> -> ->.
        cbn [tokenText joinedTail flat_map app].
        rewrite <- app_assoc. cbn [app].
        exact (exec_hit _ _ (Hhit _)).
      * rewrite exec_skip_token; [| exact Ht | exact Hr | exact Es].
        apply IH. destruct Hin as [Heq|Hin]; [|exact Hin].
        rewrite Heq, Htarget in Es. discriminate.
  - cbn [flagged] in Hin.
    rewrite exec_skip_token; [| exact Ht | exact Hr | exact I].
    apply IH. destruct r; exact Hin.
Qed.

Lemma flagged_tail (t : token) (r : list token) (a : flaggedArgument) :
  In a (flagged r) -> In a (flagged (t :: r)).
Proof.
  intros Ha. cbn [flagged]. destruct t as [w'|q0 text0].
  - destruct r as [|[w''|q' text'] r']; try exact Ha. now right.
  - destruct r; exact Ha.
Qed.

Lemma exec_tail_hit (ts : list token) :
  forallb wfToken ts = true ->
  (forall a, In a (flagged ts) -> suspect p a = true -> a = (w, q, text)) ->
  In (w, q, text) (flagged ts) ->
  exec (shapeRegexp p) (joinedTail ts) = Some cap.
Proof.
  induction ts as [|t r IH]; intros Hwf Honly Hin; [contradiction|].
  cbn [forallb] in Hwf. apply andb_true_iff in Hwf as [Ht Hr].
  change (joinedTail (t :: r)) with (32%N :: tokenText t ++ joinedTail r).
  rewrite exec_miss by apply matchAt_blank.
  apply exec_token_hit; try assumption.
  intros Hin'. apply IH; [exact Hr | | exact Hin'].
  intros a Ha. apply Honly. now apply flagged_tail.
Qed.

Lemma exec_joined_hit (ts : list token) :
  forallb wfToken ts = true ->
  (forall a, In a (flagged ts) -> suspect p a = true -> a = (w, q, text)) ->
  In (w, q, text) (flagged ts) ->
  exec (shapeRegexp p) (joined ts) = Some cap.
Proof.
  destruct ts as [|t r]; intros Hwf Honly Hin; [contradiction|].
  cbn [forallb] in Hwf. apply andb_true_iff in Hwf as [Ht Hr].
  cbn [joined]. apply exec_token_hit; try assumption.
  intros Hin'. apply exec_tail_hit; [exact Hr | | exact Hin'].
  intros a Ha. apply Honly. now apply flagged_tail.
Qed.

End Target.

End TokenFacts.

(* ------------------------------------------------------------------ *)
(** ** Extraction of the credential from a well-formed description *)

Lemma authPatterns_shapes :
  Patterns.authPatterns = map shapeRegexp authShapes.
Proof. reflexivity. Qed.

Lemma cookiePatterns_shapes :
  Patterns.cookiePatterns = map shapeRegexp cookieShapes.
Proof. reflexivity. Qed.

Lemma authShapes_wf (p : shape) : In p authShapes -> wfShape p = true.
Proof.
  intros H. repeat (destruct H as [<-|H]; [vm_compute; reflexivity|]).
  contradiction.
Qed.

Lemma cookieShapes_wf (p : shape) : In p cookieShapes -> wfShape p = true.
Proof.
  intros H. repeat (destruct H as [<-|H]; [vm_compute; reflexivity|]).
  contradiction.
Qed.

Lemma authShapes_flag (p : shape) :
  In p authShapes -> In (shapeCase p, shapeFlag p) credentialFlags.
Proof.
  intros H.
  repeat (destruct H as [<-|H];
          [vm_compute; repeat (first [left; reflexivity | right])|]).
  contradiction.
Qed.

Lemma cookieShapes_flag (p : shape) :
  In p cookieShapes -> In (shapeCase p, shapeFlag p) credentialFlags.
Proof.
  intros H.
  repeat (destruct H as [<-|H];
          [vm_compute; repeat (first [left; reflexivity | right])|]).
  contradiction.
Qed.

Lemma bearerShape_in (f : headerFlag) (q : quoteStyle) :
  In (bearerShape f q) authShapes.
Proof. destruct f, q; cbn [authShapes In]; tauto. Qed.

Lemma cookieShape_in (s : cookieStyle) (q : quoteStyle) :
  In (cookieShape s q) cookieShapes.
Proof.
  destruct s as [[|]|[|] capital], q; cbn [cookieShapes cookieShape In]; tauto.
Qed.

(** Which patterns can match at the two credential arguments. *)
Lemma suspect_bearer_bearer (f' f : headerFlag) (q' q : quoteStyle)
    (capital : bool) (token : jsstring) :
  suspect (bearerShape f' q') (bearerArgument f q capital token) = true ->
  bearerShape f' q' = bearerShape f q.
Proof.
  destruct f', f, q', q, capital; vm_compute; intros H;
    try reflexivity; discriminate.
Qed.

Lemma suspect_bearer_self (f : headerFlag) (q : quoteStyle) (capital : bool)
    (token : jsstring) :
  suspect (bearerShape f q) (bearerArgument f q capital token) = true.
Proof. destruct f, q, capital; vm_compute; reflexivity. Qed.

Lemma suspect_auth_cookie (p : shape) (s : cookieStyle) (q : quoteStyle)
    (value : jsstring) :
  In p authShapes -> suspect p (cookieArgument s q value) = false.
Proof.
  intros H.
  repeat (destruct H as [<-|H];
          [destruct s as [[|]|[|] [|]], q; vm_compute; reflexivity|]).
  contradiction.
Qed.

Lemma suspect_cookie_bearer (p : shape) (f : headerFlag) (q : quoteStyle)
    (capital : bool) (token : jsstring) :
  In p cookieShapes -> suspect p (bearerArgument f q capital token) = false.
Proof.
  intros H.
  repeat (destruct H as [<-|H];
          [destruct f, q, capital; vm_compute; reflexivity|]).
  contradiction.
Qed.

Lemma suspect_cookie_cookie (p : shape) (s : cookieStyle) (q : quoteStyle)
    (value : jsstring) :
  In p cookieShapes -> suspect p (cookieArgument s q value) = true ->
  p = cookieShape s q.
Proof.
  intros H.
  repeat (destruct H as [<-|H];
          [destruct s as [[|]|[|] [|]], q; vm_compute; intros H';
           try reflexivity; discriminate|]).
  contradiction.
Qed.

Lemma suspect_cookie_self (s : cookieStyle) (q : quoteStyle)
    (value : jsstring) :
  suspect (cookieShape s q) (cookieArgument s q value) = true.
Proof. destruct s as [[|]|[|] [|]], q; vm_compute; reflexivity. Qed.

Section Hits.

Import RegExp.

Lemma matchOpening_exact (ic : bool) (flag : jsstring) (q : N)
    (r : jsstring) :
  isQuote q = true ->
  matchOpening ic flag q (flag ++ 32%N :: q :: r) = Some r.
Proof.
  intros Hq. unfold matchOpening. rewrite stripLike_refl.
  cbn [span]. change (isWhiteSpace 32) with true.
  rewrite (isQuote_solid _ Hq). cbn [stripLike].
  now rewrite N.eqb_refl.
Qed.

Lemma spaced_not_quote (v : jsstring) (q : N) :
  isQuote q = true -> looseText q v = true ->
  forallb (fun c => negb (q =? c)%N) v = true.
Proof.
  intros Hq. induction v as [|c v IH]; [reflexivity|].
  cbn [looseText forallb]. intros H. apply andb_true_iff in H as [Hc Hv].
  rewrite (IH Hv), andb_true_r. apply negb_true_iff, N.eqb_neq. intros <-.
  destruct (q =? 32)%N eqn:E.
  - apply N.eqb_eq in E. subst q. discriminate.
  - apply textUnit_other in Hc. now rewrite N.eqb_refl in Hc.
Qed.

(** The group takes the text up to the closing quote. *)
Lemma matchTerms_group (ic : bool) (q : N) (cap0 : option jsstring)
    (v z : jsstring) :
  isQuote q = true -> v <> [] -> looseText q v = true ->
  matchTerms ic (groupNot q ++ chars [q]) cap0 (v ++ q :: z)
  = Some (Some v, z).
Proof.
  intros Hq Hne Hv. pose proof (@spaced_not_quote v q Hq Hv) as Hnq.
  destruct v as [|c v]; [contradiction|].
  cbn [forallb] in Hnq. apply andb_true_iff in Hnq as [Hc Hnq].
  cbn [groupNot app matchTerms quant class captures classMatches].
  rewrite (@quote_match ic q c Hq), Hc.
  apply repeatMatcher_greedy.
  rewrite (span_run (classMatches ic (NotUnit q)) v (q :: z)).
  - cbn [fst snd chars map matchTerms quant class captures classMatches].
    rewrite N.eqb_refl. rewrite rev_app_distr, rev_involutive. reflexivity.
  - refine (forallb_impl _ _ _ _ Hnq). intros d Hd.
    cbn [classMatches]. now rewrite (@quote_match ic q d Hq).
  - cbn [classMatches]. now rewrite N.eqb_refl.
Qed.

Lemma matchTerms_blank_then (ic : bool) (quantifier' : quantifier)
    (ts : list term) (cap : option jsstring) (rest : jsstring)
    (m : matchState) :
  quantifier' <> Once -> startsSolid rest = true ->
  matchTerms ic ts cap rest = Some m ->
  matchTerms ic (spaces quantifier' ++ ts) cap (32%N :: rest) = Some m.
Proof.
  intros Hq Hs Hm.
  assert (Hgreedy : forall taken,
    repeatMatcher ic Space (fun _ r => matchTerms ic ts cap r) taken rest
    = Some m).
  { intros taken. apply repeatMatcher_greedy. rewrite span_space.
    assert (Hsp : span isWhiteSpace rest = ([], rest)).
    { apply (span_run isWhiteSpace [] rest eq_refl).
      destruct rest; [reflexivity|exact Hs]. }
    rewrite Hsp. exact Hm. }
  destruct quantifier'; [contradiction| |];
    cbn [spaces app matchTerms quant class captures classMatches].
  - cbn [repeatMatcher classMatches]. change (isWhiteSpace 32) with true.
    cbn iota. now rewrite Hgreedy.
  - change (isWhiteSpace 32) with true. cbn iota. apply Hgreedy.
Qed.

Lemma quoteUnit_quote (q : quoteStyle) : isQuote (quoteUnit q) = true.
Proof. destruct q; reflexivity. Qed.

Lemma spacedText_nonempty_starts (q : N) (v z : jsstring) :
  spacedText q v = true -> v <> [] -> startsSolid (v ++ z) = true.
Proof.
  intros Hv Hne. destruct v as [|c v]; [contradiction|].
  cbn [spacedText] in Hv. apply andb_true_iff in Hv as [Hc _].
  cbn [app startsSolid]. now rewrite (textUnit_solid _ _ Hc).
Qed.

Lemma bearer_hit (f : headerFlag) (q : quoteStyle) (capital : bool)
    (token z : jsstring) :
  spacedText (quoteUnit q) token = true -> token <> [] ->
  matchAt (shapeRegexp (bearerShape f q))
    (headerFlagText f ++ 32%N :: quoteUnit q
       :: ((if capital then lit "Authorization: Bearer "
            else lit "authorization: Bearer ") ++ token)
       ++ quoteUnit q :: z)
  = Some (Some token, z).
Proof.
  intros Htoken Hne.
  rewrite matchAt_shape by (apply authShapes_wf, bearerShape_in).
  cbn [bearerShape shapeCase shapeFlag shapeQuote shapeName shapeRest].
  rewrite matchOpening_exact by apply quoteUnit_quote.
  assert (Hname :
    stripLike true (lit "authorization:")
      (((if capital then lit "Authorization: Bearer "
         else lit "authorization: Bearer ") ++ token) ++ quoteUnit q :: z)
    = Some (32%N :: lit "Bearer" ++ 32%N :: token ++ quoteUnit q :: z)).
  { rewrite <- app_assoc. destruct capital; vm_compute; reflexivity. }
  rewrite Hname.
  apply matchTerms_blank_then; [discriminate | reflexivity |].
  rewrite matchTerms_chars, stripLike_refl.
  apply matchTerms_blank_then;
    [discriminate | now apply (spacedText_nonempty_starts (quoteUnit q)) |].
  apply matchTerms_group;
    [apply quoteUnit_quote | exact Hne | apply spacedText_loose, Htoken].
Qed.

Lemma cookieFlag_hit (long : bool) (q : quoteStyle) (value z : jsstring) :
  spacedText (quoteUnit q) value = true -> value <> [] ->
  matchAt (shapeRegexp (cookieFlagShape long q))
    (cookieFlagText long ++ 32%N :: quoteUnit q :: value ++ quoteUnit q :: z)
  = Some (Some value, z).
Proof.
  intros Hvalue Hne.
  rewrite matchAt_shape
    by (apply cookieShapes_wf, (cookieShape_in (CookieFlag long) q)).
  cbn [cookieFlagShape shapeCase shapeFlag shapeQuote shapeName shapeRest].
  rewrite matchOpening_exact by apply quoteUnit_quote.
  cbn [stripLike].
  apply matchTerms_group;
    [apply quoteUnit_quote | exact Hne | apply spacedText_loose, Hvalue].
Qed.

Lemma cookieHeader_hit (f : headerFlag) (q : quoteStyle) (capital : bool)
    (value z : jsstring) :
  spacedText (quoteUnit q) value = true -> value <> [] ->
  matchAt (shapeRegexp (cookieHeaderShape f q))
    (headerFlagText f ++ 32%N :: quoteUnit q
       :: ((if capital then lit "Cookie: " else lit "cookie: ") ++ value)
       ++ quoteUnit q :: z)
  = Some (Some value, z).
Proof.
  intros Hvalue Hne.
  rewrite matchAt_shape
    by (apply cookieShapes_wf, (cookieShape_in (CookieHeader f capital) q)).
  cbn [cookieHeaderShape shapeCase shapeFlag shapeQuote shapeName shapeRest].
  rewrite matchOpening_exact by apply quoteUnit_quote.
  assert (Hname :
    stripLike true (lit "cookie:")
      (((if capital then lit "Cookie: " else lit "cookie: ") ++ value)
       ++ quoteUnit q :: z)
    = Some (32%N :: value ++ quoteUnit q :: z)).
  { rewrite <- app_assoc. destruct capital; vm_compute; reflexivity. }
  rewrite Hname.
  apply matchTerms_blank_then;
    [discriminate | now apply (spacedText_nonempty_starts (quoteUnit q)) |].
  apply matchTerms_group;
    [apply quoteUnit_quote | exact Hne | apply spacedText_loose, Hvalue].
Qed.

End Hits.

Lemma spacedText_ends (q : N) (t : jsstring) :
  spacedText q t = true -> t <> [] -> endsSolid t.
Proof.
  revert t.
  refine (@spacedText_induction q (fun t => t <> [] -> endsSolid t) _ _ _ _).
  - intros H. contradiction.
  - intros c Hc _. exists c, []. split; [reflexivity|].
    apply (textUnit_solid q), Hc.
  - intros c r Hc Hne _ IH _.
    change (c :: 32%N :: r) with ([c; 32%N] ++ r).
    apply endsSolid_app, IH, Hne.
  - intros c d r Hc _ _ IH _.
    change (c :: d :: r) with ([c] ++ d :: r).
    apply endsSolid_app, IH. discriminate.
Qed.

Lemma trim_spaced (q : N) (t : jsstring) :
  spacedText q t = true -> t <> [] -> trim t = t.
Proof.
  intros Ht Hne.
  pose proof (@trim_blanks [] [] t Hne (@spacedText_starts q t Ht)
                (@spacedText_ends q t Ht Hne)) as H.
  cbn [blankIf truthy app] in H. now rewrite app_nil_r in H.
Qed.

(** The loop over the patterns returns the capture on which all matching
    patterns agree. *)
Lemma firstCapture_agreed (shapes : list shape) (s cap : jsstring) :
  truthy cap = true ->
  (forall p, In p shapes ->
     RegExp.exec (shapeRegexp p) s = None
     \/ RegExp.exec (shapeRegexp p) s = Some (Some cap)) ->
  (exists p, In p shapes /\ RegExp.exec (shapeRegexp p) s = Some (Some cap)) ->
  firstCapture (map shapeRegexp shapes) s = Some cap.
Proof.
  intros Hcap. induction shapes as [|p shapes IH]; intros Hall Hex.
  - destruct Hex as (p & [] & _).
  - cbn [map firstCapture].
    destruct (Hall p (or_introl eq_refl)) as [Hp|Hp]; rewrite Hp.
    + apply IH.
      * intros p' Hp'. apply Hall. now right.
      * destruct Hex as (p' & [<-|Hin] & He); [congruence|].
        now exists p'.
    + now rewrite Hcap.
Qed.

Lemma flagged_wf (ts : list token) (w : jsstring) (q : N) (text : jsstring) :
  forallb wfToken ts = true -> In (w, q, text) (flagged ts) ->
  spacedText q text = true.
Proof.
  induction ts as [|t r IH]; [contradiction|].
  cbn [forallb flagged]. intros H Hin.
  apply andb_true_iff in H as [Ht Hr].
  destruct t as [w'|q0 text0].
  - destruct r as [|[w''|q' text'] r']; try (apply IH; assumption).
    destruct Hin as [Heq|Hin]; [|apply IH; assumption].
    injection Heq as -> -> ->. cbn [forallb] in Hr.
    apply andb_true_iff in Hr as [Hq _].
    now apply wfToken_quoted in Hq as (_ & Hq & _).
  - destruct r; apply IH; assumption.
Qed.

Lemma bearerArgument_spaced (f : headerFlag) (q : quoteStyle)
    (capital : bool) (token : jsstring) :
  token <> [] ->
  spacedText (quoteUnit q) (snd (bearerArgument f q capital token)) = true ->
  spacedText (quoteUnit q) token = true.
Proof.
  intros Hne. destruct token as [|c t]; [contradiction|].
  destruct q, capital; intros H; vm_compute in H; exact H.
Qed.

Lemma cookieArgument_spaced (s : cookieStyle) (q : quoteStyle)
    (value : jsstring) :
  value <> [] ->
  spacedText (quoteUnit q) (snd (cookieArgument s q value)) = true ->
  spacedText (quoteUnit q) value = true.
Proof.
  intros Hne. destruct value as [|c t]; [contradiction|].
  destruct q, s as [long|f [|]]; intros H;
    try exact H; vm_compute in H; exact H.
Qed.

Lemma cookieArgument_quote (s : cookieStyle) (q : quoteStyle)
    (value : jsstring) :
  snd (fst (cookieArgument s q value)) = quoteUnit q.
Proof. destruct s; reflexivity. Qed.

Lemma cookie_hit (s : cookieStyle) (q : quoteStyle) (value z : jsstring) :
  spacedText (quoteUnit q) value = true -> value <> [] ->
  RegExp.matchAt (shapeRegexp (cookieShape s q))
    (fst (fst (cookieArgument s q value))
     ++ 32%N :: snd (fst (cookieArgument s q value))
     :: snd (cookieArgument s q value)
     ++ snd (fst (cookieArgument s q value)) :: z)
  = Some (Some value, z).
Proof.
  intros Hv Hne. destruct s as [long|f capital];
    cbn [cookieArgument cookieShape fst snd].
  - now apply cookieFlag_hit.
  - now apply cookieHeader_hit.
Qed.

Section Extraction.

Variables (d : description) (f : headerFlag) (qa : quoteStyle)
  (capital : bool) (token : jsstring) (s : cookieStyle) (qc : quoteStyle)
  (value : jsstring).

Let bearer := bearerArgument f qa capital token.
Let cookieArg := cookieArgument s qc value.

Hypothesis Hwf : wfDescription d = true.
Hypothesis Htoken : token <> [].
Hypothesis Hvalue : value <> [].
Hypothesis Hargs :
  credentialArguments (tokens d) = [bearer; cookieArg]
  \/ credentialArguments (tokens d) = [cookieArg; bearer].

Lemma bearer_flagged : In bearer (flagged (tokens d)).
Proof.
  assert (H : In bearer (credentialArguments (tokens d))).
  { destruct Hargs as [-> | ->]; cbn [In]; tauto. }
  unfold credentialArguments in H. now apply filter_In in H as [H _].
Qed.

Lemma cookie_flagged : In cookieArg (flagged (tokens d)).
Proof.
  assert (H : In cookieArg (credentialArguments (tokens d))).
  { destruct Hargs as [-> | ->]; cbn [In]; tauto. }
  unfold credentialArguments in H. now apply filter_In in H as [H _].
Qed.

Lemma suspects_known (p : shape) (a : flaggedArgument) :
  In p (authShapes ++ cookieShapes) -> In a (flagged (tokens d)) ->
  suspect p a = true -> a = bearer \/ a = cookieArg.
Proof.
  intros Hp Ha Hs.
  assert (H : In a (credentialArguments (tokens d))).
  { unfold credentialArguments. apply filter_In. split; [exact Ha|].
    unfold credentialLike. apply existsb_exists. now exists p. }
  destruct Hargs as [E | E]; rewrite E in H; cbn [In] in H;
    intuition congruence.
Qed.

Lemma token_spaced : spacedText (quoteUnit qa) token = true.
Proof.
  apply (@bearerArgument_spaced f qa capital token Htoken).
  pose proof bearer_flagged as H. unfold bearer, bearerArgument in *.
  cbn [snd]. exact (flagged_wf _ _ _ _ (wfDescription_tokens _ Hwf) H).
Qed.

Lemma value_spaced : spacedText (quoteUnit qc) value = true.
Proof.
  apply (@cookieArgument_spaced s qc value Hvalue).
  pose proof cookie_flagged as H. unfold cookieArg in *.
  rewrite <- (cookieArgument_quote s qc value).
  destruct (cookieArgument s qc value) as [[w q] text] eqn:E. cbn [fst snd].
  exact (flagged_wf _ _ _ _ (wfDescription_tokens _ Hwf) H).
Qed.

Lemma exec_auth (p : shape) :
  In p authShapes ->
  RegExp.exec (shapeRegexp p) (joined (tokens d))
  = if suspect p bearer then Some (Some token) else None.
Proof.
  intros Hp. pose proof (wfDescription_tokens _ Hwf) as Hts.
  assert (Hauth : forall a, In a (flagged (tokens d)) ->
                    suspect p a = true -> a = bearer).
  { intros a Ha Hs.
    destruct (@suspects_known p a) as [E|E]; auto.
    - apply in_or_app. now left.
    - rewrite E in Hs. unfold cookieArg in Hs.
      now rewrite suspect_auth_cookie in Hs. }
  destruct (suspect p bearer) eqn:Eb.
  - assert (Heq : p = bearerShape f qa).
    { cbn [authShapes In] in Hp. unfold bearer in Eb.
      repeat (destruct Hp as [<-|Hp];
              [exact (@suspect_bearer_bearer _ _ _ _ _ _ Eb)|]).
      contradiction. }
    subst p.
    apply (@exec_joined_hit (bearerShape f qa)
             (@authShapes_wf _ (bearerShape_in f qa))
             (@authShapes_flag _ (bearerShape_in f qa))
             (headerFlagText f) (quoteUnit qa)
             ((if capital then lit "Authorization: Bearer "
               else lit "authorization: Bearer ") ++ token)
             (Some token) Eb).
    + intros z. apply bearer_hit; [exact token_spaced | exact Htoken].
    + exact Hts.
    + exact Hauth.
    + exact bearer_flagged.
  - apply exec_joined_none;
      [apply authShapes_wf, Hp | apply authShapes_flag, Hp | exact Hts |].
    intros a Ha. destruct (suspect p a) eqn:Es; [|reflexivity].
    rewrite (Hauth a Ha Es) in Es. congruence.
Qed.

Lemma exec_cookie (p : shape) :
  In p cookieShapes ->
  RegExp.exec (shapeRegexp p) (joined (tokens d))
  = if suspect p cookieArg then Some (Some value) else None.
Proof.
  intros Hp. pose proof (wfDescription_tokens _ Hwf) as Hts.
  assert (Hcookie : forall a, In a (flagged (tokens d)) ->
                      suspect p a = true -> a = cookieArg).
  { intros a Ha Hs.
    destruct (@suspects_known p a) as [E|E]; auto.
    - apply in_or_app. now right.
    - rewrite E in Hs. unfold bearer in Hs.
      now rewrite suspect_cookie_bearer in Hs. }
  destruct (suspect p cookieArg) eqn:Ec.
  - assert (Heq : p = cookieShape s qc).
    { unfold cookieArg in Ec. now apply suspect_cookie_cookie with value. }
    subst p. pose proof cookie_flagged as Hin.
    pose proof (fun z => @cookie_hit s qc value z value_spaced Hvalue) as Hhit.
    fold cookieArg in Hhit.
    destruct cookieArg as [[w q] text]. cbn [fst snd] in Hhit.
    exact (@exec_joined_hit (cookieShape s qc)
             (@cookieShapes_wf _ (cookieShape_in s qc))
             (@cookieShapes_flag _ (cookieShape_in s qc))
             w q text (Some value) Ec Hhit (tokens d) Hts Hcookie Hin).
  - apply exec_joined_none;
      [apply cookieShapes_wf, Hp | apply cookieShapes_flag, Hp | exact Hts |].
    intros a Ha. destruct (suspect p a) eqn:Es; [|reflexivity].
    rewrite (Hcookie a Ha Es) in Es. congruence.
Qed.

Lemma firstCapture_auth :
  firstCapture Patterns.authPatterns (joined (tokens d)) = Some token.
Proof.
  rewrite authPatterns_shapes. apply firstCapture_agreed.
  - destruct token; [contradiction|reflexivity].
  - intros p Hp. rewrite (@exec_auth p Hp).
    destruct (suspect p bearer); auto.
  - exists (bearerShape f qa). split; [apply bearerShape_in|].
    rewrite (@exec_auth _ (bearerShape_in f qa)).
    unfold bearer. now rewrite suspect_bearer_self.
Qed.

Lemma firstCapture_cookie :
  firstCapture Patterns.cookiePatterns (joined (tokens d)) = Some value.
Proof.
  rewrite cookiePatterns_shapes. apply firstCapture_agreed.
  - destruct value; [contradiction|reflexivity].
  - intros p Hp. rewrite (@exec_cookie p Hp).
    destruct (suspect p cookieArg); auto.
  - exists (cookieShape s qc). split; [apply cookieShape_in|].
    rewrite (@exec_cookie _ (cookieShape_in s qc)).
    unfold cookieArg. now rewrite suspect_cookie_self.
Qed.

Lemma parseCurlCommand_extracts :
  parseCurlCommand (descriptionText d)
  = Normal {| authorization := lit "Bearer " ++ token; cookie := value |}.
Proof.
  unfold parseCurlCommand.
  rewrite (@normalizeCommand_description d Hwf).
  rewrite firstCapture_auth, firstCapture_cookie.
  rewrite (@trim_spaced _ token token_spaced Htoken).
  rewrite (@trim_spaced _ value value_spaced Hvalue).
  rewrite truthy_app_bearer.
  destruct value; [contradiction|reflexivity].
Qed.

End Extraction.

(** C1, as stated, fails: a cookie value written with two blanks in a
    row comes back with one; a cookie flag with a blank value makes the
    extraction throw, naming the cookie, although a cookie header
    follows; and a cookie flag quoted inside the value of an earlier
    header is taken for the cookie. *)
Lemma parseCurlCommand_not_verbatim :
  parseCurlCommand doubleBlankCommand
    = Normal {| authorization := lit "Bearer abc"; cookie := lit "a=1; b=2" |}
  /\ lit "a=1; b=2" <> lit "a=1;  b=2"
  /\ parseCurlCommand blankCookieCommand
     = Throw (extractionMessage [lit "Cookie"])
  /\ parseCurlCommand quotedFlagCommand
     = Normal {| authorization := lit "Bearer abc"; cookie := lit "k=v" |}.
Proof.
  split; [vm_compute; reflexivity|].
  split; [vm_compute; discriminate|].
  split; vm_compute; reflexivity.
Qed.

(** C1 (amended): for every well-formed description, that is, words
    without quotes and backslashes and quoted arguments whose text holds
    no backslash, not the quote that encloses it, no white space but
    single blanks between its words, and no credential flag followed by a
    blank and a quote (the other quote may occur, as in the headers a
    browser writes), separated by white space or by backslash line
    continuations, that holds exactly one bearer header, given by [-H] or
    [--header] in single or double quotes, and exactly one cookie
    argument, given by [-b], [--cookie] or a cookie header in single or
    double quotes, both with a non-empty value, [parseCurlCommand]
    returns the credential whose authorization is "Bearer " followed by
    the token and whose cookie is the cookie value, whatever the quote
    styles, the flag spellings and the line wrapping. *)
Theorem parseCurlCommand_bearer_and_cookie (d : description)
    (f : headerFlag) (qa : quoteStyle) (capital : bool) (token : jsstring)
    (s : cookieStyle) (qc : quoteStyle) (value : jsstring) :
  wfDescription d = true ->
  token <> [] -> value <> [] ->
  credentialArguments (tokens d)
    = [bearerArgument f qa capital token; cookieArgument s qc value]
  \/ credentialArguments (tokens d)
     = [cookieArgument s qc value; bearerArgument f qa capital token] ->
  parseCurlCommand (descriptionText d)
  = Normal {| authorization := lit "Bearer " ++ token; cookie := value |}.
Proof. intros. now apply parseCurlCommand_extracts with f qa capital s qc. Qed.

Lemma parseCurlCommand_bearer_and_cookie_witness :
  parseCurlCommand (descriptionText browserDescription)
  = Normal {| authorization := lit "Bearer abc.def-ghi";
              cookie := lit "a=1; b=2" |}.
Proof.
  apply (@parseCurlCommand_bearer_and_cookie browserDescription
           LongHeader DoubleQuotes true (lit "abc.def-ghi")
           (CookieFlag false) SingleQuotes (lit "a=1; b=2")).
  - vm_compute. reflexivity.
  - vm_compute. discriminate.
  - vm_compute. discriminate.
  - left. vm_compute. reflexivity.
Defined.

(** The same description evaluated directly, and three other spellings on
    one line. *)
Example parseCurlCommand_samples :
  parseCurlCommand (descriptionText sampleDescription)
    = Normal {| authorization := lit "Bearer abc.def-ghi";
                cookie := lit "a=1; b=2" |}
  /\ parseCurlCommand bothCommand
     = Normal {| authorization := lit "Bearer abc.def-ghi";
                 cookie := lit "a=1; b=2" |}
  /\ parseCurlCommand
       (jsonLit "curl https://x/y --header 'authorization: Bearer abc.def-ghi' --cookie 'a=1; b=2'")
     = Normal {| authorization := lit "Bearer abc.def-ghi";
                 cookie := lit "a=1; b=2" |}
  /\ parseCurlCommand
       (lit "curl 'https://x/y' -H 'Cookie: a=1; b=2' -H 'Authorization: Bearer abc.def-ghi'")
     = Normal {| authorization := lit "Bearer abc.def-ghi";
                 cookie := lit "a=1; b=2" |}.
Proof. repeat split; vm_compute; reflexivity. Qed.

(** A request that throws an error classified as an authorization failure
    ends the run at that step: the credential file is emptied, the
    process exits with status 1, and no further request is made.  This
    holds at each of the three steps. *)
Lemma main_locations_failure (toLowerCase : jsstring -> jsstring)
    (authInfo : AuthInfo) (server : Server) (inputs : Inputs)
    (file : AuthFile) (error : JsError) :
  httpGet (buildings server) = Threw error ->
  isAuthError (errorText error) = true ->
  main toLowerCase authInfo server inputs file
  = ({| authFile := Some [];
        trace := [Fetch BuildingsApi (getBuildings authInfo);
                  Warn (lit "鉴权已过期，请重新输入"); DeleteAuth;
                  Cancel (lit "请求失败: " ++ errorText error)] |},
     Exited 1).
Proof.
  intros Hget Hauth. unfold main. rewrite Hget.
  now rewrite handleApiError_auth.
Qed.

Lemma chooseCourse_failure (toLowerCase : jsstring -> jsstring)
    (authInfo : AuthInfo) (server : Server) (inputs : Inputs) (d : Date)
    (buildingId : option number) (w : World) (error : JsError) :
  httpGet (courses server) = Threw error ->
  isAuthError (errorText error) = true ->
  chooseCourse toLowerCase authInfo server inputs d buildingId w
  = ({| authFile := Some [];
        trace := trace w
                 ++ [Fetch CoursesApi (getCourses authInfo d buildingId);
                     Warn (lit "鉴权已过期，请重新输入"); DeleteAuth;
                     Cancel (lit "请求失败: " ++ errorText error)] |},
     Exited 1).
Proof.
  intros Hget Hauth. unfold chooseCourse. rewrite Hget.
  rewrite handleApiError_auth by exact Hauth.
  unfold log. cbn [trace authFile]. now rewrite <- app_assoc.
Qed.

Lemma resolveVideo_failure (authInfo : AuthInfo) (server : Server)
    (selected : jsstring) (w : World) (error : JsError) :
  httpGet (video server) = Threw error ->
  isAuthError (errorText error) = true ->
  authFile (fst (resolveVideo authInfo server selected w)) = Some []
  /\ snd (resolveVideo authInfo server selected w) = Exited 1
  /\ existsb isDeleteAuth
       (trace (fst (resolveVideo authInfo server selected w))) = true.
Proof.
  intros Hget Hauth. unfold resolveVideo. rewrite Hget.
  rewrite handleApiError_auth by exact Hauth. cbn [fst snd authFile trace].
  repeat split. rewrite !existsb_app. cbn [existsb isDeleteAuth].
  now rewrite !orb_true_r.
Qed.

(** A rejected request is such an error when the status is 401 or 403. *)
Lemma rejected_is_authorization_failure (T : Type) (status : N) :
  status = 401%N \/ status = 403%N ->
  exists error,
    httpGet (Rejected status : fetched T) = Threw error
    /\ isAuthError (errorText error) = true.
Proof.
  intros [-> | ->]; eexists; split; try reflexivity; vm_compute; reflexivity.
Qed.

(* ------------------------------------------------------------------ *)
(** ** The fuel of the JSON parser is never exhausted *)

Section ParserFuel.

Import JSON.

Lemma skipWS_length (s : jsstring) :
  (List.length (skipWS s) <= List.length s)%nat.
Proof.
  induction s as [|c r IH]; [reflexivity|]. cbn [skipWS].
  destruct (isWS c); cbn [List.length]; lia.
Qed.

Lemma stripPrefix_length (p s r : jsstring) :
  stripPrefix p s = Some r ->
  (List.length r + List.length p = List.length s)%nat.
Proof.
  revert s. induction p as [|x p IH]; intros s H.
  - injection H as ->. cbn [List.length]. lia.
  - destruct s as [|y s]; [discriminate|]. cbn [stripPrefix] in H.
    destruct (x =? y)%N; [|discriminate].
    apply IH in H. cbn [List.length]. lia.
Qed.

Lemma parseChars_length (s t r : jsstring) :
  parseChars s = Some (t, r) -> (List.length r < List.length s)%nat.
Proof.
  remember (List.length s) as n eqn:Hn. revert s t r Hn.
  induction n as [n IH] using lt_wf_ind. intros s t r Hn H.
  destruct s as [|c s]; [discriminate|]. cbn [parseChars] in H.
  assert (Hcons : forall u s' t' r',
    (List.length s' < n)%nat ->
    match parseChars s' with
    | Some (t0, rest) => Some (u :: t0, rest)
    | None => None
    end = Some (t', r') -> (List.length r' < List.length s')%nat).
  { intros u s' t' r' Hlt He.
    destruct (parseChars s') as [[t0 rest]|] eqn:E; [|discriminate].
    injection He as _ <-. exact (IH _ Hlt s' t0 rest eq_refl E). }
  subst n. cbn [List.length] in *.
  destruct (c =? 34)%N.
  { injection H as _ <-. lia. }
  destruct (c =? 92)%N.
  - destruct s as [|e s1]; [discriminate|].
    destruct (e =? 117)%N.
    + destruct s1 as [|h1 [|h2 [|h3 [|h4 s2]]]]; try discriminate.
      destruct (hex4Value h1 h2 h3 h4); [|discriminate].
      apply Hcons in H; cbn [List.length] in *; lia.
    + destruct (escapeValue e); [|discriminate].
      apply Hcons in H; cbn [List.length] in *; lia.
  - destruct (c <? 32)%N; [discriminate|].
    apply Hcons in H; cbn [List.length] in *; lia.
Qed.

Lemma spanDigits_length (s ds r : jsstring) :
  spanDigits s = (ds, r) ->
  (List.length ds + List.length r = List.length s)%nat.
Proof.
  revert ds r. induction s as [|c s IH]; intros ds r H.
  - injection H as <- <-. reflexivity.
  - cbn [spanDigits] in H. destruct (isDigit c).
    + destruct (spanDigits s) as [a b]. injection H as <- <-.
      specialize (IH a b eq_refl). cbn [List.length]. lia.
    + injection H as <- <-. reflexivity.
Qed.

Lemma parseNumber_length (s r : jsstring) (v : value) :
  parseNumber s = Some (v, r) -> (List.length r < List.length s)%nat.
Proof.
  unfold parseNumber.
  set (sign_s1 := match s with
                  | c :: r0 => if (c =? 45)%N then (true, r0) else (false, s)
                  | [] => (false, s)
                  end).
  assert (H1 : (List.length (snd sign_s1) <= List.length s)%nat).
  { subst sign_s1. destruct s as [|c r0]; [reflexivity|].
    destruct (c =? 45)%N; cbn [snd List.length]; lia. }
  destruct sign_s1 as [sign s1]. cbn [snd] in H1.
  set (intPart := match s1 with
                  | c :: r0 =>
                    if (c =? 48)%N then Some ([48%N], r0)
                    else if isDigit c then Some (spanDigits s1) else None
                  | [] => None
                  end).
  assert (H2 : forall ip s2, intPart = Some (ip, s2) ->
                 (List.length s2 < List.length s1)%nat).
  { subst intPart. intros ip s2 H. destruct s1 as [|c r0]; [discriminate|].
    destruct (c =? 48)%N.
    - injection H as _ <-. cbn [List.length]. lia.
    - destruct (isDigit c) eqn:Ed; [|discriminate].
      destruct (spanDigits (c :: r0)) as [a b] eqn:E.
      injection H as <- <-. pose proof (spanDigits_length _ E) as Hl.
      cbn [spanDigits] in E. rewrite Ed in E.
      destruct (spanDigits r0). injection E as <- <-.
      cbn [List.length] in *. lia. }
  destruct intPart as [[ip s2]|]; [|discriminate].
  specialize (H2 ip s2 eq_refl).
  set (fracPart := match s2 with
                   | c :: r0 =>
                     if (c =? 46)%N then
                       match spanDigits r0 with
                       | ([], _) => None
                       | (fd, rest) => Some (fd, rest)
                       end
                     else Some ([], s2)
                   | [] => Some ([], s2)
                   end).
  assert (H3 : forall fp s3, fracPart = Some (fp, s3) ->
                 (List.length s3 <= List.length s2)%nat).
  { subst fracPart. intros fp s3 H. destruct s2 as [|c r0].
    - injection H as _ <-. reflexivity.
    - destruct (c =? 46)%N.
      + destruct (spanDigits r0) as [fd rest] eqn:E.
        pose proof (spanDigits_length _ E) as Hl.
        destruct fd; [discriminate|]. injection H as _ <-.
        cbn [List.length] in *. lia.
      + injection H as _ <-. reflexivity. }
  destruct fracPart as [[fp s3]|]; [|discriminate].
  specialize (H3 fp s3 eq_refl).
  match goal with
  | |- match ?e with _ => _ end = _ -> _ => set (expPart := e)
  end.
  assert (H4 : forall e s4, expPart = Some (e, s4) ->
                 (List.length s4 <= List.length s3)%nat).
  { subst expPart. intros e s4 H. destruct s3 as [|c r0].
    - injection H as _ <-. reflexivity.
    - destruct ((c =? 101) || (c =? 69))%N.
      + set (sr := match r0 with
                   | g :: r' =>
                     if (g =? 45)%N then (true, r')
                     else if (g =? 43)%N then (false, r') else (false, r0)
                   | [] => (false, r0)
                   end) in H.
        assert (Hs : (List.length (snd sr) <= List.length r0)%nat).
        { subst sr. destruct r0 as [|g r']; [reflexivity|].
          destruct (g =? 45)%N; [cbn [snd List.length]; lia|].
          destruct (g =? 43)%N; cbn [snd List.length]; lia. }
        destruct sr as [esign r1]. cbn [snd] in Hs.
        destruct (spanDigits r1) as [ed rest] eqn:E.
        pose proof (spanDigits_length _ E) as Hl.
        destruct ed; [discriminate|]. injection H as _ <-.
        cbn [List.length] in *. lia.
      + injection H as _ <-. reflexivity. }
  destruct expPart as [[e s4]|]; [|discriminate].
  specialize (H4 e s4 eq_refl). intros H. injection H as _ <-. lia.
Qed.

Lemma nextSeparator_length (close : N) (s r : jsstring) (sep : separator) :
  nextSeparator close s = (sep, r) -> sep <> Other ->
  (List.length r < List.length s)%nat.
Proof.
  unfold nextSeparator. intros H Hs.
  pose proof (skipWS_length s) as Hl.
  destruct (skipWS s) as [|c r0]; [injection H as <- _; contradiction|].
  cbn [List.length] in Hl.
  destruct (c =? 44)%N; [injection H as _ <-; lia|].
  destruct (c =? close)%N; injection H as <- <-; [lia|contradiction].
Qed.

Lemma parser_fuel (f : nat) :
  (forall s v r, parseValue f s = Some (v, r) ->
     (List.length r < List.length s)%nat
     /\ forall g, (2 * (List.length s - List.length r) - 1 <= g)%nat ->
                  parseValue g s = Some (v, r))
  /\ (forall acc s v r, parseElements f acc s = Some (v, r) ->
      (List.length r + 2 <= List.length s)%nat
      /\ forall g, (2 * (List.length s - List.length r) - 2 <= g)%nat ->
                   parseElements g acc s = Some (v, r))
  /\ (forall acc s v r, parseMembers f acc s = Some (v, r) ->
      (List.length r + 2 <= List.length s)%nat
      /\ forall g, (2 * (List.length s - List.length r) - 2 <= g)%nat ->
                   parseMembers g acc s = Some (v, r)).
Proof.
  induction f as [|f (IHv & IHe & IHm)].
  { repeat split; discriminate. }
  split; [|split].
  - (* values *)
    intros s v r H. destruct s as [|c r0]; [discriminate|].
    cbn [parseValue] in H.
    destruct (c =? 123)%N eqn:E1.
    { destruct (stripPrefix [125%N] (skipWS r0)) as [r'|] eqn:E2.
      - injection H as <- <-. pose proof (stripPrefix_length _ _ E2) as Hl.
        pose proof (skipWS_length r0) as Hw. cbn [List.length] in *.
        split; [lia|]. intros g Hg. destruct g as [|g]; [lia|].
        cbn [parseValue]. now rewrite E1, E2.
      - destruct (IHm _ _ _ _ H) as [Hl Hg0]. cbn [List.length].
        split; [lia|]. intros g Hg. destruct g as [|g]; [lia|].
        cbn [parseValue]. rewrite E1, E2. apply Hg0. lia. }
    destruct (c =? 91)%N eqn:E3.
    { destruct (stripPrefix [93%N] (skipWS r0)) as [r'|] eqn:E2.
      - injection H as <- <-. pose proof (stripPrefix_length _ _ E2) as Hl.
        pose proof (skipWS_length r0) as Hw. cbn [List.length] in *.
        split; [lia|]. intros g Hg. destruct g as [|g]; [lia|].
        cbn [parseValue]. now rewrite E1, E3, E2.
      - destruct (IHe _ _ _ _ H) as [Hl Hg0]. cbn [List.length].
        split; [lia|]. intros g Hg. destruct g as [|g]; [lia|].
        cbn [parseValue]. rewrite E1, E3, E2. apply Hg0. lia. }
    assert (Hsame : forall g, (1 <= g)%nat ->
              parseValue g (c :: r0) = parseValue (S f) (c :: r0)).
    { intros g Hg. destruct g as [|g]; [lia|].
      cbn [parseValue]. now rewrite E1, E3. }
    assert (Hlen : (List.length r < List.length (c :: r0))%nat).
    { destruct (c =? 34)%N.
      - destruct (parseChars r0) as [[t rest]|] eqn:E; [|discriminate].
        injection H as _ <-. apply parseChars_length in E.
        cbn [List.length]. lia.
      - destruct (stripPrefix (lit "true") (c :: r0)) as [r'|] eqn:Et.
        { injection H as _ <-. apply stripPrefix_length in Et.
          change (List.length (lit "true")) with 4%nat in Et. lia. }
        destruct (stripPrefix (lit "false") (c :: r0)) as [r'|] eqn:Ef.
        { injection H as _ <-. apply stripPrefix_length in Ef.
          change (List.length (lit "false")) with 5%nat in Ef. lia. }
        destruct (stripPrefix (lit "null") (c :: r0)) as [r'|] eqn:En.
        { injection H as _ <-. apply stripPrefix_length in En.
          change (List.length (lit "null")) with 4%nat in En. lia. }
        now apply parseNumber_length in H. }
    split; [exact Hlen|]. intros g Hg. rewrite Hsame by lia.
    cbn [parseValue]. rewrite E1, E3. exact H.
  - (* elements *)
    intros acc s v r H. cbn [parseElements] in H.
    destruct (parseValue f (skipWS s)) as [[v1 r1]|] eqn:Ev; [|discriminate].
    destruct (IHv _ _ _ Ev) as [Hl1 Hg1].
    pose proof (skipWS_length s) as Hw.
    destruct (nextSeparator 93 r1) as [sep r'] eqn:Es.
    destruct sep; [| |discriminate].
    + pose proof (@nextSeparator_length _ _ _ _ Es ltac:(discriminate)) as Hl2.
      destruct (IHe _ _ _ _ H) as [Hl3 Hg3].
      split; [lia|]. intros g Hg. destruct g as [|g]; [lia|].
      cbn [parseElements]. rewrite (Hg1 g) by lia. rewrite Es.
      apply Hg3. lia.
    + pose proof (@nextSeparator_length _ _ _ _ Es ltac:(discriminate)) as Hl2.
      injection H as <- <-.
      split; [lia|]. intros g Hg. destruct g as [|g]; [lia|].
      cbn [parseElements]. rewrite (Hg1 g) by lia. now rewrite Es.
  - (* members *)
    intros acc s v r H. cbn [parseMembers] in H.
    pose proof (skipWS_length s) as Hw.
    destruct (stripPrefix [34%N] (skipWS s)) as [r0|] eqn:E0; [|discriminate].
    pose proof (stripPrefix_length _ _ E0) as Hl0.
    destruct (parseChars r0) as [[k r1]|] eqn:Ek; [|discriminate].
    pose proof (parseChars_length _ Ek) as Hlk.
    pose proof (skipWS_length r1) as Hw1.
    destruct (stripPrefix [58%N] (skipWS r1)) as [r2|] eqn:E2; [|discriminate].
    pose proof (stripPrefix_length _ _ E2) as Hl2.
    pose proof (skipWS_length r2) as Hw2.
    destruct (parseValue f (skipWS r2)) as [[v1 r3]|] eqn:Ev; [|discriminate].
    destruct (IHv _ _ _ Ev) as [Hl3 Hg3].
    destruct (nextSeparator 125 r3) as [sep r'] eqn:Es.
    cbn [List.length] in *.
    destruct sep; [| |discriminate].
    + pose proof (@nextSeparator_length _ _ _ _ Es ltac:(discriminate)) as Hl4.
      destruct (IHm _ _ _ _ H) as [Hl5 Hg5].
      split; [lia|]. intros g Hg. destruct g as [|g]; [lia|].
      cbn [parseMembers]. rewrite E0, Ek, E2, (Hg3 g) by lia. rewrite Es.
      apply Hg5. lia.
    + pose proof (@nextSeparator_length _ _ _ _ Es ltac:(discriminate)) as Hl4.
      injection H as <- <-.
      split; [lia|]. intros g Hg. destruct g as [|g]; [lia|].
      cbn [parseMembers]. rewrite E0, Ek, E2, (Hg3 g) by lia.
      now rewrite Es.
Qed.

(** Whenever some amount of fuel lets the parser accept the whole text,
    the amount [JSON.parse] provides does. *)
Lemma parse_fuel_suffices (fuel : nat) (text : jsstring) (v : value)
    (r : jsstring) :
  parseValue fuel (skipWS text) = Some (v, r) -> skipWS r = [] ->
  parse text = Some v.
Proof.
  intros H Hr. unfold parse.
  destruct (parser_fuel fuel) as (Hv & _ & _).
  destruct (Hv _ _ _ H) as [Hl Hg].
  pose proof (skipWS_length text) as Hw.
  rewrite (Hg (2 * List.length text + 2)%nat) by lia.
  now rewrite Hr.
Qed.

End ParserFuel.

(* ------------------------------------------------------------------ *)
(** * Further properties of the code *)

(** ** The credential: extraction, validation and the file *)

Lemma parseCurlCommand_validates (curlCommand : jsstring) (a : AuthInfo) :
  parseCurlCommand curlCommand = Normal a -> validateAuthInfo a = true.
Proof.
  unfold parseCurlCommand.
  destruct (firstCapture Patterns.authPatterns _) as [g|];
    [|cbn [truthy negb orb]; discriminate].
  rewrite truthy_app_bearer. cbn [negb orb].
  destruct (firstCapture Patterns.cookiePatterns _) as [g'|];
    [|cbn [truthy negb]; discriminate].
  destruct (trim g') as [|c r] eqn:E; cbn [truthy negb]; [discriminate|].
  intros H. injection H as <-.
  unfold validateAuthInfo. cbn [authorization cookie].
  change (startsWith (lit "Bearer " ++ trim g) (lit "Bearer ") && true = true).
  now rewrite startsWith_app.
Qed.

(** X1: what [parseCurlCommand] returns always passes [validateAuthInfo]: the
    authorization starts with "Bearer " and the cookie is not empty, so
    the check that follows the call in index.ts cannot fail. *)
Theorem parseCurlCommand_result_valid (curlCommand : jsstring)
    (a : AuthInfo) :
  parseCurlCommand curlCommand = Normal a -> validateAuthInfo a = true.
Proof. apply parseCurlCommand_validates. Qed.

Lemma parseCurlCommand_result_valid_witness :
  validateAuthInfo {| authorization := lit "Bearer abc.def-ghi";
                      cookie := lit "a=1; b=2" |} = true.
Proof.
  apply (@parseCurlCommand_result_valid bothCommand).
  vm_compute. reflexivity.
Defined.

(** X3: [loadAuthInfo] returns a credential only when the file exists, its
    text, read without a leading byte order mark, parses to that value
    and the value passes [validateAuthInfo]; the file is then left as it
    was. *)
Theorem loadAuthInfo_sound (file : AuthFile) (v : JSON.value) :
  fst (loadAuthInfo file) = Some v ->
  exists content,
    file = Some content
    /\ JSON.parse (fileText content) = Some v
    /\ validateAuthInfo_parsed v = Normal true
    /\ snd (loadAuthInfo file) = file.
Proof.
  destruct file as [content|]; [|discriminate].
  unfold loadAuthInfo, JSON_parse. cbv zeta.
  destruct (JSON.parse (fileText content)) as [u|] eqn:Ep; cbn [bind];
    [|discriminate].
  destruct (validateAuthInfo_parsed u) as [[|]|e] eqn:E; cbn [bind fst snd];
    try discriminate.
  intros H. injection H as <-. exists content.
  split; [reflexivity|]. split; [exact Ep|]. split; [exact E|reflexivity].
Qed.

Lemma loadAuthInfo_sound_witness :
  exists content,
    saveAuthInfo someAuth None = Some content
    /\ JSON.parse (fileText content) = Some (authInfoObject someAuth)
    /\ validateAuthInfo_parsed (authInfoObject someAuth) = Normal true
    /\ snd (loadAuthInfo (saveAuthInfo someAuth None))
       = saveAuthInfo someAuth None.
Proof.
  apply (@loadAuthInfo_sound (saveAuthInfo someAuth None)).
  vm_compute. reflexivity.
Defined.

(** X4: loading twice is loading once: the second [loadAuthInfo] returns what
    the first returned and leaves the file as the first left it. *)
Theorem loadAuthInfo_idempotent (file : AuthFile) :
  loadAuthInfo (snd (loadAuthInfo file)) = loadAuthInfo file.
Proof.
  destruct file as [content|]; [|reflexivity].
  destruct (loadAuthInfo (Some content)) as [result after] eqn:Eload.
  cbn [snd]. revert Eload. unfold loadAuthInfo at 1. unfold JSON_parse.
  cbv zeta.
  destruct (JSON.parse (fileText content)) as [u|] eqn:Ep; cbn [bind].
  - destruct (validateAuthInfo_parsed u) as [[|]|e] eqn:E; cbn [bind];
      intros H; injection H as <- <-.
    + unfold loadAuthInfo, JSON_parse. cbv zeta. rewrite Ep. cbn [bind].
      now rewrite E.
    + unfold loadAuthInfo, JSON_parse. cbv zeta. rewrite Ep. cbn [bind].
      now rewrite E.
    + reflexivity.
  - intros H; injection H as <- <-. reflexivity.
Qed.

(** X5: a credential that does not pass [validateAuthInfo] can be saved, but
    is never loaded: [loadAuthInfo] returns null and leaves the file as
    written. *)
Theorem save_load_invalid (c : AuthInfo) (file : AuthFile) :
  validateAuthInfo c = false ->
  loadAuthInfo (saveAuthInfo c file) = (None, saveAuthInfo c file).
Proof.
  intros Hinvalid. unfold loadAuthInfo, saveAuthInfo, JSON_parse.
  rewrite fileText_stringifyAuthInfo. cbv zeta.
  rewrite parse_stringifyAuthInfo. cbn [bind].
  rewrite validateAuthInfo_parsed_object, Hinvalid. reflexivity.
Qed.

Lemma save_load_invalid_witness :
  loadAuthInfo
    (saveAuthInfo {| authorization := lit "Basic abc"; cookie := lit "k=v" |}
       None)
  = (None,
     saveAuthInfo {| authorization := lit "Basic abc"; cookie := lit "k=v" |}
       None).
Proof. apply save_load_invalid. reflexivity. Defined.

(** X6: after [handleApiError], the next [loadAuthInfo] finds no credential
    when the error was classified as an authorization failure, and finds
    what it would have found before otherwise. *)
Theorem handleApiError_then_load (error : JsError) (w : World) :
  loadAuthInfo (authFile (fst (handleApiError error w)))
  = if isAuthError (errorText error) then (None, Some [])
    else loadAuthInfo (authFile w).
Proof.
  destruct (isAuthError (errorText error)) eqn:E.
  - now rewrite handleApiError_auth.
  - now rewrite handleApiError_other.
Qed.

(* ------------------------------------------------------------------ *)
(** ** Transport errors *)




(* ------------------------------------------------------------------ *)
(** ** Replacement of runs *)

Section Runs.

Import RegExp.

Variable cl : charClass.
Variable replacement : jsstring.

Let f := classMatches false cl.

Lemma span_parts (g : N -> bool) (s : jsstring) :
  s = fst (span g s) ++ snd (span g s)
  /\ forallb g (fst (span g s)) = true
  /\ match snd (span g s) with [] => True | c :: _ => g c = false end.
Proof.
  induction s as [|c r IH]; cbn [span]; [now repeat split|].
  destruct (g c) eqn:E.
  - destruct (span g r) as [a b]. cbn [fst snd] in *.
    destruct IH as (H1 & H2 & H3). repeat split.
    + cbn [app]. now rewrite <- H1.
    + cbn [forallb]. now rewrite E, H2.
    + exact H3.
  - cbn [fst snd app forallb]. now repeat split.
Qed.

Lemma matchAt_run_hit (c : N) (rest : jsstring) :
  f c = true ->
  matchAt (runOf cl) (c :: rest) = Some (None, snd (span f rest)).
Proof.
  intros Hc. unfold matchAt, runOf, Patterns.sensitive.
  cbn [terms ignoreCase matchTerms quant class captures].
  fold f. rewrite Hc. now apply repeatMatcher_greedy.
Qed.

Lemma matchAt_run_miss (c : N) (rest : jsstring) :
  f c = false -> matchAt (runOf cl) (c :: rest) = None.
Proof.
  intros Hc. unfold matchAt, runOf, Patterns.sensitive.
  cbn [terms ignoreCase matchTerms quant class captures].
  fold f. now rewrite Hc.
Qed.

Lemma squeeze_run (run next : jsstring) :
  forallb f run = true ->
  squeeze f replacement true (run ++ next) = squeeze f replacement true next.
Proof.
  induction run as [|c run IH]; [reflexivity|].
  cbn [forallb]. intros H. apply andb_true_iff in H as [Hc Hr].
  cbn [app squeeze]. rewrite Hc. cbn [app]. now apply IH.
Qed.

Lemma squeeze_solid (b : bool) (next : jsstring) :
  match next with [] => True | c :: _ => f c = false end ->
  squeeze f replacement b next = squeeze f replacement false next.
Proof.
  destruct next as [|c r]; [reflexivity|]. intros H. cbn [squeeze].
  now rewrite H.
Qed.

Lemma replace_run_bounded (n : nat) (s : jsstring) :
  (List.length s <= n)%nat ->
  replaceFrom (runOf cl) replacement O s = squeeze f replacement false s.
Proof.
  revert s. induction n as [|n IH]; intros s Hn.
  - destruct s; [reflexivity | cbn [List.length] in Hn; lia].
  - destruct s as [|c rest]; [reflexivity|].
    cbn [List.length] in Hn.
    destruct (f c) eqn:Hc.
    + destruct (span_parts f rest) as (Hrest & Hrun & Hnext).
      pose proof (@matchAt_run_hit c rest Hc) as Hm.
      rewrite Hrest in Hm at 1.
      cbn [squeeze]. rewrite Hc. rewrite Hrest at 1 2.
      rewrite (@replaceFrom_hit (runOf cl) replacement c _ _ _ Hm).
      rewrite squeeze_run by exact Hrun.
      rewrite (@squeeze_solid true _ Hnext).
      rewrite IH; [reflexivity|].
      assert (List.length rest
              = (List.length (fst (span f rest))
                 + List.length (snd (span f rest)))%nat)
        by (rewrite Hrest at 1; apply length_app).
      lia.
    + rewrite replaceFrom_miss by (now apply matchAt_run_miss).
      cbn [squeeze]. rewrite Hc. f_equal. apply IH. lia.
Qed.

Lemma replace_run (s : jsstring) :
  replace (runOf cl) replacement s = squeeze f replacement false s.
Proof. apply (@replace_run_bounded (List.length s)). lia. Qed.

End Runs.

Lemma squeeze_forallb (f p : N -> bool) (replacement : jsstring) :
  forallb p replacement = true ->
  forall (s : jsstring) (b : bool),
    forallb (fun c => f c || p c) s = true ->
    forallb p (squeeze f replacement b s) = true.
Proof.
  intros Hr. induction s as [|c r IH]; intros b; [reflexivity|].
  cbn [forallb squeeze]. intros H. apply andb_true_iff in H as [Hc Hs].
  destruct (f c).
  - rewrite forallb_app, (IH true Hs), andb_true_r.
    now destruct b.
  - cbn [orb] in Hc. cbn [forallb]. now rewrite Hc, IH.
Qed.

Lemma squeeze_length (f : N -> bool) (u : N) (s : jsstring) (b : bool) :
  (List.length (squeeze f [u] b s) <= List.length s)%nat.
Proof.
  revert b. induction s as [|c r IH]; intros b; [cbn; lia|].
  cbn [squeeze]. destruct (f c).
  - specialize (IH true). destruct b; cbn [app List.length]; lia.
  - specialize (IH false). cbn [List.length]. lia.
Qed.

Lemma squeeze_none (f : N -> bool) (replacement s : jsstring) (b : bool) :
  forallb (fun c => negb (f c)) s = true ->
  squeeze f replacement b s = s.
Proof.
  revert b. induction s as [|c r IH]; intros b; [reflexivity|].
  cbn [forallb squeeze]. intros H. apply andb_true_iff in H as [Hc Hs].
  apply negb_true_iff in Hc. rewrite Hc. now rewrite IH.
Qed.

(** After the runs of a unit are squeezed to one, no two of them are
    adjacent. *)
Lemma squeeze_single (u : N) (s : jsstring) (b : bool) :
  includes (squeeze (N.eqb u) [u] b s) [u; u] = false
  /\ (b = true -> startsWith (squeeze (N.eqb u) [u] b s) [u] = false).
Proof.
  revert b. induction s as [|c r IH]; intros b.
  - split; [reflexivity|]. intros _. reflexivity.
  - cbn [squeeze]. destruct (u =? c)%N eqn:E.
    + destruct b; cbn [app].
      * apply IH.
      * destruct (IH true) as [H1 H2]. split; [|discriminate].
        cbn [includes]. rewrite H1, orb_false_r.
        cbn [startsWith]. rewrite N.eqb_refl. cbn [andb].
        now apply H2.
    + destruct (IH false) as [H1 _]. split.
      * cbn [includes]. rewrite H1, orb_false_r.
        cbn [startsWith]. now rewrite E.
      * intros _. cbn [startsWith]. now rewrite E.
Qed.

Lemma squeeze_already_single (u : N) (s : jsstring) :
  includes s [u; u] = false ->
  squeeze (N.eqb u) [u] false s = s
  /\ (startsWith s [u] = false -> squeeze (N.eqb u) [u] true s = s).
Proof.
  induction s as [|c r IH]; intros H.
  - split; reflexivity.
  - cbn [includes] in H. apply orb_false_iff in H as [Hstart Hr].
    destruct (IH Hr) as [IH1 IH2]. cbn [squeeze].
    destruct (u =? c)%N eqn:E.
    + apply N.eqb_eq in E. subst c. split.
      * cbn [app]. f_equal. apply IH2.
        cbn [startsWith] in Hstart. rewrite N.eqb_refl in Hstart.
        exact Hstart.
      * cbn [startsWith]. rewrite N.eqb_refl. discriminate.
    + split; [now rewrite IH1|]. intros _. now rewrite IH1.
Qed.

Lemma includes_firstn (n : nat) (s p : jsstring) :
  includes s p = false -> includes (firstn n s) p = false.
Proof.
  intros H. destruct (includes (firstn n s) p) eqn:E; [|reflexivity].
  apply includes_spec in E as (a & b & E).
  assert (Hs : includes s p = true).
  { apply includes_spec. exists a, (b ++ skipn n s).
    rewrite <- (firstn_skipn n s) at 1. rewrite E.
    now rewrite <- !app_assoc. }
  congruence.
Qed.

Lemma forallb_firstn (p : N -> bool) (n : nat) (s : jsstring) :
  forallb p s = true -> forallb p (firstn n s) = true.
Proof.
  revert n. induction s as [|c r IH]; intros [|n]; try reflexivity.
  cbn [firstn forallb]. intros H. apply andb_true_iff in H as [Hc Hr].
  now rewrite Hc, IH.
Qed.

Lemma replaceClass_map (member : N -> bool) (u : N) (s : jsstring) :
  replaceClass member [u] s = map (fun c => if member c then u else c) s.
Proof.
  induction s as [|c r IH]; [reflexivity|].
  cbn [replaceClass map]. rewrite IH. now destruct (member c).
Qed.

Lemma replaceClass_none (member : N -> bool) (replacement s : jsstring) :
  forallb (fun c => negb (member c)) s = true ->
  replaceClass member replacement s = s.
Proof.
  induction s as [|c r IH]; [reflexivity|].
  cbn [forallb replaceClass]. intros H. apply andb_true_iff in H as [Hc Hr].
  apply negb_true_iff in Hc. rewrite Hc. cbn [app]. now rewrite IH.
Qed.

(** The three replacements of [sanitizeFilename], as runs squeezed. *)
Lemma sanitizeFilename_squeezed (filename : jsstring) :
  sanitizeFilename filename
  = firstn 200
      (squeeze (N.eqb underscore) [underscore] false
         (squeeze isWhiteSpace [underscore] false
            (map (fun c => if illegalUnit c then underscore else c)
               filename))).
Proof.
  unfold sanitizeFilename.
  change underscoreRun with (runOf (RegExp.Unit underscore)).
  change Patterns.whiteSpaceRun with (runOf RegExp.Space).
  rewrite !replace_run.
  change (lit "_") with [underscore].
  now rewrite replaceClass_map.
Qed.

Lemma sanitizeFilename_clean (filename : jsstring) :
  forallb safeUnit (sanitizeFilename filename) = true
  /\ includes (sanitizeFilename filename) (lit "__") = false
  /\ (List.length (sanitizeFilename filename) <= 200)%nat
  /\ (List.length (sanitizeFilename filename) <= List.length filename)%nat.
Proof.
  rewrite sanitizeFilename_squeezed.
  set (s1 := map _ filename).
  set (s2 := squeeze isWhiteSpace [underscore] false s1).
  set (s3 := squeeze (N.eqb underscore) [underscore] false s2).
  assert (H1 : forallb (fun c => negb (illegalUnit c)) s1 = true).
  { unfold s1. rewrite forallb_forall. intros c Hc.
    apply in_map_iff in Hc as (d & <- & _).
    destruct (illegalUnit d) eqn:E; [reflexivity|]. now rewrite E. }
  assert (H2 : forallb safeUnit s2 = true).
  { unfold s2. apply squeeze_forallb; [reflexivity|].
    rewrite forallb_forall in H1 |- *. intros c Hc. unfold safeUnit.
    rewrite (H1 c Hc). now destruct (isWhiteSpace c). }
  assert (H3 : forallb safeUnit s3 = true).
  { unfold s3. apply squeeze_forallb; [reflexivity|].
    rewrite forallb_forall in H2 |- *. intros c Hc.
    rewrite (H2 c Hc). apply orb_true_r. }
  split; [now apply forallb_firstn|].
  split.
  { apply includes_firstn. unfold s3.
    apply (squeeze_single underscore s2 false). }
  split; [apply firstn_le_length|].
  rewrite length_firstn.
  pose proof (squeeze_length (N.eqb underscore) underscore s2 false).
  pose proof (squeeze_length isWhiteSpace underscore s1 false).
  assert (List.length s1 = List.length filename) by apply length_map.
  fold s2 in H0. fold s3 in H. lia.
Qed.

Lemma sanitizeFilename_keeps (s : jsstring) :
  cleanName s = true -> sanitizeFilename s = s.
Proof.
  unfold cleanName. intros H.
  apply andb_true_iff in H as [H Hlen].
  apply andb_true_iff in H as [Hsafe Hsingle].
  apply negb_true_iff in Hsingle. apply Nat.leb_le in Hlen.
  rewrite sanitizeFilename_squeezed.
  assert (H1 : map (fun c => if illegalUnit c then underscore else c) s = s).
  { rewrite <- (map_id s) at 2. apply map_ext_in. intros c Hc.
    rewrite forallb_forall in Hsafe. specialize (Hsafe c Hc).
    unfold safeUnit in Hsafe. apply andb_true_iff in Hsafe as [Hi _].
    apply negb_true_iff in Hi. now rewrite Hi. }
  rewrite H1.
  rewrite (@squeeze_none isWhiteSpace [underscore] s false).
  - destruct (squeeze_already_single underscore s Hsingle) as [-> _].
    now apply firstn_all2.
  - rewrite forallb_forall in Hsafe |- *. intros c Hc.
    specialize (Hsafe c Hc). unfold safeUnit in Hsafe.
    now apply andb_true_iff in Hsafe as [_ ->].
Qed.

(* ------------------------------------------------------------------ *)
(** ** File names *)

(** X8: [sanitizeFilename] returns a name of at most 200 units, never longer
    than its argument, without any of the nine forbidden characters,
    without white space and without two underscores in a row. *)
Theorem sanitizeFilename_safe (filename : jsstring) :
  forallb safeUnit (sanitizeFilename filename) = true
  /\ includes (sanitizeFilename filename) (lit "__") = false
  /\ (List.length (sanitizeFilename filename) <= 200)%nat
  /\ (List.length (sanitizeFilename filename) <= List.length filename)%nat.
Proof. apply sanitizeFilename_clean. Qed.

(** X9: the names [sanitizeFilename] leaves unchanged are exactly the clean
    ones: safe units only, no two underscores in a row, at most 200
    units. *)
Theorem sanitizeFilename_fixed_points (filename : jsstring) :
  sanitizeFilename filename = filename <-> cleanName filename = true.
Proof.
  split; [|apply sanitizeFilename_keeps].
  intros H. destruct (sanitizeFilename_clean filename) as (A & B & C & _).
  rewrite H in A, B, C. unfold cleanName.
  rewrite A, B. cbn [negb andb]. now apply Nat.leb_le.
Qed.

(** X10: cleaning a cleaned name changes nothing. *)
Theorem sanitizeFilename_idempotent (filename : jsstring) :
  sanitizeFilename (sanitizeFilename filename) = sanitizeFilename filename.
Proof.
  apply sanitizeFilename_keeps.
  destruct (sanitizeFilename_clean filename) as (A & B & C & _).
  unfold cleanName. rewrite A, B. cbn [negb andb]. now apply Nat.leb_le.
Qed.

Example sanitizeFilename_samples :
  sanitizeFilename (lit "a<b>  c__d/e.mp4") = lit "a_b_c_d_e.mp4"
  /\ sanitizeFilename (lit "..") = lit ".."
  /\ sanitizeFilename [] = []
  /\ generateVideoFilename (lit "2025/09/26 08:00") (lit "Linear Algebra")
       (lit "Li: Wei") (lit "mp4")
     = lit "2025-09-26_Linear_Algebra_Li_Wei.mp4".
Proof. repeat split; vm_compute; reflexivity. Qed.

Lemma matchAt_slash (c : N) (r : jsstring) :
  RegExp.matchAt slash (c :: r)
  = if (47 =? c)%N then Some (None, r) else None.
Proof.
  unfold RegExp.matchAt, slash, Patterns.sensitive.
  cbn [RegExp.terms RegExp.ignoreCase RegExp.chars map RegExp.matchTerms
       RegExp.quant RegExp.class RegExp.captures RegExp.classMatches
       RegExp.canonicalize].
  reflexivity.
Qed.

Lemma replace_slash (s : jsstring) :
  RegExp.replace slash (lit "-") s
  = map (fun c => if (47 =? c)%N then 45%N else c) s.
Proof.
  unfold RegExp.replace. induction s as [|c r IH]; [reflexivity|].
  cbn [map]. destruct (47 =? c)%N eqn:E.
  - rewrite <- IH.
    apply (@replaceFrom_hit slash (lit "-") c [] r None).
    cbn [app]. now rewrite matchAt_slash, E.
  - rewrite replaceFrom_miss by (now rewrite matchAt_slash, E).
    now rewrite IH.
Qed.

(** X11: whatever the date, the course and the teacher are, the generated file
    name holds no slash, provided the extension holds none: the name
    cannot leave the download directory through a separator. *)
Theorem generateVideoFilename_no_slash
    (date courseName teacherName extension : jsstring) :
  forallb notSlash extension = true ->
  forallb notSlash
    (generateVideoFilename date courseName teacherName extension) = true.
Proof.
  intros Hext. unfold generateVideoFilename.
  assert (Hclean : forall s, forallb notSlash (sanitizeFilename s) = true).
  { intros s. destruct (sanitizeFilename_clean s) as (A & _).
    rewrite forallb_forall in A |- *. intros c Hc. specialize (A c Hc).
    unfold safeUnit in A. apply andb_true_iff in A as [A _].
    unfold notSlash. destruct (c =? 47)%N eqn:E; [|reflexivity].
    apply N.eqb_eq in E. subst c. discriminate. }
  rewrite replace_slash, !forallb_app, !Hclean, Hext.
  cbn [lit forallb andb]. rewrite andb_true_r.
  rewrite forallb_forall. intros c Hc.
  apply in_map_iff in Hc as (d & <- & _). unfold notSlash.
  destruct (47 =? d)%N eqn:E; [reflexivity|].
  rewrite N.eqb_sym, E. reflexivity.
Qed.

Lemma generateVideoFilename_no_slash_witness :
  forallb notSlash
    (generateVideoFilename (lit "2025/09/26 08:00") (lit "a/b")
       (lit "../c") (lit "mp4")) = true.
Proof. apply generateVideoFilename_no_slash. reflexivity. Defined.

(* ------------------------------------------------------------------ *)
(** ** The progress bar *)

Lemma concat_repeat_unit (c : N) (n : nat) :
  List.concat (repeat [c] n) = repeat c n.
Proof. induction n as [|n IH]; [reflexivity|]. cbn. now rewrite IH. Qed.

Lemma repeatString_unit (c : N) (count : Z) :
  repeatString [c] count
  = if (count <? 0)%Z then Throw RangeError
    else Normal (repeat c (Z.to_nat count)).
Proof. unfold repeatString. now rewrite concat_repeat_unit. Qed.

(** X12: for a percentage from 0 to 100 the bar has exactly [width] cells, of
    which the first [width * percentage / 100], rounded down, are
    filled; the percentage is printed after it. *)
Theorem createProgressBar_cells (percentage width : Z) :
  (0 <= percentage <= 100)%Z -> (0 <= width)%Z ->
  let filled := Z.to_nat (width * percentage / 100) in
  createProgressBar percentage (Some width)
  = Normal (lit "[" ++ repeat 9608%N filled
            ++ repeat 9617%N (Z.to_nat width - filled)
            ++ lit "] " ++ ofZ percentage ++ lit "%")
  /\ (filled <= Z.to_nat width)%nat.
Proof.
  intros Hp Hw filled.
  assert (H0 : (0 <= width * percentage / 100)%Z).
  { apply Z.div_pos; [|lia]. apply Z.mul_nonneg_nonneg; lia. }
  assert (H1 : (width * percentage / 100 <= width)%Z).
  { apply Z.div_le_upper_bound; [lia|].
    rewrite (Z.mul_comm 100). apply Z.mul_le_mono_nonneg_l; lia. }
  split; [|unfold filled; lia].
  unfold createProgressBar. rewrite !repeatString_unit.
  destruct (width * percentage / 100 <? 0)%Z eqn:E;
    [apply Z.ltb_lt in E; lia|].
  destruct (width - width * percentage / 100 <? 0)%Z eqn:E';
    [apply Z.ltb_lt in E'; lia|].
  unfold filled. rewrite Z2Nat.inj_sub by lia. reflexivity.
Qed.

Lemma createProgressBar_cells_witness :
  createProgressBar 50 (Some 20%Z)
  = Normal (lit "[" ++ repeat 9608%N 10 ++ repeat 9617%N (20 - 10)
            ++ lit "] " ++ ofZ 50 ++ lit "%")
  /\ (10 <= 20)%nat.
Proof. apply (@createProgressBar_cells 50 20); lia. Defined.

(** X13: with the default width of 20 cells, [createProgressBar] throws a
    RangeError exactly when the percentage is negative or at least 105: a
    count handed to [repeat] is then negative.  For every other
    percentage it returns a bar. *)
Theorem createProgressBar_throws (percentage : Z) :
  exists bar,
    createProgressBar percentage None
    = if ((percentage <? 0) || (105 <=? percentage))%Z
      then Throw RangeError else Normal bar.
Proof.
  unfold createProgressBar. rewrite !repeatString_unit.
  destruct (20 * percentage / 100 <? 0)%Z eqn:E.
  - apply Z.ltb_lt in E. exists [].
    replace (percentage <? 0)%Z with true; [reflexivity|].
    symmetry. apply Z.ltb_lt. Z.div_mod_to_equations. lia.
  - apply Z.ltb_ge in E.
    replace (percentage <? 0)%Z with false
      by (symmetry; apply Z.ltb_ge; Z.div_mod_to_equations; lia).
    cbn [orb].
    destruct (20 - 20 * percentage / 100 <? 0)%Z eqn:E'.
    + apply Z.ltb_lt in E'. exists [].
      replace (105 <=? percentage)%Z with true; [reflexivity|].
      symmetry. apply Z.leb_le. Z.div_mod_to_equations. lia.
    + apply Z.ltb_ge in E'. eexists.
      replace (105 <=? percentage)%Z with false; [reflexivity|].
      symmetry. apply Z.leb_gt. Z.div_mod_to_equations. lia.
Qed.

(* ------------------------------------------------------------------ *)
(** ** Searching the courses *)

Lemma includes_empty (s : jsstring) : includes s [] = true.
Proof. destruct s; reflexivity. Qed.

(** X14: a search term that is empty, or of which nothing is left once it is
    lower-cased and trimmed, selects every course. *)
Theorem filterCourses_blank_term (toLowerCase : jsstring -> jsstring)
    (courses : list Course) (searchTerm : jsstring) :
  trim (toLowerCase searchTerm) = [] ->
  filterCourses toLowerCase courses searchTerm = courses.
Proof.
  intros H. unfold filterCourses.
  destruct (negb (truthy searchTerm)); [reflexivity|].
  cbv zeta. rewrite H. unfold courseMatches.
  induction courses as [|c r IH]; [reflexivity|].
  cbn [filter]. rewrite includes_empty. cbn [orb]. now rewrite IH.
Qed.

Lemma filterCourses_blank_term_witness :
  filterCourses asciiToLowerCase threeCourses (lit "   ") = threeCourses.
Proof. apply filterCourses_blank_term. reflexivity. Defined.

(** X15: searching the courses collected from all time slots gives, slot after
    slot, what searching each slot gives: the search neither reorders nor
    mixes the slots. *)
Theorem filterCourses_over_slots (toLowerCase : jsstring -> jsstring)
    (slots : list Slot.TimeSlot) (searchTerm : jsstring) :
  filterCourses toLowerCase (flat_map Slot.list_ slots) searchTerm
  = flat_map (fun slot => filterCourses toLowerCase (Slot.list_ slot)
                            searchTerm) slots.
Proof.
  unfold filterCourses.
  destruct (negb (truthy searchTerm)); [reflexivity|]. cbv zeta.
  induction slots as [|s r IH]; [reflexivity|].
  cbn [flat_map]. now rewrite filter_app, IH.
Qed.

(* ------------------------------------------------------------------ *)
(** ** Printing and reading integers *)

Lemma decimalStep_digit (acc d : N) :
  (d < 10)%N -> decimalStep acc (digitUnit d) = (acc * 10 + d)%N.
Proof.
  intros Hd. unfold decimalStep, JSON.hexValue, JSON.isDigit, digitUnit.
  replace ((48 <=? 48 + d) && (48 + d <=? 57))%N with true.
  - f_equal. lia.
  - symmetry. apply andb_true_iff. split; apply N.leb_le; lia.
Qed.

(** The digits [String(n)] prints: a non-empty run of decimal digits
    whose value is [n]. *)
Lemma digitsFuel_spec (fuel : nat) :
  forall (n : N) (acc : jsstring),
    (0 < fuel)%nat -> (n < 2 ^ N.of_nat fuel)%N ->
    exists ds,
      digitsFuel fuel n acc = ds ++ acc
      /\ ds <> []
      /\ forallb JSON.isDigit ds = true
      /\ forall v,
           fold_left decimalStep ds v
           = (v * 10 ^ N.of_nat (List.length ds) + n)%N.
Proof.
  induction fuel as [|f IH]; intros n acc Hfuel Hn; [lia|].
  cbn [digitsFuel].
  pose proof (N.div_mod n 10) as Hdm.
  assert (Hmod : (n mod 10 < 10)%N) by (apply N.mod_lt; discriminate).
  set (m := (n mod 10)%N) in *. set (q := (n / 10)%N) in *.
  clearbody m q.
  assert (Hn' : n = (10 * q + m)%N) by (apply Hdm; discriminate).
  clear Hdm.
  assert (Hdigit : JSON.isDigit (digitUnit m) = true).
  { unfold JSON.isDigit, digitUnit. apply andb_true_iff.
    split; apply N.leb_le; lia. }
  destruct (q =? 0)%N eqn:E.
  - apply N.eqb_eq in E. exists [digitUnit m].
    split; [reflexivity|]. split; [discriminate|].
    split; [cbn [forallb]; now rewrite Hdigit|].
    intros v. cbn [fold_left List.length].
    rewrite decimalStep_digit by exact Hmod.
    change (10 ^ N.of_nat 1)%N with 10%N. lia.
  - apply N.eqb_neq in E.
    destruct f as [|f'].
    { exfalso. change (2 ^ N.of_nat 1)%N with 2%N in Hn. lia. }
    destruct (IH q (digitUnit m :: acc))
      as (ds & Hds & Hne & Hall & Hval); [lia| |].
    { rewrite Nat2N.inj_succ, N.pow_succ_r' in Hn. lia. }
    exists (ds ++ [digitUnit m]).
    split; [rewrite Hds, <- app_assoc; reflexivity|].
    split; [intros H; now apply app_eq_nil in H as [_ H]|].
    split; [rewrite forallb_app, Hall; cbn [forallb]; now rewrite Hdigit|].
    intros v. rewrite fold_left_app, Hval. cbn [fold_left].
    rewrite decimalStep_digit by exact Hmod.
    rewrite length_app. cbn [List.length].
    rewrite Nat.add_1_r, Nat2N.inj_succ, N.pow_succ_r'. lia.
Qed.


Lemma ofN_spec (n : N) :
  ofN n <> []
  /\ forallb JSON.isDigit (ofN n) = true
  /\ fold_left decimalStep (ofN n) 0%N = n.
Proof.
  unfold ofN.
  destruct (@digitsFuel_spec (S (N.to_nat (N.log2 n))) n [])
    as (ds & Hds & Hne & Hall & Hval).
  - lia.
  - rewrite Nat2N.inj_succ, N2Nat.id.
    destruct n as [|p]; [reflexivity|].
    apply N.log2_spec. reflexivity.
  - rewrite app_nil_r in Hds. rewrite Hds.
    split; [exact Hne|]. split; [exact Hall|].
    rewrite Hval. lia.
Qed.

Lemma isDigit_bounds (c : N) :
  JSON.isDigit c = true -> (48 <= c <= 57)%N.
Proof.
  unfold JSON.isDigit. intros H. apply andb_true_iff in H as [A B].
  apply N.leb_le in A. apply N.leb_le in B. lia.
Qed.

Lemma isDigit_radix (c : N) :
  JSON.isDigit c = true -> isRadixDigit 10 c = true.
Proof.
  intros H. unfold isRadixDigit, JSON.hexValue. rewrite H.
  apply isDigit_bounds in H. apply N.ltb_lt. lia.
Qed.

Lemma spanRadix_digits (ds : jsstring) :
  forallb JSON.isDigit ds = true -> spanRadix 10 ds = ds.
Proof.
  induction ds as [|c r IH]; [reflexivity|].
  cbn [forallb spanRadix]. intros H. apply andb_true_iff in H as [Hc Hr].
  now rewrite (@isDigit_radix c Hc), IH.
Qed.

Lemma digit_not (c x : N) :
  JSON.isDigit c = true -> (x < 48 \/ 57 < x)%N -> (x =? c)%N = false.
Proof.
  intros H Hx. apply isDigit_bounds in H. apply N.eqb_neq. lia.
Qed.

(** [parseInt] reads a run of decimal digits as its value. *)
Lemma parseInt_digits (ds : jsstring) :
  ds <> [] -> forallb JSON.isDigit ds = true ->
  parseInt ds = Int (Z.of_N (fold_left decimalStep ds 0%N)).
Proof.
  intros Hne Hall. destruct ds as [|c r]; [contradiction|].
  pose proof Hall as Hall'.
  cbn [forallb] in Hall. apply andb_true_iff in Hall as [Hc Hr].
  assert (Hws : isWhiteSpace c = false).
  { apply isDigit_bounds in Hc. unfold isWhiteSpace.
    repeat match goal with
           | |- context [(?a <=? ?b)%N] =>
             destruct (N.leb_spec a b); try lia
           | |- context [(?a =? ?b)%N] =>
             destruct (N.eqb_spec a b); try lia
           end; reflexivity. }
  unfold parseInt. cbn [trimStart]. rewrite Hws.
  change (lit "-") with [45%N]. change (lit "+") with [43%N].
  change (startsWith (c :: r) [45%N]) with ((45 =? c)%N && true).
  change (startsWith (c :: r) [43%N]) with ((43 =? c)%N && true).
  rewrite (@digit_not c 45 Hc), (@digit_not c 43 Hc) by lia.
  cbn [andb orb].
  assert (Hhex : forall x, (x < 48 \/ 57 < x)%N ->
                           startsWith (c :: r) [48%N; x] = false).
  { intros x Hx. cbn [startsWith].
    destruct r as [|d r']; [apply andb_false_r|].
    cbn [forallb] in Hr. apply andb_true_iff in Hr as [Hd _].
    rewrite (@digit_not d x Hd Hx). cbn [andb]. apply andb_false_r. }
  change (lit "0x") with [48%N; 120%N]. change (lit "0X") with [48%N; 88%N].
  rewrite !Hhex by lia. cbn [orb].
  rewrite (@spanRadix_digits (c :: r) Hall'). reflexivity.
Qed.

(** Reading what [String] printed gives the integer back. *)
Lemma parseInt_ofZ (z : Z) : parseInt (ofZ z) = Int z.
Proof.
  destruct z as [|p|p]; [reflexivity| |].
  - cbn [ofZ]. destruct (ofN_spec (Npos p)) as (Hne & Hall & Hval).
    rewrite parseInt_digits by assumption. now rewrite Hval.
  - cbn [ofZ]. destruct (ofN_spec (Npos p)) as (Hne & Hall & Hval).
    pose proof (parseInt_digits Hne Hall) as H. rewrite Hval in H.
    revert H. unfold parseInt.
    destruct (ofN (N.pos p)) as [|c r] eqn:E; [contradiction|].
    cbn [forallb] in Hall. apply andb_true_iff in Hall as [Hc Hr].
    assert (Hws : isWhiteSpace c = false).
    { apply isDigit_bounds in Hc. unfold isWhiteSpace.
      repeat match goal with
             | |- context [(?a <=? ?b)%N] =>
               destruct (N.leb_spec a b); try lia
             | |- context [(?a =? ?b)%N] =>
               destruct (N.eqb_spec a b); try lia
             end; reflexivity. }
    cbn [trimStart]. rewrite Hws.
    change (isWhiteSpace 45) with false. cbv iota.
    change (lit "-") with [45%N]. change (lit "+") with [43%N].
    change (startsWith (45%N :: c :: r) [45%N]) with true.
    change (startsWith (c :: r) [45%N]) with ((45 =? c)%N && true).
    change (startsWith (c :: r) [43%N]) with ((43 =? c)%N && true).
    rewrite (@digit_not c 45 Hc), (@digit_not c 43 Hc) by lia.
    cbn [andb orb tl].
    destruct (startsWith (c :: r) (lit "0x") || startsWith (c :: r) (lit "0X"));
      destruct (spanRadix _ _); intros H; try discriminate;
      injection H as H; now rewrite H.
Qed.


(* ------------------------------------------------------------------ *)
(** ** The values of the menu options *)

Lemma splitDash_solid (x r piece : jsstring) :
  forallb notDash x = true ->
  splitDash (x ++ r) piece = splitDash r (rev x ++ piece).
Proof.
  revert piece. induction x as [|c x IH]; intros piece; [reflexivity|].
  cbn [forallb]. intros H. apply andb_true_iff in H as [Hc Hx].
  unfold notDash in Hc. apply negb_true_iff in Hc.
  cbn [app splitDash]. rewrite Hc, (IH (c :: piece) Hx). cbn [rev].
  now rewrite <- app_assoc.
Qed.

Lemma splitDash_pair (x y : jsstring) :
  forallb notDash x = true -> forallb notDash y = true ->
  splitDash (x ++ 45%N :: y) [] = [x; y].
Proof.
  intros Hx Hy. rewrite (@splitDash_solid x (45%N :: y) [] Hx).
  cbn [splitDash].
  change (45 =? 45)%N with true. cbv iota.
  rewrite app_nil_r, rev_involutive.
  rewrite <- (app_nil_r y) at 1. rewrite (@splitDash_solid y [] [] Hy).
  cbn [splitDash]. now rewrite app_nil_r, rev_involutive.
Qed.

Lemma isDigit_notDash (s : jsstring) :
  forallb JSON.isDigit s = true -> forallb notDash s = true.
Proof.
  rewrite !forallb_forall. intros H c Hc. specialize (H c Hc).
  apply isDigit_bounds in H. unfold notDash.
  apply negb_true_iff, N.eqb_neq. lia.
Qed.

Lemma ofZ_digits (z : Z) :
  (0 <= z)%Z -> ofZ z <> [] /\ forallb JSON.isDigit (ofZ z) = true.
Proof.
  destruct z as [|p|p]; intros Hz; [split; [discriminate|reflexivity]| |lia].
  cbn [ofZ]. destruct (ofN_spec (Npos p)) as (A & B & _). now split.
Qed.

(** X16: the value of the option of a building whose identifiers are natural
    numbers of at most 2^53 is read back as the identifier of that
    building: the option the user picks is the building the schedule is
    asked for. *)
Theorem buildingOption_roundtrip (response : Buildings.BuildingsResponse)
    (campus : Buildings.Campus) (building : Buildings.Building) :
  In campus (Buildings.list_ response) ->
  In building (Buildings.building_list campus) ->
  (0 <= Buildings.campus_id campus)%Z ->
  (0 <= Buildings.building_id building)%Z ->
  safeInteger (Buildings.campus_id campus) = true ->
  safeInteger (Buildings.building_id building) = true ->
  exists o,
    In o (buildingOptions response)
    /\ label o = Buildings.building_name building
    /\ hint o = Some (Buildings.campus_name campus)
    /\ selectedBuildingId (value o)
       = Some (Int (Buildings.building_id building)).
Proof.
  intros Hcampus Hbuilding Hc Hb _ _.
  exists {| value := ofZ (Buildings.campus_id campus) ++ lit "-"
                     ++ ofZ (Buildings.building_id building);
            label := Buildings.building_name building;
            hint := Some (Buildings.campus_name campus) |}.
  split.
  { unfold buildingOptions. right. apply in_flat_map. exists campus.
    split; [exact Hcampus|]. apply in_map_iff. exists building.
    now split. }
  split; [reflexivity|]. split; [reflexivity|].
  cbn [value]. unfold selectedBuildingId.
  destruct (@ofZ_digits _ Hc) as [Hne Hdigits].
  destruct (@ofZ_digits _ Hb) as [Hne' Hdigits'].
  assert (Hall : JS.eqb (ofZ (Buildings.campus_id campus) ++ lit "-"
                         ++ ofZ (Buildings.building_id building))
                   (lit "all") = false).
  { unfold JS.eqb. destruct (list_eq_dec _ _ _) as [E|]; [|reflexivity].
    destruct (ofZ (Buildings.campus_id campus)) as [|d r];
      [contradiction|].
    cbn [forallb] in Hdigits. apply andb_true_iff in Hdigits as [Hd _].
    apply isDigit_bounds in Hd. injection E as E _. subst d.
    exfalso. revert Hd. vm_compute. intros [_ H]. now apply H. }
  rewrite Hall.
  change (lit "-" ++ ofZ (Buildings.building_id building))
    with (45%N :: ofZ (Buildings.building_id building)).
  rewrite splitDash_pair by (now apply isDigit_notDash).
  cbn [nth].
  destruct (ofZ (Buildings.building_id building)) as [|d r] eqn:E;
    [contradiction|].
  cbn [truthy]. rewrite <- E. now rewrite parseInt_ofZ.
Qed.

Lemma buildingOption_roundtrip_witness :
  exists o,
    In o (buildingOptions oneBuilding)
    /\ label o = Buildings.building_name hall
    /\ hint o = Some (Buildings.campus_name mainCampus)
    /\ selectedBuildingId (value o)
       = Some (Int (Buildings.building_id hall)).
Proof.
  apply (@buildingOption_roundtrip oneBuilding mainCampus hall).
  - left. reflexivity.
  - left. reflexivity.
  - vm_compute. discriminate.
  - vm_compute. discriminate.
  - reflexivity.
  - reflexivity.
Defined.


Lemma videoRequests_app (a b : list Event) :
  videoRequests (a ++ b) = videoRequests a ++ videoRequests b.
Proof.
  induction a as [|e a IH]; [reflexivity|].
  cbn [app videoRequests]. destruct e as [[| |] req| | | | |];
    cbn [app]; now rewrite IH.
Qed.

(** [resolveVideo] asks for the lecture named by the two pieces of the
    selected value, once. *)
Lemma resolveVideo_request (authInfo : AuthInfo) (server : Server)
    (selected : jsstring) (w : World) :
  videoRequests (trace (fst (resolveVideo authInfo server selected w)))
  = videoRequests (trace w)
    ++ [getVideoInfo authInfo (nth 0 (splitDash selected []) [])
          (nth 1 (splitDash selected []) [])].
Proof.
  unfold resolveVideo, handleApiError, exitWith, log.
  destruct (video server) as [response|status|error]; cbn [httpGet].
  - destruct (negb (Video.code response =? 0)%Z).
    + cbn [fst trace]. rewrite !videoRequests_app. cbn [videoRequests].
      now rewrite app_nil_r.
    + destruct (extractVideoUrl response) as [[[]|]|e];
        cbn [fst trace]; rewrite !videoRequests_app; cbn [videoRequests];
        now rewrite ?app_nil_r.
  - destruct (isAuthError _); cbn [fst trace authFile];
      rewrite !videoRequests_app; cbn [videoRequests];
      now rewrite ?app_nil_r.
  - destruct (isAuthError _); cbn [fst trace authFile];
      rewrite !videoRequests_app; cbn [videoRequests];
      now rewrite ?app_nil_r.
Qed.

(** X17: the value of the option of a course whose two identifiers hold no
    dash is read back as these identifiers: picking the option asks for
    the detail of that course and that lecture. *)
Theorem courseOption_roundtrip (formatTimestamp : jsstring -> jsstring)
    (authInfo : AuthInfo) (server : Server) (courses : list Course)
    (course : Course) (w : World) :
  In course courses ->
  forallb notDash (id course) = true ->
  forallb notDash (sub_id course) = true ->
  exists o,
    In o (courseOptions formatTimestamp courses)
    /\ value o = id course ++ lit "-" ++ sub_id course
    /\ videoRequests (trace (fst (resolveVideo authInfo server (value o) w)))
       = videoRequests (trace w)
         ++ [getVideoInfo authInfo (id course) (sub_id course)].
Proof.
  intros Hin Hid Hsub.
  eexists. split.
  { unfold courseOptions. apply in_map_iff. exists course.
    split; [reflexivity | exact Hin]. }
  split; [reflexivity|].
  rewrite resolveVideo_request. cbn [value].
  change (lit "-" ++ sub_id course) with (45%N :: sub_id course).
  now rewrite (@splitDash_pair (id course) (sub_id course) Hid Hsub).
Qed.

Lemma courseOption_roundtrip_witness :
  exists o,
    In o (courseOptions asciiToLowerCase threeCourses)
    /\ value o = id (courseTitled (lit "Biology")) ++ lit "-"
                 ++ sub_id (courseTitled (lit "Biology"))
    /\ videoRequests
         (trace (fst (resolveVideo someAuth
                        {| buildings := Answered oneBuilding;
                           courses := Answered oneLecture;
                           video := Rejected 500 |}
                        (value o) {| authFile := None; trace := [] |})))
       = videoRequests []
         ++ [getVideoInfo someAuth (id (courseTitled (lit "Biology")))
               (sub_id (courseTitled (lit "Biology")))].
Proof.
  apply (@courseOption_roundtrip asciiToLowerCase someAuth
           {| buildings := Answered oneBuilding;
              courses := Answered oneLecture;
              video := Rejected 500 |}
           threeCourses (courseTitled (lit "Biology"))
           {| authFile := None; trace := [] |}).
  - right. left. reflexivity.
  - reflexivity.
  - reflexivity.
Defined.


(* ------------------------------------------------------------------ *)
(** ** Runs of [main] *)

(** The case analysis of a run: every test of [main] and of the steps it
    calls is decided, the trace and the file of each case computed. *)
Ltac run_cases :=
  unfold main, chooseCourse, resolveVideo, handleApiError, exitWith, log,
         saveAuthInfo, deleteAuthInfo;
  repeat (match goal with
          | |- context [httpGet ?x] =>
            is_var x; destruct x as [?response|?status|?error];
            cbn [httpGet]
          | |- context [httpGet (?f ?x)] =>
            destruct (f x) as [?response|?status|?error] eqn:?;
            cbn [httpGet]
          | |- context [if ?b then _ else _] => destruct b eqn:?
          | |- context [match ?x with _ => _ end] => destruct x eqn:?
          end;
          cbn [fst snd trace authFile app]).

(** X18: from step 2 on, a run that resolves a video address consists of
    exactly three requests, for the locations, the schedule and the
    lecture detail in this order, each built from the credential and the
    answers of the user, with the credential saved right after the first
    one; steps 2 to 8 of such a run delete nothing. *)
Theorem main_resolved_trace (toLowerCase : jsstring -> jsstring)
    (authInfo : AuthInfo) (server : Server) (inputs : Inputs)
    (file : AuthFile) (w : World) (videoUrl : JSON.value)
    (kind : jsstring) :
  main toLowerCase authInfo server inputs file
  = (w, VideoResolved videoUrl kind) ->
  exists buildingId d selected,
    selectedBuilding inputs = Some buildingId
    /\ dateInput inputs = Some d
    /\ selectedCourse inputs = Some selected
    /\ trace w
       = [ Fetch BuildingsApi (getBuildings authInfo);
           SaveAuth;
           Fetch CoursesApi (getCourses authInfo d buildingId);
           Fetch VideoApi
             (getVideoInfo authInfo (nth 0 (splitDash selected []) [])
                (nth 1 (splitDash selected []) [])) ].
Proof.
  run_cases; intros H; try discriminate;
    injection H as <- _ _;
    eexists _, _, _; repeat split; reflexivity.
Qed.

Lemma main_resolved_trace_witness :
  exists buildingId d selected,
    selectedBuilding allAnswers = Some buildingId
    /\ dateInput allAnswers = Some d
    /\ selectedCourse allAnswers = Some selected
    /\ trace
         (fst (main asciiToLowerCase someAuth
                 {| buildings := Answered oneBuilding;
                    courses := Answered oneLecture;
                    video :=
                      Answered (responseWith [entryWith (Some mp4Content)]) |}
                 allAnswers None))
       = [ Fetch BuildingsApi (getBuildings someAuth);
           SaveAuth;
           Fetch CoursesApi (getCourses someAuth d buildingId);
           Fetch VideoApi
             (getVideoInfo someAuth (nth 0 (splitDash selected []) [])
                (nth 1 (splitDash selected []) [])) ].
Proof.
  apply (@main_resolved_trace asciiToLowerCase someAuth
           {| buildings := Answered oneBuilding;
              courses := Answered oneLecture;
              video := Answered (responseWith [entryWith (Some mp4Content)]) |}
           allAnswers None _
           (JSON.JString (lit "https://x/y.mp4")) (lit "mp4")).
  vm_compute. reflexivity.
Defined.


(** X20: the credential is saved exactly when the locations request is
    answered with code 0, whatever happens afterwards. *)
Theorem main_saves_after_locations (toLowerCase : jsstring -> jsstring)
    (authInfo : AuthInfo) (server : Server) (inputs : Inputs)
    (file : AuthFile) :
  In SaveAuth (trace (fst (main toLowerCase authInfo server inputs file)))
  <-> exists response,
        buildings server = Answered response
        /\ Buildings.code response = 0%Z.
Proof.
  split.
  - run_cases; cbn [In]; intros H;
      repeat match goal with
             | H : _ \/ _ |- _ => destruct H as [H|H]
             | H : False |- _ => destruct H
             | H : _ = SaveAuth |- _ => try discriminate H; clear H
             end;
      match goal with
      | E : negb (Buildings.code ?r =? 0)%Z = false |- _ =>
        exists r; split; [reflexivity|];
        apply negb_false_iff, Z.eqb_eq in E; exact E
      end.
  - intros (response & Hb & Hcode).
    unfold main. rewrite Hb. cbn [httpGet]. rewrite Hcode.
    cbn [Z.eqb negb].
    run_cases; cbn [In]; tauto.
Qed.

(** X21: every request of a run is a GET that carries the two parts of the
    credential [main] was given. *)
Theorem main_requests_carry_credential
    (toLowerCase : jsstring -> jsstring)
    (authInfo : AuthInfo) (server : Server) (inputs : Inputs)
    (file : AuthFile) (endpoint : Endpoint) (request : Request) :
  In (Fetch endpoint request)
     (trace (fst (main toLowerCase authInfo server inputs file))) ->
  req_method request = lit "GET"
  /\ In (lit "authorization", authorization authInfo) (req_headers request)
  /\ In (lit "cookie", cookie authInfo) (req_headers request).
Proof.
  run_cases; cbn [In]; intros H;
    repeat match goal with
           | H : _ \/ _ |- _ => destruct H as [H|H]
           | H : False |- _ => destruct H
           | H : _ = Fetch _ _ |- _ =>
             first [discriminate H | injection H as _ <-]
           end;
    (split; [reflexivity|]);
    unfold getBuildings, getCourses, getVideoInfo, httpGet_request;
    cbn [req_headers]; rewrite !in_app_iff; cbn [In]; tauto.
Qed.


(* ------------------------------------------------------------------ *)
(** ** Captures are pieces of the input *)

Section Captures.

Import RegExp.

Variable ic : bool.

Lemma repeatMatcher_within (cl : charClass)
    (k : jsstring -> jsstring -> option matchState) (s0 : jsstring)
    (m : matchState) (P : Prop) :
  (forall taken rest, s0 = rev taken ++ rest -> k taken rest = Some m -> P) ->
  forall s taken,
    s0 = rev taken ++ s -> repeatMatcher ic cl k taken s = Some m -> P.
Proof.
  intros Hk. induction s as [|c r IH]; intros taken Hs.
  - cbn [repeatMatcher]. now apply Hk.
  - cbn [repeatMatcher]. destruct (classMatches ic cl c).
    + destruct (repeatMatcher ic cl k (c :: taken) r) as [m'|] eqn:E.
      * intros H. injection H as ->. apply (IH (c :: taken)); [|exact E].
        cbn [rev]. now rewrite <- app_assoc.
      * now apply Hk.
    + now apply Hk.
Qed.

Lemma matchTerms_within (ts : list term) :
  forall (cap0 : option jsstring) (s : jsstring) (m : matchState),
    matchTerms ic ts cap0 s = Some m -> captureWithin cap0 s m.
Proof.
  induction ts as [|t ts IH]; intros cap0 s m.
  - cbn [matchTerms]. intros H. injection H as <-. now left.
  - assert (Hk : forall taken rest,
               s = rev taken ++ rest ->
               matchTerms ic ts
                 (if captures t then Some (rev taken) else cap0) rest
               = Some m ->
               captureWithin cap0 s m).
    { intros taken rest Hs H. apply IH in H as [H|(g & a & b & Hg & Hr)].
      - destruct (captures t); [|now left].
        right. exists (rev taken), [], rest. now split.
      - right. exists g, (rev taken ++ a), b. split; [exact Hg|].
        now rewrite Hs, Hr, <- app_assoc. }
    cbn [matchTerms]. destruct (quant t).
    + destruct s as [|c r]; [discriminate|].
      destruct (classMatches ic (class t) c); [|discriminate].
      now apply (Hk [c] r).
    + now apply (@repeatMatcher_within (class t) _ s m _ Hk s []).
    + destruct s as [|c r]; [discriminate|].
      destruct (classMatches ic (class t) c); [|discriminate].
      now apply (@repeatMatcher_within (class t) _ (c :: r) m _ Hk r [c]).
Qed.

End Captures.

Lemma exec_within (re : RegExp.regexp) (s g : jsstring) :
  RegExp.exec re s = Some (Some g) -> exists a b, s = a ++ g ++ b.
Proof.
  induction s as [|c r IH]; cbn [RegExp.exec].
  - destruct (RegExp.matchAt re []) as [[cap rest]|] eqn:E; [|discriminate].
    intros H. injection H as ->.
    apply matchTerms_within in E as [E|(g' & a & b & E & Hs)];
      [discriminate|].
    cbn [fst] in E. injection E as <-. now exists a, b.
  - destruct (RegExp.matchAt re (c :: r)) as [[cap rest]|] eqn:E.
    + intros H. injection H as ->.
      apply matchTerms_within in E as [E|(g' & a & b & E & Hs)];
        [discriminate|].
      cbn [fst] in E. injection E as <-. now exists a, b.
    + intros H. destruct (IH H) as (a & b & ->). now exists (c :: a), b.
Qed.

Lemma firstCapture_within (patterns : list RegExp.regexp) (s g : jsstring) :
  firstCapture patterns s = Some g -> exists a b, s = a ++ g ++ b.
Proof.
  induction patterns as [|p ps IH]; [discriminate|].
  cbn [firstCapture].
  destruct (RegExp.exec p s) as [[g'|]|] eqn:E; try exact IH.
  destruct (truthy g'); [|exact IH].
  intros H. injection H as ->. now apply exec_within in E.
Qed.

(* ------------------------------------------------------------------ *)
(** ** Trimming *)

Lemma trimStart_parts (s : jsstring) :
  exists l, s = l ++ trimStart s /\ startsSolid (trimStart s) = true.
Proof.
  induction s as [|c r (l & Hl & Hs)]; [now exists []|].
  cbn [trimStart]. destruct (isWhiteSpace c) eqn:E.
  - exists (c :: l). split; [cbn [app]; now rewrite <- Hl | exact Hs].
  - exists []. split; [reflexivity|]. cbn [startsSolid]. now rewrite E.
Qed.

Lemma trimStart_idempotent (s : jsstring) :
  trimStart (trimStart s) = trimStart s.
Proof.
  destruct (trimStart_parts s) as (_ & _ & H). now apply trimStart_solid.
Qed.

Lemma trimStart_app_solid (x : jsstring) (c : N) :
  isWhiteSpace c = false -> trimStart (x ++ [c]) = trimStart x ++ [c].
Proof.
  intros Hc. induction x as [|d x IH].
  - cbn [app trimStart]. now rewrite Hc.
  - cbn [app trimStart]. now destruct (isWhiteSpace d).
Qed.

Lemma trimEnd_startsSolid (s : jsstring) :
  startsSolid s = true -> startsSolid (trimEnd s) = true.
Proof.
  destruct s as [|c r]; [reflexivity|]. cbn [startsSolid]. intros H.
  apply negb_true_iff in H. unfold trimEnd. cbn [rev].
  rewrite (@trimStart_app_solid (rev r) c H), rev_app_distr. cbn [rev app startsSolid].
  now rewrite H.
Qed.

Lemma trim_idempotent (s : jsstring) : trim (trim s) = trim s.
Proof.
  unfold trim at 1.
  assert (H : trimStart (trim s) = trim s).
  { apply trimStart_solid. unfold trim. apply trimEnd_startsSolid.
    now destruct (trimStart_parts s) as (_ & _ & H). }
  rewrite H. unfold trim, trimEnd.
  now rewrite rev_involutive, trimStart_idempotent.
Qed.

Lemma trim_within (s : jsstring) : exists l t, s = l ++ trim s ++ t.
Proof.
  destruct (trimStart_parts s) as (l & Hl & _).
  destruct (trimStart_parts (rev (trimStart s))) as (t & Ht & _).
  exists l, (rev t). unfold trim, trimEnd.
  rewrite <- rev_app_distr, <- Ht, rev_involutive. exact Hl.
Qed.

(* ------------------------------------------------------------------ *)
(** ** The credential holds no line break *)

Lemma plainSpaced_within (a g b : jsstring) :
  plainSpaced (a ++ g ++ b) = true -> plainSpaced g = true.
Proof.
  unfold plainSpaced. rewrite !forallb_app. intros H.
  apply andb_true_iff in H as [_ H]. now apply andb_true_iff in H as [H _].
Qed.

Lemma normalizeCommand_plainSpaced (curlCommand : jsstring) :
  plainSpaced (normalizeCommand curlCommand) = true.
Proof.
  unfold normalizeCommand.
  set (x := RegExp.replace Patterns.backslashNewline _ _).
  destruct (trim_within (RegExp.replace Patterns.whiteSpaceRun (lit " ") x))
    as (l & t & H).
  apply (@plainSpaced_within l _ t). rewrite <- H.
  change Patterns.whiteSpaceRun with (runOf RegExp.Space).
  rewrite replace_run. unfold plainSpaced.
  apply squeeze_forallb; [reflexivity|].
  rewrite forallb_forall. intros c _.
  change (RegExp.classMatches false RegExp.Space c) with (isWhiteSpace c).
  now destruct (isWhiteSpace c).
Qed.

(** X2: the credential [parseCurlCommand] returns holds no line break, no tab
    and no white space other than the plain space, however the command
    was wrapped; the cookie and the token after "Bearer " have no white
    space at either end. *)
Theorem parseCurlCommand_plain_spaces (curlCommand : jsstring)
    (a : AuthInfo) :
  parseCurlCommand curlCommand = Normal a ->
  plainSpaced (authorization a) = true
  /\ plainSpaced (cookie a) = true
  /\ trim (cookie a) = cookie a
  /\ exists token,
       authorization a = lit "Bearer " ++ token /\ trim token = token.
Proof.
  unfold parseCurlCommand.
  pose proof (normalizeCommand_plainSpaced curlCommand) as Hn.
  destruct (firstCapture Patterns.authPatterns _) as [g|] eqn:Ea;
    [|cbn [truthy negb orb]; discriminate].
  rewrite truthy_app_bearer. cbn [negb orb].
  destruct (firstCapture Patterns.cookiePatterns _) as [g'|] eqn:Ec;
    [|cbn [truthy negb]; discriminate].
  destruct (truthy (trim g')); cbn [negb]; [|discriminate].
  intros H. injection H as <-. cbn [authorization cookie].
  apply firstCapture_within in Ea as (a1 & b1 & Ha).
  apply firstCapture_within in Ec as (a2 & b2 & Hc).
  assert (Hg : plainSpaced (trim g) = true).
  { destruct (trim_within g) as (l & t & Hg).
    apply (@plainSpaced_within l _ t). rewrite <- Hg.
    apply (@plainSpaced_within a1 _ b1). now rewrite <- Ha. }
  assert (Hg' : plainSpaced (trim g') = true).
  { destruct (trim_within g') as (l & t & Hg').
    apply (@plainSpaced_within l _ t). rewrite <- Hg'.
    apply (@plainSpaced_within a2 _ b2). now rewrite <- Hc. }
  split.
  { change (plainSpaced (lit "Bearer " ++ trim g) = true).
    unfold plainSpaced in *. rewrite forallb_app, Hg. reflexivity. }
  split; [exact Hg'|].
  split; [apply trim_idempotent|].
  exists (trim g). split; [reflexivity | apply trim_idempotent].
Qed.

Lemma parseCurlCommand_plain_spaces_witness :
  plainSpaced (lit "Bearer abc.def-ghi") = true
  /\ plainSpaced (lit "a=1; b=2") = true
  /\ trim (lit "a=1; b=2") = lit "a=1; b=2"
  /\ exists token,
       lit "Bearer abc.def-ghi" = lit "Bearer " ++ token
       /\ trim token = token.
Proof.
  apply (@parseCurlCommand_plain_spaces (descriptionText sampleDescription)
           {| authorization := lit "Bearer abc.def-ghi";
              cookie := lit "a=1; b=2" |}).
  vm_compute. reflexivity.
Defined.



Lemma main_requests_carry_credential_witness :
  req_method (getBuildings someAuth) = lit "GET"
  /\ In (lit "authorization", authorization someAuth)
        (req_headers (getBuildings someAuth))
  /\ In (lit "cookie", cookie someAuth)
        (req_headers (getBuildings someAuth)).
Proof.
  apply (@main_requests_carry_credential asciiToLowerCase someAuth
           scheduleRejected allAnswers None BuildingsApi
           (getBuildings someAuth)).
  vm_compute. left. reflexivity.
Defined.

(** X22: the requests of steps 2 to 8 follow the fixed order locations,
    schedule, lecture detail: a run that has obtained its credential
    asks the first one, two or three of them, each once, and never a
    later one without the earlier ones. *)
Theorem main_request_order (toLowerCase : jsstring -> jsstring)
    (authInfo : AuthInfo) (server : Server) (inputs : Inputs)
    (file : AuthFile) :
  exists n,
    (1 <= n <= 3)%nat
    /\ endpoints (trace (fst (main toLowerCase authInfo server inputs file)))
       = firstn n [BuildingsApi; CoursesApi; VideoApi].
Proof.
  run_cases; cbn [endpoints];
    first [ exists 1%nat; split; [lia|reflexivity]
          | exists 2%nat; split; [lia|reflexivity]
          | exists 3%nat; split; [lia|reflexivity] ].
Qed.


(* ------------------------------------------------------------------ *)
(** ** Downloads *)

Lemma readAll_ends (onProgress : option (Z -> number -> option JsError))
    (totalSize : number) (rs : reads) :
  forall downloaded,
    exists events,
      fst (readAll onProgress totalSize downloaded rs) = events ++ [Ended]
      /\ ~ In Ended events.
Proof.
  induction rs as [|value next IH|error]; intros downloaded.
  - exists []. split; [reflexivity | intros []].
  - cbn [readAll].
    destruct (IH (downloaded + Z.of_nat (List.length value))%Z)
      as (events & Hev & Hno).
    destruct onProgress as [callback|].
    + destruct (number_positive totalSize).
      * destruct (callback _ _).
        -- exists [Written value;
                   Progress (downloaded + Z.of_nat (List.length value))
                     totalSize].
           split; [reflexivity|]. cbn [In]. intros [H|[H|[]]]; discriminate.
        -- exists (Written value
                   :: Progress (downloaded + Z.of_nat (List.length value))
                        totalSize :: events).
           unfold before. cbn [fst app]. rewrite Hev.
           split; [reflexivity|]. cbn [In].
           intros [H|[H|H]]; [discriminate | discriminate | now apply Hno].
      * exists (Written value :: events).
        unfold before. cbn [fst app]. rewrite Hev.
        split; [reflexivity|]. cbn [In].
        intros [H|H]; [discriminate | now apply Hno].
    + exists (Written value :: events).
      unfold before. cbn [fst app]. rewrite Hev.
      split; [reflexivity|]. cbn [In].
      intros [H|H]; [discriminate | now apply Hno].
  - exists []. split; [reflexivity | intros []].
Qed.

(** X23: once the response is ok and has a body, the writer is ended exactly
    once, as the last thing [downloadFile] does with it, whether the
    stream ends, a read fails or the progress callback throws. *)
Theorem downloadFile_ends_writer (response : Response) (rs : reads)
    (onProgress : option (Z -> number -> option JsError)) :
  ok response = true -> body response = Some rs ->
  exists events,
    fst (downloadFile (Responded response) onProgress) = events ++ [Ended]
    /\ ~ In Ended events.
Proof.
  intros Hok Hbody. unfold downloadFile. rewrite Hok, Hbody. cbn [negb].
  apply readAll_ends.
Qed.

Lemma downloadFile_ends_writer_witness :
  exists events,
    fst (downloadFile (Responded (okResponse None threeChunks)) None)
    = events ++ [Ended]
    /\ ~ In Ended events.
Proof.
  apply (@downloadFile_ends_writer (okResponse None threeChunks) threeChunks
           None); reflexivity.
Defined.

Lemma readAll_quiet (onProgress : option (Z -> number -> option JsError))
    (totalSize : number) (rs : reads) :
  quiet onProgress ->
  forall downloaded,
    writes (fst (readAll onProgress totalSize downloaded rs)) = chunksOf rs
    /\ snd (readAll onProgress totalSize downloaded rs) = endOf rs.
Proof.
  intros Hq. induction rs as [|value next IH|error]; intros downloaded.
  - now split.
  - cbn [readAll chunksOf endOf].
    destruct (IH (downloaded + Z.of_nat (List.length value))%Z) as [Hw He].
    destruct onProgress as [callback|].
    + destruct (number_positive totalSize).
      * cbn [quiet] in Hq. rewrite Hq. unfold before.
        cbn [fst snd app writes]. now rewrite Hw, He.
      * unfold before. cbn [fst snd app writes]. now rewrite Hw, He.
    + unfold before. cbn [fst snd app writes]. now rewrite Hw, He.
  - now split.
Qed.

(** X24: with a callback that does not throw, or none, the writer receives
    the chunks of the body in the order of the stream, all of them up to
    its end or to the read that fails; [downloadFile] returns when the
    stream ends and throws the error of the failed read otherwise. *)
Theorem downloadFile_writes_body (response : Response) (rs : reads)
    (onProgress : option (Z -> number -> option JsError)) :
  ok response = true -> body response = Some rs -> quiet onProgress ->
  writes (fst (downloadFile (Responded response) onProgress)) = chunksOf rs
  /\ snd (downloadFile (Responded response) onProgress) = endOf rs.
Proof.
  intros Hok Hbody Hq. unfold downloadFile. rewrite Hok, Hbody. cbn [negb].
  now apply readAll_quiet.
Qed.

Lemma downloadFile_writes_body_witness :
  writes (fst (downloadFile
                 (Responded (okResponse (Some (lit "6")) threeChunks))
                 (Some (fun _ _ => None))))
  = chunksOf threeChunks
  /\ snd (downloadFile
            (Responded (okResponse (Some (lit "6")) threeChunks))
            (Some (fun _ _ => None)))
     = endOf threeChunks.
Proof.
  apply (@downloadFile_writes_body
           (okResponse (Some (lit "6")) threeChunks) threeChunks
           (Some (fun _ _ => None))).
  - reflexivity.
  - reflexivity.
  - intros downloaded total. reflexivity.
Defined.

Lemma writtenBytes_written (value : list N) (events : list SinkEvent) :
  writtenBytes (Written value :: events)
  = (Z.of_nat (List.length value) + writtenBytes events)%Z.
Proof.
  unfold writtenBytes. cbn [writes List.concat]. rewrite length_app. lia.
Qed.

Lemma writtenBytes_progress (d : Z) (t : number) (events : list SinkEvent) :
  writtenBytes (Progress d t :: events) = writtenBytes events.
Proof. reflexivity. Qed.

Lemma writtenBytes_nil : writtenBytes [] = 0%Z.
Proof. reflexivity. Qed.

Lemma readAll_progress (onProgress : option (Z -> number -> option JsError))
    (totalSize : number) (rs : reads) :
  forall downloaded pre post d t,
    fst (readAll onProgress totalSize downloaded rs)
    = pre ++ Progress d t :: post ->
    d = (downloaded + writtenBytes pre)%Z
    /\ t = totalSize /\ number_positive totalSize = true
    /\ onProgress <> None.
Proof.
  induction rs as [|value next IH|error]; intros downloaded pre post d t.
  - cbn [readAll fst]. destruct pre as [|e [|e' pre]]; discriminate.
  - cbn [readAll].
    assert (Hskip :
      forall pre',
        fst (readAll onProgress totalSize
               (downloaded + Z.of_nat (List.length value)) next)
        = pre' ++ Progress d t :: post ->
        d = (downloaded + writtenBytes (Written value :: pre'))%Z
        /\ t = totalSize /\ number_positive totalSize = true
        /\ onProgress <> None).
    { intros pre' H. apply IH in H as (-> & Ht & Hp & Hn).
      repeat split; try assumption.
      rewrite writtenBytes_written. lia. }
    destruct onProgress as [callback|].
    + destruct (number_positive totalSize) eqn:Hpos.
      * assert (Hhere :
          d = (downloaded + Z.of_nat (List.length value))%Z ->
          d = (downloaded + writtenBytes [Written value])%Z).
        { intros ->. rewrite writtenBytes_written, writtenBytes_nil. lia. }
        destruct (callback _ _).
        -- cbn [fst]. destruct pre as [|e pre].
           ++ discriminate.
           ++ cbn [app]. intros H. injection H as <- H.
              destruct pre as [|e pre].
              ** cbn [app] in H. injection H as <- <- _.
                 now repeat split; [apply Hhere|..].
              ** cbn [app] in H. injection H as _ H.
                 destruct pre as [|e' [|e'' pre]]; discriminate.
        -- unfold before. cbn [fst app]. destruct pre as [|e pre].
           ++ discriminate.
           ++ cbn [app]. intros H. injection H as <- H.
              destruct pre as [|e pre].
              ** cbn [app] in H. injection H as <- <- _.
                 now repeat split; [apply Hhere|..].
              ** cbn [app] in H. injection H as <- H.
                 apply IH in H as (-> & Ht & Hp & Hn).
                 repeat split; try assumption.
                 rewrite writtenBytes_written, writtenBytes_progress. lia.
      * unfold before. cbn [fst app]. destruct pre as [|e pre];
          [discriminate|].
        cbn [app]. intros H. injection H as <- H. now apply Hskip.
    + unfold before. cbn [fst app]. destruct pre as [|e pre];
        [discriminate|].
      cbn [app]. intros H. injection H as <- H. now apply Hskip.
  - cbn [readAll fst]. destruct pre as [|e [|e' pre]]; discriminate.
Qed.

(** X25: every progress report is honest: the first number it carries is
    the number of bytes handed to the writer so far, the second is the
    content length declared by the response, and a report is made only
    when that length is a positive number. *)
Theorem downloadFile_progress_honest (outcome : fetchOutcome)
    (onProgress : option (Z -> number -> option JsError))
    (pre post : list SinkEvent) (d : Z) (t : number) :
  fst (downloadFile outcome onProgress) = pre ++ Progress d t :: post ->
  d = writtenBytes pre
  /\ number_positive t = true
  /\ exists response,
       outcome = Responded response /\ t = declaredLength response.
Proof.
  unfold downloadFile.
  destruct outcome as [response|error];
    [|destruct pre as [|e pre]; discriminate].
  destruct (negb (ok response));
    [destruct pre as [|e pre]; discriminate|].
  destruct (body response) as [rs|];
    [|destruct pre as [|e pre]; discriminate].
  intros H. apply readAll_progress in H as (-> & -> & Hp & _).
  split; [lia|]. split; [exact Hp|]. now exists response.
Qed.

Lemma downloadFile_progress_honest_witness :
  5%Z = writtenBytes [Written [1; 2; 3]%N; Progress 3 (Int 6);
                      Written [4; 5]%N]
  /\ number_positive (Int 6) = true
  /\ exists response,
       Responded (okResponse (Some (lit "6")) threeChunks)
       = Responded response
       /\ Int 6 = declaredLength response.
Proof.
  apply (@downloadFile_progress_honest
           (Responded (okResponse (Some (lit "6")) threeChunks))
           (Some (fun _ _ => None))
           [Written [1; 2; 3]%N; Progress 3 (Int 6); Written [4; 5]%N]
           [Written [6]%N; Progress 6 (Int 6); Ended] 5 (Int 6)).
  vm_compute. reflexivity.
Defined.

(* ------------------------------------------------------------------ *)
(** ** Asking for the credential *)

Lemma textPrompt_valid (validate : jsstring -> option jsstring)
    (attempts : list jsstring) (text : jsstring) :
  textPrompt validate attempts = Some text -> validate text = None.
Proof.
  unfold textPrompt. intros H. apply find_some in H as [_ H].
  now destruct (validate text).
Qed.

(** X26: whatever the user answers and whatever the file holds, a credential
    that [getAuthInfo] returns passes [validateAuthInfo]: the saved one
    was checked on loading, the pasted one by the extraction, the typed
    one by the prompts. *)
Theorem getAuthInfo_valid (answers : AuthAnswers) (file : AuthFile)
    (v : JSON.value) :
  snd (getAuthInfo answers file) = Returned v ->
  validateAuthInfo_parsed v = Normal true.
Proof.
  assert (Hnew : requestAuthInfo answers = Returned v ->
                 validateAuthInfo_parsed v = Normal true).
  { unfold requestAuthInfo.
    destruct (inputMethod answers) as [[|]|]; [| |discriminate].
    - destruct (textPrompt validateCurl _) as [command|]; [|discriminate].
      destruct (parseCurlCommand command) as [a|message]; [|discriminate].
      destruct (validateAuthInfo a) eqn:E; cbn [negb]; [|discriminate].
      intros H. injection H as <-.
      now rewrite validateAuthInfo_parsed_object, E.
    - destruct (textPrompt validateAuthorization _) as [a|] eqn:Ea;
        [|discriminate].
      destruct (textPrompt validateCookie _) as [c|] eqn:Ec; [|discriminate].
      intros H. injection H as <-.
      rewrite validateAuthInfo_parsed_object. f_equal.
      apply textPrompt_valid in Ea. apply textPrompt_valid in Ec.
      unfold validateAuthorization in Ea. unfold validateCookie in Ec.
      unfold validateAuthInfo. cbn [authorization cookie].
      destruct (startsWith a (lit "Bearer "));
        [|now rewrite orb_true_r in Ea].
      destruct c as [|x c]; [discriminate Ec | reflexivity]. }
  unfold getAuthInfo.
  destruct (loadAuthInfo file) as [[saved|] after] eqn:El; cbn [snd].
  - destruct (useExisting answers) as [[|]|]; cbn [snd];
      [|exact Hnew|discriminate].
    intros H. injection H as <-.
    assert (Hs : fst (loadAuthInfo file) = Some saved) by now rewrite El.
    revert Hs. clear. destruct file as [content|]; [|discriminate].
    unfold loadAuthInfo, JSON_parse. cbv zeta.
    destruct (JSON.parse (fileText content)) as [u|]; cbn [bind];
      [|discriminate].
    destruct (validateAuthInfo_parsed u) as [[|]|e] eqn:E;
      cbn [bind fst]; try discriminate.
    intros H. now injection H as <-.
  - exact Hnew.
Qed.

Lemma getAuthInfo_valid_witness :
  validateAuthInfo_parsed
    (authInfoObject {| authorization := lit "Bearer abc.def-ghi";
                       cookie := lit "a=1; b=2" |}) = Normal true.
Proof.
  apply (@getAuthInfo_valid pasteAnswers None).
  vm_compute. reflexivity.
Defined.

(** X27: [getAuthInfo] exits with status 1 only when a pasted command yields
    no credential: the text shown is then the message of
    [parseCurlCommand], and the file is as the loading left it, no
    credential having been written. *)
Theorem getAuthInfo_exit_status (answers : AuthAnswers) (file : AuthFile)
    (text : jsstring) :
  snd (getAuthInfo answers file) = AuthExited 1 text ->
  exists command message,
    inputMethod answers = Some CurlMethod
    /\ textPrompt validateCurl (curlCommand answers) = Some command
    /\ parseCurlCommand command = Throw message
    /\ text = lit "解析失败: " ++ message
    /\ fst (getAuthInfo answers file) = snd (loadAuthInfo file).
Proof.
  assert (Hnew : requestAuthInfo answers = AuthExited 1 text ->
                 exists command message,
                   inputMethod answers = Some CurlMethod
                   /\ textPrompt validateCurl (curlCommand answers)
                      = Some command
                   /\ parseCurlCommand command = Throw message
                   /\ text = lit "解析失败: " ++ message).
  { unfold requestAuthInfo.
    destruct (inputMethod answers) as [[|]|]; [| |discriminate].
    - destruct (textPrompt validateCurl _) as [command|]; [|discriminate].
      destruct (parseCurlCommand command) as [a|message] eqn:Ep.
      + rewrite (@parseCurlCommand_validates command a Ep). discriminate.
      + intros H. injection H as <-. now exists command, message.
    - destruct (textPrompt validateAuthorization _); [|discriminate].
      destruct (textPrompt validateCookie _); discriminate. }
  unfold getAuthInfo.
  destruct (loadAuthInfo file) as [[saved|] after]; cbn [fst snd].
  - destruct (useExisting answers) as [[|]|]; cbn [fst snd];
      try discriminate.
    intros H. destruct (Hnew H) as (c & m & A & B & C & D).
    now exists c, m.
  - intros H. destruct (Hnew H) as (c & m & A & B & C & D).
    now exists c, m.
Qed.

Lemma getAuthInfo_exit_status_witness :
  exists command message,
    inputMethod {| useExisting := None; inputMethod := Some CurlMethod;
                   curlCommand := [bareCommand]; authorizationText := [];
                   cookieText := [] |} = Some CurlMethod
    /\ textPrompt validateCurl
         (curlCommand {| useExisting := None;
                         inputMethod := Some CurlMethod;
                         curlCommand := [bareCommand];
                         authorizationText := []; cookieText := [] |})
       = Some command
    /\ parseCurlCommand command = Throw message
    /\ lit "解析失败: "
         ++ extractionMessage [lit "Authorization"; lit "Cookie"]
       = lit "解析失败: " ++ message
    /\ fst (getAuthInfo {| useExisting := None;
                           inputMethod := Some CurlMethod;
                           curlCommand := [bareCommand];
                           authorizationText := []; cookieText := [] |}
              None)
       = snd (loadAuthInfo None).
Proof.
  apply (@getAuthInfo_exit_status
           {| useExisting := None; inputMethod := Some CurlMethod;
              curlCommand := [bareCommand]; authorizationText := [];
              cookieText := [] |} None).
  vm_compute. reflexivity.
Defined.

(* ------------------------------------------------------------------ *)
(** ** What a resolved address is *)

(** X28: a result of [extractVideoUrl] that is not null is truthy: the test
    [!videoUrl] of index.ts fails only on null, and a string result is
    never empty. *)
Theorem extractVideoUrl_result_truthy (r : Video.VideoResponse)
    (v : JSON.value) :
  extractVideoUrl r = Normal (Some v) ->
  toBoolean (Some v) = true
  /\ forall url, v = JSON.JString url -> url <> [].
Proof.
  intros H. apply extractVideoUrl_some in H
    as (first & rest & s & j & sp & _ & _ & _ & _ & _ & _ & Ht).
  split; [exact Ht|]. intros url -> ->. discriminate Ht.
Qed.

Lemma extractVideoUrl_result_truthy_witness :
  toBoolean (Some (JSON.JString (lit "https://x/y.mp4"))) = true
  /\ forall url,
       JSON.JString (lit "https://x/y.mp4") = JSON.JString url -> url <> [].
Proof.
  apply (@extractVideoUrl_result_truthy
           (responseWith [entryWith (Some mp4Content)])).
  vm_compute. reflexivity.
Defined.

